(** * Vocabulary Management Engine (superdesk/vocabularies/vocabularies.py)

    A shallow embedding of [VocabulariesService] and a verification of its
    validation, lifecycle, query, locale and keyword-merging behaviour.

    Documents are JSON-like Python values.  Python dictionaries keep their
    insertion order, and that order is observable here (the first violated
    schema rule is the one reported), so a dictionary is an association list
    with distinct keys.  Python exceptions are values of [exn]; a function
    that can raise returns a [result], and a function that also mutates
    returns the state it leaves, whether it returns or raises.

    Python's own [str.upper], [str.lower] and [repr] are parameters of the
    development: the hooks and the keyword merger are read for whatever
    these functions are, and every general property holds for all of them.
    The sample documents hold ASCII text, for which the three functions are
    given in full.

    The file has five parts: the embedding of the code, the notions the
    properties are stated with, the sample documents, the properties, and the
    properties on the samples. *)

From Stdlib Require Import ZArith String Ascii List Bool Lia.
From stdpp Require Import base list gmap strings.

Set Default Proof Using "Type".
#[local] Set Warnings "-register-all".

(* ===================================================================== *)
(** * Python values                                                       *)
(* ===================================================================== *)

Module Py.

Inductive value : Type :=
| VNone
| VBool (b : bool)
| VInt (n : Z)
| VStr (s : string)
| VList (xs : list value)
| VDict (kvs : list (string * value)).

(** A Python [dict] with string keys, in insertion order. *)
Definition dict : Type := list (string * value).

(** ** Exceptions and results *)

(** One constructor per [raise] site of the service, plus the built-in
    exceptions that its dictionary and iteration primitives can raise. *)
Inductive exn : Type :=
| RequiredField (field : string) (index : nat)
    (* badRequestError "Required <field> in item <index>" *)
| LinkNotFound (link_vocab link_field v : value) (field : string) (index : nat)
    (* badRequestError '<link_vocab> "<link_field>=<v>" not found' *)
| IdInUse (id : value)
    (* SuperdeskApiError "<id> is in use", payload {_id: {conflict: 1}} *)
| IdDeleted (id : value)
    (* SuperdeskApiError "<id> is used by deleted vocabulary",
       payload {_id: {deleted: 1}} *)
| DefaultNotDeletable
    (* badRequestError "Default vocabularies cannot be deleted" *)
| EmptyUnique (unique_field : value)
    (* badRequestError "<unique_field> cannot be empty" *)
| NotUnique (v unique_field : value)
    (* badRequestError "Value <v> for field <unique_field> is not unique" *)
| KeyError (k : string)
| TypeError
| AttributeError
| StopIteration.

(** The exceptions that are [SuperdeskApiError]s, as opposed to Python's own. *)
Definition is_api_error (e : exn) : bool :=
  match e with
  | KeyError _ | TypeError | AttributeError | StopIteration => false
  | _ => true
  end.

Inductive result (A : Type) : Type :=
| Ok (a : A)
| Raise (e : exn).
Arguments Ok {A} a.
Arguments Raise {A} e.

Definition rbind {A B} (r : result A) (k : A -> result B) : result B :=
  match r with
  | Ok a => k a
  | Raise e => Raise e
  end.

#[export] Instance result_ret : MRet result := fun _ a => Ok a.
#[export] Instance result_bind : MBind result := fun _ _ k r => rbind r k.

(** ** Dictionaries *)

Fixpoint assoc_get {A} (k : string) (l : list (string * A)) : option A :=
  match l with
  | [] => None
  | (k', v) :: r => if String.eqb k' k then Some v else assoc_get k r
  end.

(** [k in d] *)
Definition dict_has (k : string) (d : dict) : bool :=
  match assoc_get k d with Some _ => true | None => false end.

(** [d.get(k)] and [d.get(k, default)] *)
Definition dict_get (k : string) (d : dict) : value :=
  match assoc_get k d with Some v => v | None => VNone end.

Definition dict_get_default (k : string) (default : value) (d : dict) : value :=
  match assoc_get k d with Some v => v | None => default end.

(** [d[k] = v]: an existing key keeps its position, a new key goes last. *)
Fixpoint dict_set (k : string) (v : value) (d : dict) : dict :=
  match d with
  | [] => [(k, v)]
  | (k', v') :: r =>
      if String.eqb k' k then (k', v) :: r else (k', v') :: dict_set k v r
  end.

(** [d.setdefault(k, v)] *)
Definition dict_setdefault (k : string) (v : value) (d : dict) : dict :=
  if dict_has k d then d else dict_set k v d.

(** [del d[k]], with the [KeyError] swallowed as [format_item] does. *)
Fixpoint dict_del (k : string) (d : dict) : dict :=
  match d with
  | [] => []
  | (k', v') :: r => if String.eqb k' k then r else (k', v') :: dict_del k r
  end.

(** [d.update(u)] *)
Definition dict_update (d u : dict) : dict :=
  fold_left (fun acc kv => dict_set (fst kv) (snd kv) acc) u d.

(** ** Truthiness, equality, strings *)

Definition truthy (v : value) : bool :=
  match v with
  | VNone => false
  | VBool b => b
  | VInt n => negb (n =? 0)%Z
  | VStr s => negb (String.eqb s "")
  | VList xs => match xs with [] => false | _ => true end
  | VDict kvs => match kvs with [] => false | _ => true end
  end.

(** Python's [==]: booleans are the integers 0 and 1, lists compare
    element-wise, dictionaries compare as maps (order is ignored). *)
Fixpoint py_eq (a b : value) {struct a} : bool :=
  match a, b with
  | VNone, VNone => true
  | VBool x, VBool y => Bool.eqb x y
  | VBool x, VInt n => (n =? Z.b2z x)%Z
  | VInt n, VBool x => (n =? Z.b2z x)%Z
  | VInt n, VInt m => (n =? m)%Z
  | VStr s, VStr t => String.eqb s t
  | VList xs, VList ys =>
      (fix go (xs ys : list value) : bool :=
         match xs, ys with
         | [], [] => true
         | x :: xs', y :: ys' => py_eq x y && go xs' ys'
         | _, _ => false
         end) xs ys
  | VDict d1, VDict d2 =>
      (length d1 =? length d2)%nat &&
      (fix go (d : list (string * value)) : bool :=
         match d with
         | [] => true
         | (k, v) :: r =>
             match assoc_get k d2 with
             | Some w => py_eq v w
             | None => false
             end && go r
         end) d1
  | _, _ => false
  end.

(** [x in xs] for a list [xs] *)
Definition list_contains (x : value) (xs : list value) : bool :=
  existsb (py_eq x) xs.

(** [needle in hay] for two strings *)
Fixpoint substringb (needle hay : string) : bool :=
  String.prefix needle hay ||
  match hay with
  | EmptyString => false
  | String _ r => substringb needle r
  end.

Fixpoint chars (s : string) : list value :=
  match s with
  | EmptyString => []
  | String c r => VStr (String c EmptyString) :: chars r
  end.

(** ** Operations that depend on the dynamic type *)

(** [v[k]] for a string [k] *)
Definition py_getitem (v : value) (k : string) : result value :=
  match v with
  | VDict d => match assoc_get k d with Some x => Ok x | None => Raise (KeyError k) end
  | _ => Raise TypeError
  end.

(** [v.get(k)]: only dictionaries have the method. *)
Definition py_get (v : value) (k : string) : result value :=
  match v with
  | VDict d => Ok (dict_get k d)
  | _ => Raise AttributeError
  end.

Definition py_get_default (v : value) (k : string) (default : value) : result value :=
  match v with
  | VDict d => Ok (dict_get_default k default d)
  | _ => Raise AttributeError
  end.

(** [v.get(key)] for a key that is itself a value: every key of a
    document is a string, lists and dictionaries are not hashable. *)
Definition py_get_key (v : value) (key : value) : result value :=
  match v with
  | VDict d =>
      match key with
      | VStr k => Ok (dict_get k d)
      | VList _ | VDict _ => Raise TypeError
      | _ => Ok VNone
      end
  | _ => Raise AttributeError
  end.

(** [k in v] for a string [k] *)
Definition py_contains (v : value) (k : string) : result bool :=
  match v with
  | VDict d => Ok (dict_has k d)
  | VList xs => Ok (list_contains (VStr k) xs)
  | VStr s => Ok (substringb k s)
  | _ => Raise TypeError
  end.

(** [for x in v] *)
Definition py_iter (v : value) : result (list value) :=
  match v with
  | VList xs => Ok xs
  | VStr s => Ok (chars s)
  | VDict d => Ok (map (fun kv => VStr (fst kv)) d)
  | _ => Raise TypeError
  end.

(** [v.items()] *)
Definition py_items (v : value) : result dict :=
  match v with
  | VDict d => Ok d
  | _ => Raise AttributeError
  end.

End Py.
Import Py.

(* ===================================================================== *)
(** * State and exceptions                                                *)
(* ===================================================================== *)

(** A computation over a mutable state [S] that may raise; when it raises,
    the state is the one reached at the [raise]. *)
Definition M (S A : Type) : Type := S -> result A * S.

Definition bindM {S A B} (m : M S A) (k : A -> M S B) : M S B :=
  fun s => match m s with
           | (Ok a, s') => k a s'
           | (Raise e, s') => (Raise e, s')
           end.

#[export] Instance M_ret {S} : MRet (M S) := fun _ a s => (Ok a, s).
#[export] Instance M_bind {S} : MBind (M S) := fun _ _ k m => bindM m k.

Definition raise {S A} (e : exn) : M S A := fun s => (Raise e, s).
Definition lift {S A} (r : result A) : M S A := fun s => (r, s).
Definition gets {S A} (f : S -> A) : M S A := fun s => (Ok (f s), s).
Definition modify {S} (f : S -> S) : M S unit := fun s => (Ok tt, f s).

(** [for x in xs: body(x)] *)
Fixpoint for_each {S A} (xs : list A) (body : A -> M S unit) : M S unit :=
  match xs with
  | [] => mret tt
  | x :: r => body x;; for_each r body
  end.

(** [enumerate(xs)] *)
Definition enumerate {A} (xs : list A) : list (nat * A) :=
  combine (seq 0 (length xs)) xs.

(* ===================================================================== *)
(** * The vocabulary store                                                *)
(* ===================================================================== *)

Module Store.

(** Modelled from the spec: the Vocabulary Store, "a document store keyed by
    vocabulary id" with point lookup, insert and partial update (the base
    service and its backend are not among the sources).  One record per
    vocabulary; a soft-deleted vocabulary stays in the store as a record
    carrying [_deleted = True]. *)
Definition store : Type := list dict.

(** A record matches a lookup when it carries every looked-up field with
    an equal value. *)
Definition matches (lookup doc : dict) : bool :=
  forallb (fun kv => match assoc_get (fst kv) doc with
                     | Some v => py_eq (snd kv) v
                     | None => false
                     end) lookup.

(** Modelled from the spec: [findOne(id) -> Optional<Vocabulary>], here with
    the lookup the caller passes. *)
Definition find_one (lookup : dict) (st : store) : option dict :=
  List.find (matches lookup) st.

(** Modelled from the spec: [insert(docs)]. *)
Definition insert (new_docs : list dict) (st : store) : store := st ++ new_docs.

(** Modelled from the spec: [patch(id, update)], the partial update of the
    record with that id. *)
Fixpoint patch (id : value) (updates : dict) (st : store) : store :=
  match st with
  | [] => []
  | doc :: r =>
      if matches [("_id", id)] doc then dict_update doc updates :: r
      else doc :: patch id updates r
  end.

End Store.
Import Store.

(* ===================================================================== *)
(** * VocabulariesService                                                 *)
(* ===================================================================== *)

Definition KEYWORDS_CV : string := "keywords".

(** ** _validate_items *)

(** The objects [_validate_items] mutates: its argument [update], the local
    cache [vocabs], and the store round-trips it causes (every id passed to
    [find_one], in call order). *)
Record vstate : Type := VState {
  update : dict;
  vocabs : list (value * list value);
  lookups : list value
}.

Definition set_update (f : dict -> dict) (s : vstate) : vstate :=
  VState (f (update s)) (vocabs s) (lookups s).

Definition hashable (v : value) : bool :=
  match v with
  | VList _ | VDict _ => false
  | _ => true
  end.

(** [vocabs.get(k)] *)
Fixpoint cache_get (k : value) (c : list (value * list value)) : option (list value) :=
  match c with
  | [] => None
  | (k', vs) :: r => if py_eq k' k then Some vs else cache_get k r
  end.

(** [vocabs[k] = vs] *)
Fixpoint cache_set (k : value) (vs : list value) (c : list (value * list value))
  : list (value * list value) :=
  match c with
  | [] => [(k, vs)]
  | (k', vs') :: r =>
      if py_eq k' k then (k', vs) :: r else (k', vs') :: cache_set k vs r
  end.

(** [vocabs.get(k)] is falsy: no entry, or an entry that is the empty list. *)
Definition cache_miss (k : value) (c : list (value * list value)) : bool :=
  match cache_get k c with
  | Some (_ :: _) => false
  | _ => true
  end.

Fixpoint traverse {A B} (f : A -> result B) (xs : list A) : result (list B) :=
  match xs with
  | [] => Ok []
  | x :: r => y ← f x; ys ← traverse f r; Ok (y :: ys)
  end.

(** A comprehension with a condition that can raise. *)
Fixpoint filter_result {A} (p : A -> result bool) (xs : list A) : result (list A) :=
  match xs with
  | [] => Ok []
  | x :: r => b ← p x; ys ← filter_result p r; Ok (if b : bool then x :: ys else ys)
  end.

(** Lines 201-205: one store round-trip, then the cache entry. *)
Definition resolve_link (st : store) (link_vocab link_field : value) : M vstate unit :=
  modify (fun s => VState (update s) (vocabs s) (lookups s ++ [link_vocab]));;
  let linked_vocab := default [] (find_one [("_id", link_vocab)] st) in
  let linked_items := dict_get "items" linked_vocab in
  vs ← lift (xs ← (if truthy linked_items then py_iter linked_items else Ok []);
             traverse (fun vocab => py_get_key vocab link_field) xs);
  modify (fun s => VState (update s) (cache_set link_vocab vs (vocabs s)) (lookups s)).

(** Lines 200-205: the round-trip is made when [vocabs.get(link_vocab)] is
    falsy. *)
Definition cached_link (st : store) (link_vocab link_field : value) : M vstate unit :=
  miss ← gets (fun s => cache_miss link_vocab (vocabs s));
  if miss : bool then resolve_link st link_vocab link_field else mret tt.

(** The body of the inner loop (lines 192-210) for one item and one schema
    entry. *)
Definition check_field (st : store) (unique_field : value) (index : nat) (item : value)
    (field : string) (desc : value) : M vstate unit :=
  required ← lift (py_get_default desc "required" (VBool false));
  missing ← lift (if truthy required || py_eq unique_field (VStr field)
                  then present ← py_contains item field;
                       if present : bool
                       then v ← py_getitem item field; Ok (negb (truthy v))
                       else Ok true
                  else Ok false);
  if missing : bool then raise (RequiredField field index)
  else
    link_vocab ← lift (py_get desc "link_vocab");
    link_field ← lift (if truthy link_vocab then py_get desc "link_field" else Ok VNone);
    if truthy link_vocab && truthy link_field then
      (if hashable link_vocab then mret tt else raise TypeError);;
      cached_link st link_vocab link_field;;
      v ← lift (py_get item field);
      if truthy v then
        x ← lift (py_getitem item field);
        values ← gets (fun s => default [] (cache_get link_vocab (vocabs s)));
        if list_contains x values then mret tt
        else raise (LinkNotFound link_vocab link_field x field index)
      else mret tt
    else mret tt.

(** Lines 180-186: if we have qcode and not unique_field set, we want it
    to be qcode. *)
Definition default_qcode : M vstate unit :=
  doc ← gets update;
  match schema ← py_getitem (VDict doc) "schema"; py_getitem schema "qcode" with
  | Raise (KeyError _) => mret tt
  | Raise e => raise e
  | Ok _ => modify (set_update (dict_setdefault "unique_field" (VStr "qcode")))
  end.

(** Lines 187-210: the checks, item by item and rule by rule. *)
Definition check_items (st : store) : M vstate unit :=
  doc ← gets update;
  let unique_field := dict_get "unique_field" doc in
  if dict_has "schema" doc && dict_has "items" doc then
    items ← lift (py_iter (dict_get "items" doc));
    for_each (enumerate items) (fun '(index, item) =>
      schema ← lift (py_items (dict_get_default "schema" (VDict []) doc));
      for_each schema (fun '(field, desc) =>
        check_field st unique_field index item field desc))
  else mret tt.

Definition _validate_items (st : store) : M vstate unit :=
  default_qcode;; check_items st.

(** One validation call on a candidate document: the outcome, and the
    state it leaves (the candidate as mutated, the round-trips made). *)
Definition validate (st : store) (doc : dict) : result unit * vstate :=
  _validate_items st (VState doc [] []).

(** ** get_items *)

Module Query.

(** A condition of the [$elemMatch] projection the code builds: an exact
    value, or a case-insensitive regular expression. *)
Inductive cond : Type :=
| CEq (v : value)
| CRegexI (pattern : string).

(** The [$elemMatch] mapping, keyed by dotted path.  The code only creates
    it together with its first entry, so the empty list stands for the empty
    projection. *)
Definition elem_match : Type := list (string * cond).

Fixpoint em_set (k : string) (c : cond) (em : elem_match) : elem_match :=
  match em with
  | [] => [(k, c)]
  | (k', c') :: r => if String.eqb k' k then (k', c) :: r else (k', c') :: em_set k c r
  end.

Fixpoint split_dots_aux (s : string) (cur : string) : list string :=
  match s with
  | EmptyString => [cur]
  | String c r =>
      if Ascii.eqb c "."%char then cur :: split_dots_aux r ""
      else split_dots_aux r (cur +:+ String c EmptyString)
  end.

Definition split_dots (s : string) : list string := split_dots_aux s "".

Fixpoint resolve_path (path : list string) (v : value) : option value :=
  match path with
  | [] => Some v
  | k :: r =>
      match v with
      | VDict d => match assoc_get k d with Some x => resolve_path r x | None => None end
      | _ => None
      end
  end.

Section Mongo.

(** The store's regular-expression search with the [i] option, an engine
    outside this repository: pattern, then subject. *)
Variable regex_search_i : string -> string -> bool.

Definition cond_holds (c : cond) (v : value) : bool :=
  match c with
  | CEq x => py_eq x v
  | CRegexI p => match v with VStr s => regex_search_i p s | _ => false end
  end.

Definition item_matches (em : elem_match) (item : value) : bool :=
  forallb (fun kc => match resolve_path (split_dots (fst kc)) item with
                     | Some v => cond_holds (snd kc) v
                     | None => false
                     end) em.

(** Modelled from the spec: with an [$elemMatch] projection on [items] the
    store returns the id and the first matching item only ("first-match
    semantics"), and no [items] at all when none matches; with the empty
    projection it returns the record as stored. *)
Definition project (em : elem_match) (doc : dict) : dict :=
  match em with
  | [] => doc
  | _ =>
      let id_part := match assoc_get "_id" doc with Some i => [("_id", i)] | None => [] end in
      match dict_get "items" doc with
      | VList xs =>
          match List.find (item_matches em) xs with
          | Some x => id_part ++ [("items", VList [x])]
          | None => id_part
          end
      | _ => id_part
      end
  end.

(** Modelled from the spec: [list(filter) -> sequence<Vocabulary>], the
    cursor over the matching records, projected. *)
Definition get_from_mongo (lookup : dict) (em : elem_match) (st : store) : list dict :=
  map (project em) (List.filter (matches lookup) st).

Definition nonempty (o : option string) : option string :=
  match o with
  | Some "" => None
  | _ => o
  end.

Definition format_item (_id : string) (item : value) : result value :=
  match item with
  | VDict d => Ok (VDict (dict_set "scheme" (VStr _id) (dict_del "is_active" d)))
  | _ => Raise TypeError
  end.

(** [i.get("is_active", True) == is_active] *)
Definition is_active_is (is_active : bool) (i : value) : result bool :=
  v ← py_get_default i "is_active" (VBool true);
  Ok (py_eq v (VBool is_active)).

Definition get_items (_id : string) (qcode : option string) (is_active : option bool)
    (name lang : option string) (st : store) : result (list value) :=
  let projection : elem_match := [] in
  let lookup := [("_id", VStr _id)] in
  let projection :=
    match nonempty qcode with
    | Some q => em_set "qcode" (CEq (VStr q)) projection
    | None => projection
    end in
  (* if `lang` is provided `name` is looked in `translations.name.{lang}` *)
  let projection :=
    match nonempty name, nonempty lang with
    | Some n, Some l =>
        em_set ("translations.name." +:+ l) (CRegexI ("^" +:+ n +:+ "$")) projection
    | Some n, None => em_set "name" (CRegexI ("^" +:+ n +:+ "$")) projection
    | None, _ => projection
    end in
  let cursor := get_from_mongo lookup projection st in
  match cursor with
  | [] => Ok []                                   (* StopIteration *)
  | doc :: _ =>
      match assoc_get "items" doc with
      | None => Ok []                             (* KeyError *)
      | Some items =>
          items ← match is_active with
                  | Some b => xs ← py_iter items; filter_result (is_active_is b) xs
                  | None => py_iter items
                  end;
          traverse (format_item _id) items
      end
  end.

End Mongo.
End Query.
Import Query.

(** ** get_locale_vocabulary *)

Module Locale.

(** The Python objects the function handles: the list of items holds
    references to item dictionaries, and both can be shared with the caller.
    A reference is an index into the heap. *)
Inductive obj : Type :=
| OList (refs : list nat)
| ODict (d : dict).

Abbreviation heap := (list obj).

Definition alloc (o : obj) : M heap nat := fun h => (Ok (length h), h ++ [o]).

Definition load_list (a : nat) : M heap (list nat) :=
  fun h => match h !! a with
           | Some (OList refs) => (Ok refs, h)
           | _ => (Raise TypeError, h)
           end.

Definition load_dict (a : nat) : M heap dict :=
  fun h => match h !! a with
           | Some (ODict d) => (Ok d, h)
           | _ => (Raise TypeError, h)
           end.

Definition store_obj (a : nat) (o : obj) : M heap unit := modify (<[a := o]>).

(** [l.append(r)] *)
Definition list_append (l r : nat) : M heap unit :=
  refs ← load_list l;
  store_obj l (OList (refs ++ [r])).

(** The body of the inner loop: one entry of the item's translations. *)
Definition localize (language : string) (new_item : nat) (entry : string * value)
  : M heap unit :=
  let '(field, values) := entry in
  d ← load_dict new_item;
  if dict_has field d then
    has ← lift (py_contains values language);
    if has : bool then
      v ← lift (py_getitem values language);
      store_obj new_item (ODict (dict_set field v d))
    else mret tt
  else mret tt.

(** The body of the outer loop: one item of the vocabulary. *)
Definition localize_item (language : string) (locale_vocabulary item : nat) : M heap unit :=
  d ← load_dict item;
  if negb (dict_has "translations" d) then list_append locale_vocabulary item
  else
    new_item ← alloc (ODict d);
    list_append locale_vocabulary new_item;;
    translations ← lift (py_items (dict_get_default "translations" (VDict []) d));
    for_each translations (localize language new_item).

Definition get_locale_vocabulary (vocabulary : option nat) (language : option string)
  : M heap (option nat) :=
  match vocabulary, language with
  | Some voc, Some lang =>
      items ← load_list voc;
      if bool_decide (items = []) || String.eqb lang "" then mret vocabulary
      else
        locale_vocabulary ← alloc (OList []);
        for_each items (localize_item lang locale_vocabulary);;
        mret (Some locale_vocabulary)
  | _, _ => mret vocabulary
  end.

End Locale.
Import Locale.

(* ===================================================================== *)
(** * The hooks and the keywords                                          *)
(* ===================================================================== *)

Section Python.

(** Python's own [str.upper], [str.lower] and [repr]: the Unicode case
    mappings and the rendering of a value belong to the language and not to
    this repository, and the service is read for whatever they are. *)
Variable upper lower : string -> string.
Variable py_repr : value -> string.

(** [str(v)]: a string is itself, every other value is rendered as [repr]
    renders it. *)
Definition py_str (v : value) : string :=
  match v with
  | VStr s => s
  | _ => py_repr v
  end.

(** ** _check_uniqueness *)

Fixpoint check_unique_loop (unique_field : value) (items : list value)
    (unique_values : list string) : result unit :=
  match items with
  | [] => Ok tt
  | item :: rest =>
      (* compare only the active items *)
      active ← py_get item "is_active";
      if negb (truthy active) then check_unique_loop unique_field rest unique_values
      else
        v ← py_get_key item unique_field;
        if negb (truthy v) then Raise (EmptyUnique unique_field)
        else
          let unique_value := upper (py_str v) in
          if bool_decide (unique_value ∈ unique_values)
          then Raise (NotUnique v unique_field)
          else check_unique_loop unique_field rest (unique_values ++ [unique_value])
  end.

Definition _check_uniqueness (items : value) (unique_field : value) : result unit :=
  xs ← py_iter items;
  check_unique_loop unique_field xs [].

(** ** on_delete *)

Definition on_delete (doc : dict) : result unit :=
  if negb (dict_has "field_type" doc) then Raise DefaultNotDeletable else Ok tt.

(** ** _filter_inactive_vocabularies *)

Definition _filter_inactive_vocabularies (item : dict) : result dict :=
  vocs ← py_getitem (VDict item) "items";
  xs ← py_iter vocs;
  kept ← filter_result (fun voc => v ← py_get_default voc "is_active" (VBool true);
                                   Ok (truthy v)) xs;
  active_vocs ← traverse (fun voc =>
                            match voc with
                            | VDict d =>
                                Ok (VDict (List.filter
                                             (fun kv => negb (String.eqb kv.1 "is_active")) d))
                            | _ => Raise AttributeError
                            end) kept;
  Ok (dict_set "items" (VList active_vocs) item).

(** ** The service's world: the store and the notification channel *)

(** A [push_notification] call: event name, the vocabulary's display name
    and its id (the user of the request is not modelled). *)
Record event : Type := Event {
  event_name : string;
  event_vocabulary : value;
  event_vocabulary_id : value
}.

Record world : Type := World {
  docs : store;
  events : list event
}.

Definition set_docs (f : store -> store) (w : world) : world :=
  World (f (docs w)) (events w).

Definition _send_notification (updated_vocabulary : dict) (ev : string) : M world unit :=
  id ← lift (py_getitem (VDict updated_vocabulary) "_id");
  modify (fun w => World (docs w)
                         (events w ++ [Event ev (dict_get "display_name" updated_vocabulary) id])).

(** [_validate_items(doc)] run against the current store; the caller gets
    back its document as the call left it. *)
Definition validate_doc (doc : dict) : M world dict :=
  fun w => let '(r, s) := validate (docs w) doc in
           (_ ← r; Ok (update s), w).

Section Service.

(** [system_keys]: the field names of the default content schema and of the
    default editor, both defined outside this module. *)
Variable system_keys : gset string.

(** [id in self.system_keys] *)
Definition in_system_keys (id : value) : result bool :=
  match id with
  | VStr s => Ok (bool_decide (s ∈ system_keys))
  | VList _ | VDict _ => Raise TypeError
  | _ => Ok false
  end.

(** ** on_create, on_created *)

(** The hook for one document of the batch; it returns the document as
    validation left it. *)
Definition on_create_doc (doc : dict) : M world dict :=
  doc ← validate_doc doc;
  reserved ← lift (if truthy (dict_get "field_type" doc)
                   then id ← py_getitem (VDict doc) "_id"; in_system_keys id
                   else Ok false);
  if reserved : bool
  then id ← lift (py_getitem (VDict doc) "_id"); raise (IdInUse id)
  else
    id ← lift (py_getitem (VDict doc) "_id");
    deleted ← gets (fun w => find_one [("_id", id); ("_deleted", VBool true)] (docs w));
    match deleted with
    | Some (_ :: _) => raise (IdDeleted id)
    | _ => mret doc
    end.

Fixpoint on_create (batch : list dict) : M world (list dict) :=
  match batch with
  | [] => mret []
  | doc :: rest =>
      doc' ← on_create_doc doc;
      rest' ← on_create rest;
      mret (doc' :: rest')
  end.

Definition on_created (batch : list dict) : M world unit :=
  for_each batch (fun doc => _send_notification doc "vocabularies:created").

(** Modelled from the spec: the create entry point of the base service,
    "created via validated insert": the create hook, the insert, then the
    created hook.  Nothing is inserted when the hook raises. *)
Definition post (batch : list dict) : M world unit :=
  batch' ← on_create batch;
  modify (set_docs (insert batch'));;
  on_created batch'.

(** ** on_update, on_updated *)

Definition on_update (updates original : dict) : M world unit :=
  (if dict_has "items" updates then
     (* updated = deepcopy(original); updated.update(updates) *)
     let updated := dict_update original updates in
     _ ← validate_doc updated; mret tt
   else mret tt);;
  let unique_field := dict_get "unique_field" original in
  if truthy unique_field then
    lift (_check_uniqueness (dict_get_default "items" (VList []) updates) unique_field)
  else mret tt.

Definition on_updated (updates original : dict) : M world unit :=
  _send_notification original "vocabularies:updated".

(** Modelled from the spec: the "internal-only update path that bypasses
    some hooks", a patch of the stored record. *)
Definition system_update (id : value) (updates original : dict) : M world unit :=
  modify (set_docs (patch id updates)).

(** ** add_missing_keywords *)

Definition keyword_item (keyword : string) : value :=
  VDict [("name", VStr keyword); ("qcode", VStr keyword); ("is_active", VBool true)].

(** [item["name"].lower()] *)
Definition item_name_lower (item : value) : result string :=
  name ← py_getitem item "name";
  match name with
  | VStr s => Ok (lower s)
  | _ => Raise AttributeError
  end.

Definition keywords_cv (keywords : list string) : dict :=
  [ ("_id", VStr KEYWORDS_CV);
    ("items", VList (map keyword_item keywords));
    ("type", VStr "manageable");
    ("display_name", VStr "Keywords");
    ("unique_field", VStr "name");
    ("schema", VDict [("name", VDict []); ("qcode", VDict [])]) ].

Definition add_missing_keywords (keywords : list string) : M world unit :=
  match keywords with
  | [] => mret tt
  | _ =>
      found ← gets (fun w => find_one [("_id", VStr KEYWORDS_CV)] (docs w));
      match found with
      | Some ((_ :: _) as cv) =>
          let cv_items := dict_get_default "items" (VList []) cv in
          names ← lift (xs ← py_iter cv_items; traverse item_name_lower xs);
          let existing : gset string := list_to_set names in
          let missing :=
            List.filter (fun keyword => negb (bool_decide (lower keyword ∈ existing)))
                        keywords in
          match missing with
          | [] => mret tt
          | _ =>
              (* updates["items"] is the list object held by cv, when cv has
                 one: the appended items show in cv as well *)
              items ← lift (match cv_items with
                            | VList xs => Ok (VList (xs ++ map keyword_item missing))
                            | _ => Raise AttributeError
                            end);
              let updates := [("items", items)] in
              let cv := if dict_has "items" cv then dict_set "items" items cv else cv in
              on_update updates cv;;
              id ← lift (py_getitem (VDict cv) "_id");
              system_update id updates cv;;
              on_updated updates cv
          end
      | _ => post [keywords_cv keywords]
      end
  end.

End Service.

(** ** get_article_cv_item *)

Definition get_article_cv_item (item : dict) (scheme : value) : dict :=
  let article_item := List.filter (fun kv => negb (String.eqb kv.1 "is_active")) item in
  dict_update article_item [("scheme", scheme)].

(** ** _cast_items *)

(** [vocab_schema]: vocabulary id, then field name, then the type to cast
    to. *)
Definition vocab_schema : list (string * list (string * string)) :=
  [ ("crop_sizes", [("width", "integer"); ("height", "integer")]) ].

(** [vocab_schema.get(id, {})] *)
Definition vocab_schema_get (id : value) : result (list (string * string)) :=
  match id with
  | VStr s => Ok (default [] (assoc_get s vocab_schema))
  | VList _ | VDict _ => Raise TypeError
  | _ => Ok []
  end.

(** [item[field] = v] *)
Definition py_setitem (item : value) (field : string) (v : value) : result value :=
  match item with
  | VDict d => Ok (VDict (dict_set field v d))
  | _ => Raise TypeError
  end.

Section Cast.

(** [serialize_value(type, value)] of the web framework: the cast of a raw
    value to a declared type. *)
Variable serialize_value : string -> value -> result value.

(** The inner loop of [_cast_items] on one item. *)
Fixpoint cast_item (schema : list (string * string)) (item : value) : result value :=
  match schema with
  | [] => Ok item
  | (field, type) :: rest =>
      present ← py_contains item field;
      item ← (if present : bool
              then v ← py_getitem item field;
                   v' ← serialize_value type v;
                   py_setitem item field v'
              else Ok item);
      cast_item rest item
  end.

Definition _cast_items (vocab : dict) : result dict :=
  schema ← vocab_schema_get (dict_get "_id" vocab);
  let items := dict_get_default "items" (VList []) vocab in
  xs ← py_iter items;
  xs' ← traverse (cast_item schema) xs;
  (* the items are cast in place: the list is the one [vocab] holds *)
  Ok (match items with
      | VList _ => if dict_has "items" vocab then dict_set "items" (VList xs') vocab else vocab
      | _ => vocab
      end).

(** ** on_fetched, on_fetched_item *)

(** [config.ITEMS], the key under which a listing holds its records. *)
Definition ITEMS : string := "_items".

Definition on_fetched_item (doc : dict) : result dict :=
  doc ← _filter_inactive_vocabularies doc;
  _cast_items doc.

(** [where_clause] is the parsed [where] argument of the request, [None]
    when there is no request, no arguments or no [where]. *)
Definition on_fetched (where_clause : option value) (doc : dict) : result dict :=
  manageable ← match where_clause with
                | Some w => t ← py_get w "type"; Ok (py_eq t (VStr "manageable"))
                | None => Ok false
                end;
  if manageable : bool then Ok doc
  else
    listing ← py_getitem (VDict doc) ITEMS;
    xs ← py_iter listing;
    xs' ← traverse (fun item =>
                      match item with
                      | VDict d => d' ← on_fetched_item d; Ok (VDict d')
                      | _ => Raise TypeError
                      end) xs;
    Ok (match listing with
        | VList _ => dict_set ITEMS (VList xs') doc
        | _ => doc
        end).

End Cast.

(** ** on_replace *)

Section Replace.

(** [app.config["LAST_UPDATED"]] and [app.config["DATE_CREATED"]]. *)
Variable LAST_UPDATED DATE_CREATED : string.

(** [now_updated] and [now_created] are what the two calls of [utcnow()]
    return. *)
Definition on_replace (now_updated now_created : value) (document : dict)
    (original : option dict) : M world dict :=
  document ← validate_doc document;
  let document := dict_set LAST_UPDATED now_updated document in
  let created :=
    match original with
    | Some ((_ :: _) as o) => dict_get_default DATE_CREATED now_created o
    | _ => now_created
    end in
  let document := dict_set DATE_CREATED created document in
  (* logger.info("updating vocabulary item: %s", document["_id"]) *)
  _ ← lift (py_getitem (VDict document) "_id");
  mret document.

End Replace.

(** ** on_replaced *)

Definition on_replaced (document original : dict) : M world unit :=
  _send_notification document "vocabularies:updated".

(** ** get_languages, get_field_options *)

Definition get_languages (regex_search_i : string -> string -> bool) (st : store)
  : result (list value) :=
  get_items regex_search_i "languages" None (Some true) None None st.

(** [cv and cv.get("field_options") or {}] *)
Definition get_field_options (field : value) (st : store) : value :=
  match find_one [("_id", field)] st with
  | Some ((_ :: _) as cv) =>
      let options := dict_get "field_options" cv in
      if truthy options then options else VDict []
  | _ => VDict []
  end.

(** ** is_related_content *)

(** [s.split("--")[0]] *)
Fixpoint before_dashes (s : string) : string :=
  match s with
  | EmptyString => EmptyString
  | String c r => if String.prefix "--" s then EmptyString else String c (before_dashes r)
  end.

(** Modelled from the spec: [list(filter) -> sequence<Vocabulary>], the
    filtered listing of the store, for a filter of exact values. *)
Definition find_all (lookup : dict) (st : store) : list dict :=
  List.filter (matches lookup) st.

Definition is_related_content (item_name : string) (related_content : option (list value))
    (st : store) : result bool :=
  let related_content :=
    match related_content with
    | Some l => l
    | None => map VDict (find_all [("field_type", VStr "related_content")] st)
    end in
  match related_content with
  | [] => Ok false
  | _ =>
      ids ← traverse (fun content => py_getitem content "_id") related_content;
      Ok (list_contains (VStr (before_dashes item_name)) ids)
  end.


(** ** get_rightsinfo *)

(** The fields of the article that [get_rightsinfo] reads.  [source] and
    [original_source] are absent or hold a value; the language is [None] or a
    string, as for [get_locale_vocabulary]. *)
Record article : Type := Article {
  article_source : option value;
  article_original_source : option value;
  article_language : option string
}.

(** [item.get("source", item.get("original_source", "default"))] *)
Definition rights_key (item : article) : value :=
  let fallback := default (VStr "default") (article_original_source item) in
  default fallback (article_source item).

(** [get_locale_vocabulary] as [get_rightsinfo] sees it: the value of the
    list it returns.  [get_rightsinfo] passes the list of a record it has just
    fetched and keeps the result only, so that what the result shares with
    the argument (see [Locale]) does not show. *)
Definition locale_field (language : string) (new_item : dict) (entry : string * value)
  : result dict :=
  let '(field, values) := entry in
  if dict_has field new_item then
    has ← py_contains values language;
    if has : bool then
      v ← py_getitem values language;
      Ok (dict_set field v new_item)
    else Ok new_item
  else Ok new_item.

Fixpoint locale_fields (language : string) (translations : dict) (new_item : dict)
  : result dict :=
  match translations with
  | [] => Ok new_item
  | entry :: rest =>
      new_item ← locale_field language new_item entry;
      locale_fields language rest new_item
  end.

Definition locale_item (language : string) (item : value) : result value :=
  present ← py_contains item "translations";
  if negb present then Ok item
  else
    match item with
    | VDict d =>
        translations ← py_items (dict_get_default "translations" (VDict []) d);
        new_item ← locale_fields language translations d;
        Ok (VDict new_item)
    | _ => Raise AttributeError                   (* item.copy(), new_item.get *)
    end.

Definition locale_vocabulary_value (vocabulary : value) (language : option string)
  : result value :=
  match language with
  | Some lang =>
      if negb (truthy vocabulary) || String.eqb lang "" then Ok vocabulary
      else
        items ← py_iter vocabulary;
        locale_vocabulary ← traverse (locale_item lang) items;
        Ok (VList locale_vocabulary)
  | None => Ok vocabulary
  end.

(** [next(info for info in items if info["name"] == key)], with
    [StopIteration] as [None]: the items after the first match are not
    looked at. *)
Fixpoint first_named (key : value) (items : list value) : result (option value) :=
  match items with
  | [] => Ok None
  | info :: rest =>
      name ← py_getitem info "name";
      if py_eq name key then Ok (Some info) else first_named key rest
  end.

Definition get_rightsinfo (item : article) (st : store) : result dict :=
  let rights_key := rights_key item in
  match find_one [("_id", VStr "rightsinfo")] st with
  | Some ((_ :: _) as all_rights) =>
      if negb (truthy (dict_get "items" all_rights)) then Ok []
      else
        items ← locale_vocabulary_value (dict_get "items" all_rights) (article_language item);
        infos ← py_iter items;
        default_rights ← first_named (VStr "default") infos;
        found ← first_named rights_key infos;
        let rights := match found with Some info => Some info | None => default_rights end in
        match rights with
        | Some rights =>
            if truthy rights then
              holder ← py_get rights "copyrightHolder";
              notice ← py_get rights "copyrightNotice";
              terms ← py_get rights "usageTerms";
              Ok [ ("copyrightholder", holder); ("copyrightnotice", notice);
                   ("usageterms", terms) ]
            else Ok []
        | None => Ok []
        end
  | _ => Ok []
  end.


(** ** get_extra_fields, get_custom_vocabularies, get_forbiden_custom_vocabularies *)

(** What a lookup asks of one field: a value, or a mapping of the store's
    operators ([$exists], [$ne]) to their arguments. *)
Inductive condition : Type :=
| Is (v : value)
| Operators (ops : list (string * value)).

Section Get.

(** The store's reading of one condition on one field of a record; the
    operators are the store's own. *)
Variable field_holds : string -> condition -> dict -> bool.

(** Modelled from the spec: [list(filter) -> sequence<Vocabulary>], the
    records that meet every condition of the lookup, in stored order. *)
Definition get (lookup : list (string * condition)) (st : store) : list dict :=
  List.filter (fun doc => forallb (fun fc => field_holds fc.1 fc.2 doc) lookup) st.

Definition get_extra_fields (st : store) : list dict :=
  get [("field_type", Operators [("$exists", VBool true); ("$ne", VNone)])] st.

Definition get_custom_vocabularies (st : store) : list dict :=
  get [("field_type", Is VNone); ("service", Operators [("$exists", VBool true)])] st.

Definition get_forbiden_custom_vocabularies (st : store) : list dict :=
  get [("field_type", Is VNone); ("selection_type", Is (VStr "do not show"));
       ("service", Operators [("$exists", VBool true)])] st.

End Get.

(* ===================================================================== *)
(** * Notions used to state the properties                                *)
(* ===================================================================== *)

(** ** Validation *)

(** The candidate after lines 181-186. *)
Definition default_unique_field (doc : dict) : dict :=
  match assoc_get "schema" doc with
  | Some (VDict schema) =>
      if dict_has "qcode" schema then dict_setdefault "unique_field" (VStr "qcode") doc
      else doc
  | _ => doc
  end.

(** The outcome of lines 180-186: only a [schema] that is not a mapping makes
    them raise. *)
Definition default_qcode_outcome (doc : dict) : result unit :=
  match assoc_get "schema" doc with
  | Some (VDict _) | None => Ok tt
  | Some _ => Raise TypeError
  end.

(** [keeps f m]: running [m] leaves the component [f] of the state as it
    was, whether [m] returns or raises. *)
Definition keeps {S A B} (f : S -> B) (m : M S A) : Prop :=
  forall s, f (m s).2 = f s.

(** ** Conflicts at creation *)

Section ConflictNotions.
Variable system_keys : gset string.

(** The two conflicts [on_create] looks for, as conditions on the document
    and the store. *)
Definition reserved_conflict (doc : dict) : bool :=
  truthy (dict_get "field_type" doc) &&
  match assoc_get "_id" doc with
  | Some (VStr s) => bool_decide (s ∈ system_keys)
  | _ => false
  end.

Definition deleted_conflict (st : store) (doc : dict) : bool :=
  match assoc_get "_id" doc with
  | Some id =>
      match find_one [("_id", id); ("_deleted", VBool true)] st with
      | Some (_ :: _) => true
      | _ => false
      end
  | None => false
  end.

(** Lines 216-222 for a document that passed validation. *)
Definition conflict_check (st : store) (doc : dict) : result dict :=
  reserved ← (if truthy (dict_get "field_type" doc)
              then id ← py_getitem (VDict doc) "_id"; in_system_keys system_keys id
              else Ok false);
  id ← py_getitem (VDict doc) "_id";
  if reserved : bool then Raise (IdInUse id)
  else match find_one [("_id", id); ("_deleted", VBool true)] st with
       | Some (_ :: _) => Raise (IdDeleted id)
       | _ => Ok doc
       end.

End ConflictNotions.

(** ** Uniqueness *)

Section UniquenessNotions.
Variable U : string.

(** An item is active unless [is_active] says otherwise; an item without
    the key counts as active, as in [_filter_inactive_vocabularies] and
    [get_items]. *)
Definition active (item : dict) : bool :=
  truthy (dict_get_default "is_active" (VBool true) item).

(** The value two items are compared by: [str(item.get(U)).upper()]. *)
Definition unique_key (item : dict) : string := upper (py_str (dict_get U item)).

(** Two active items, at different positions, with the same key. *)
Definition has_duplicate (items : list dict) : Prop :=
  exists l1 d1 l2 d2 l3,
    items = l1 ++ d1 :: l2 ++ d2 :: l3 /\
    active d1 = true /\ active d2 = true /\ unique_key d1 = unique_key d2.

Definition active_keys (items : list dict) : list string :=
  map unique_key (List.filter active items).

(** Every active item has a non-empty value of [U]. *)
Definition all_supplied (items : list dict) : Prop :=
  Forall (fun d => active d = true -> truthy (dict_get U d) = true) items.

End UniquenessNotions.

(** ** Item queries *)

Section GetItemsNotions.
Variable _id : string.

(** What [format_item] does to an item dictionary. *)
Definition formatted (d : dict) : dict :=
  dict_set "scheme" (VStr _id) (dict_del "is_active" d).

(** The filter on [is_active], on an item dictionary. *)
Definition flag_is (b : bool) (d : dict) : bool :=
  py_eq (dict_get_default "is_active" (VBool true) d) (VBool b).

End GetItemsNotions.

(** ** Keywords *)

(** Keywords are missing when their lower-cased form is not a name the
    vocabulary already has. *)
Definition missing_keywords (names keywords : list string) : list string :=
  List.filter (fun keyword =>
                 negb (bool_decide (lower keyword ∈ (list_to_set names : gset string))))
              keywords.

Definition keywords_created : event :=
  Event "vocabularies:created" (VStr "Keywords") (VStr KEYWORDS_CV).

(** The dictionary of a keyword's item. *)
Definition keyword_dict (keyword : string) : dict :=
  [("name", VStr keyword); ("qcode", VStr keyword); ("is_active", VBool true)].

(** Two keywords, at different positions of the input, that the uniqueness
    check does not tell apart. *)
Definition case_variants (keywords : list string) : Prop :=
  exists l1 k1 l2 k2 l3,
    keywords = l1 ++ k1 :: l2 ++ k2 :: l3 /\ upper k1 = upper k2.

Definition keywords_updated (cv : dict) : event :=
  Event "vocabularies:updated" (dict_get "display_name" cv) (VStr KEYWORDS_CV).

(** ** Locale overlay *)

Section OverlayNotions.
Variable language : string.

(** The overlay in the words of the specification: a field of the item that
    has a translation for the language takes it, every other field stays. *)
Definition translation_of (item : dict) (field : string) : option value :=
  match assoc_get "translations" item with
  | Some (VDict translations) =>
      match assoc_get field translations with
      | Some (VDict values) => assoc_get language values
      | _ => None
      end
  | _ => None
  end.

Definition overlay (item : dict) : dict :=
  map (fun kv => (kv.1, default kv.2 (translation_of item kv.1))) item.

(** An item dictionary with distinct keys whose [translations], when
    present, maps field names (distinct) to mappings. *)
Definition wf_item (d : dict) : Prop :=
  List.NoDup (map fst d) /\
  match assoc_get "translations" d with
  | None => True
  | Some (VDict translations) =>
      List.NoDup (map fst translations) /\
      Forall (fun kv => exists values, kv.2 = VDict values) translations
  | Some _ => False
  end.

(** One turn of the inner loop, on the dictionary itself, for an entry
    whose value is a mapping. *)
Definition localize_dict (d : dict) (entry : string * value) : dict :=
  match entry.2 with
  | VDict values =>
      if dict_has entry.1 d
      then match assoc_get language values with
           | Some v => dict_set entry.1 v d
           | None => d
           end
      else d
  | _ => d
  end.

Definition translate_entry (entry : string * value) (kv : string * value)
  : string * value :=
  (kv.1, if String.eqb kv.1 entry.1
         then match entry.2 with
              | VDict values => default kv.2 (assoc_get language values)
              | _ => kv.2
              end
         else kv.2).

End OverlayNotions.

(** An object that stays where it is, with the same content, whatever the
    new list comes to hold and whatever is allocated later. *)
Definition located (h news : heap) (a : nat) (o : obj) : Prop :=
  a <> length h /\
  forall refs more, (h ++ OList refs :: news ++ more) !! a = Some o.

(** ** Store round-trips *)

(** How many times the store was asked for the vocabulary [k]. *)
Definition count_lookups (k : string) (ls : list value) : nat :=
  length (List.filter (py_eq (VStr k)) ls).

Section LookupNotions.
Variable k : string.

(** Either [k] was never asked for, or it was asked for once and its cache
    entry is a hit from then on. *)
Definition settled (s : vstate) : Prop :=
  count_lookups k (lookups s) = 0 \/
  (count_lookups k (lookups s) = 1 /\ cache_miss (VStr k) (vocabs s) = false).

Definition steady {A} (m : M vstate A) : Prop :=
  forall s, settled s ->
            count_lookups k (lookups (m s).2) <= 1 /\
            (forall a, (m s).1 = Ok a -> settled (m s).2).

End LookupNotions.

(** ** Events *)

(** The notification [on_created] sends for a document. *)
Definition created_event (doc : dict) : event :=
  Event "vocabularies:created" (dict_get "display_name" doc) (dict_get "_id" doc).

(** ** Required fields *)

(** A schema entry asks for the field: it is marked required, or the field
    is the unique field. *)
Definition asks_for (unique_field : value) (field : string) (desc : dict) : bool :=
  truthy (dict_get_default "required" (VBool false) desc) || py_eq unique_field (VStr field).

(** The item has the field, with a truthy value. *)
Definition supplies (item : dict) (field : string) : bool :=
  dict_has field item && truthy (dict_get field item).

(** The item has every field the schema asks for. *)
Definition complete (unique_field : value) (schema : list (string * dict)) (item : dict)
  : bool :=
  forallb (fun fd => negb (asks_for unique_field fd.1 fd.2) || supplies item fd.1) schema.

(** The schema entry is no link rule: [link_vocab] or [link_field] is
    missing or falsy. *)
Definition no_link (desc : dict) : bool :=
  negb (truthy (dict_get "link_vocab" desc) && truthy (dict_get "link_field" desc)).

(** The errors that are raised by [raise] statements of [_validate_items],
    or by Python itself. *)
Definition validation_error (e : exn) : bool :=
  match e with
  | RequiredField _ _ | LinkNotFound _ _ _ _ _ => true
  | KeyError _ | TypeError | AttributeError => true
  | _ => false
  end.

(** [raises_only P m]: when [m] raises, the exception satisfies [P]. *)
Definition raises_only {S A} (P : exn -> bool) (m : M S A) : Prop :=
  forall s e, (m s).1 = Raise e -> P e = true.


(** The first field, in schema order, that the schema asks for and the item
    does not supply. *)
Definition first_missing (unique_field : value) (schema : list (string * dict))
    (item : dict) : option string :=
  fst <$> List.find (fun fd => asks_for unique_field fd.1 fd.2 && negb (supplies item fd.1))
                    schema.

(** The first incomplete item, with its missing field; items are numbered
    from [n]. *)
Fixpoint first_incomplete (unique_field : value) (schema : list (string * dict)) (n : nat)
    (items : list dict) : option (string * nat) :=
  match items with
  | [] => None
  | item :: rest =>
      match first_missing unique_field schema item with
      | Some field => Some (field, n)
      | None => first_incomplete unique_field schema (S n) rest
      end
  end.

(** A schema as the document holds it. *)
Definition schema_value (schema : list (string * dict)) : value :=
  VDict (map (fun fd => (fd.1, VDict fd.2)) schema).


(** ** Items without the activity flag *)

(** The dictionary comprehension that leaves [is_active] out. *)
Definition without_flag (d : dict) : dict :=
  List.filter (fun kv => negb (String.eqb kv.1 "is_active")) d.

(** The items [_filter_inactive_vocabularies] keeps. *)
Definition active_items (ds : list dict) : list dict :=
  map without_flag (List.filter active ds).

(** The activity flag, when the item has one, is a boolean. *)
Definition boolean_flag (d : dict) : Prop :=
  forall v, assoc_get "is_active" d = Some v -> exists b, v = VBool b.


(** ** Casts *)

(** What the cast by a schema makes of an item: the same keys in the same
    order, the fields outside the schema untouched, each field of the schema
    that the item has replaced by its serialized value. *)
Definition cast_of (serialize_value : string -> value -> result value)
    (schema : list (string * string)) (d d' : dict) : Prop :=
  map fst d' = map fst d /\
  (forall k, ~ In k (map fst schema) -> assoc_get k d' = assoc_get k d) /\
  (forall k t v, In (k, t) schema -> assoc_get k d = Some v ->
                 exists v', serialize_value t v = Ok v' /\ assoc_get k d' = Some v').

(** The item has no [is_active] key. *)
Definition flagless (d : dict) : Prop := dict_has "is_active" d = false.

(** The records of a listing as [on_fetched] leaves them: dictionaries whose
    [items] are dictionaries without [is_active]. *)
Definition stripped (record : value) : Prop :=
  exists d ds, record = VDict d /\
               assoc_get "items" d = Some (VList (map VDict ds)) /\
               Forall flagless ds.

(** The request asks for the manageable vocabularies. *)
Definition manageable_query (where_clause : option value) : bool :=
  match where_clause with
  | Some (VDict w) => py_eq (dict_get "type" w) (VStr "manageable")
  | _ => false
  end.


(** ** Replacement *)

(** The creation time a replacement keeps: the original's, when there is an
    original that has one. *)
Definition creation_time (DATE_CREATED : string) (original : option dict) (now : value)
  : value :=
  match original with
  | Some o => dict_get_default DATE_CREATED now o
  | None => now
  end.

(** ** Related content *)

(** No hyphen occurs in the string. *)
Definition hyphen_free (s : string) : bool :=
  forallb (fun c => negb (Ascii.eqb c "-"%char)) (list_ascii_of_string s).


(** ** Link rules *)

(** The stored vocabulary [V] holds the item dictionaries [ts]; a
    vocabulary that is not stored holds none. *)
Definition stored_items (st : store) (V : string) (ts : list dict) : Prop :=
  match find_one [("_id", VStr V)] st with
  | Some target => assoc_get "items" target = Some (VList (map VDict ts))
  | None => ts = []
  end.

Section LinkNotions.
Variable st : store.
(** The items of each vocabulary, and the one field by which the schema
    links to it. *)
Variable targets : string -> list dict.
Variable link_field_of : string -> string.

(** The values an item may take in a field linked to [V]. *)
Definition link_values (V : string) : list value :=
  map (dict_get (link_field_of V)) (targets V).

(** A schema entry is no link rule, or it links to a vocabulary by that
    vocabulary's link field, both non-empty strings. *)
Definition well_linked (desc : dict) : Prop :=
  no_link desc = true \/
  exists V, dict_get "link_vocab" desc = VStr V /\ V <> "" /\
            dict_get "link_field" desc = VStr (link_field_of V) /\
            link_field_of V <> "" /\
            stored_items st V (targets V).

(** The item has a truthy value in a linked field, and the value is not
    among those of the target. *)
Definition unresolved (desc item : dict) (field : string) : bool :=
  negb (no_link desc) && truthy (dict_get field item) &&
  negb (list_contains (dict_get field item)
          (match dict_get "link_vocab" desc with VStr V => link_values V | _ => [] end)).

(** What one schema entry finds wrong with one item. *)
Definition violation (unique_field : value) (index : nat) (item : dict) (fd : string * dict)
  : option exn :=
  if asks_for unique_field fd.1 fd.2 && negb (supplies item fd.1)
  then Some (RequiredField fd.1 index)
  else if unresolved fd.2 item fd.1
       then Some (LinkNotFound (dict_get "link_vocab" fd.2) (dict_get "link_field" fd.2)
                               (dict_get fd.1 item) fd.1 index)
       else None.

(** The first violation in an item, in schema order. *)
Fixpoint item_violation (unique_field : value) (index : nat) (item : dict)
    (schema : list (string * dict)) : option exn :=
  match schema with
  | [] => None
  | fd :: rest =>
      match violation unique_field index item fd with
      | Some e => Some e
      | None => item_violation unique_field index item rest
      end
  end.

(** The first violation in the items, numbered from [n]. *)
Fixpoint first_violation (unique_field : value) (schema : list (string * dict)) (n : nat)
    (items : list dict) : option exn :=
  match items with
  | [] => None
  | item :: rest =>
      match item_violation unique_field n item schema with
      | Some e => Some e
      | None => first_violation unique_field schema (S n) rest
      end
  end.

(** Every cache entry for a vocabulary holds the vocabulary's link values. *)
Definition cache_agrees (s : vstate) : Prop :=
  forall V, cache_get (VStr V) (vocabs s) = None \/
            cache_get (VStr V) (vocabs s) = Some (link_values V).

End LinkNotions.


(** ** Rights *)

(** The rights metadata read off an item of the rights vocabulary. *)
Definition rights_of (info : dict) : dict :=
  [ ("copyrightholder", dict_get "copyrightHolder" info);
    ("copyrightnotice", dict_get "copyrightNotice" info);
    ("usageterms", dict_get "usageTerms" info) ].

(** The items as the article's language shows them. *)
Definition locale_view (language : option string) (ds : list dict) : list dict :=
  match language with
  | Some lang => if String.eqb lang "" then ds else map (overlay lang) ds
  | None => ds
  end.

(** The first item with the given name. *)
Definition named_item (key : value) (ds : list dict) : option dict :=
  List.find (fun d => py_eq (dict_get "name" d) key) ds.

(* ===================================================================== *)
(** * Sample documents                                                    *)
(* ===================================================================== *)

(** ** The Python of the samples *)

(** The samples hold ASCII text.  On a string of ASCII characters
    [str.upper] and [str.lower] map the letters a-z and A-Z onto each other
    and leave every other character alone. *)
Definition upper_ascii (c : ascii) : ascii :=
  let n := nat_of_ascii c in
  if (97 <=? n)%nat && (n <=? 122)%nat then ascii_of_nat (n - 32) else c.

Definition lower_ascii (c : ascii) : ascii :=
  let n := nat_of_ascii c in
  if (65 <=? n)%nat && (n <=? 90)%nat then ascii_of_nat (n + 32) else c.

Fixpoint map_string (f : ascii -> ascii) (s : string) : string :=
  match s with
  | EmptyString => EmptyString
  | String c r => String (f c) (map_string f r)
  end.

Definition ascii_upper : string -> string := map_string upper_ascii.
Definition ascii_lower : string -> string := map_string lower_ascii.

(** [repr] of an integer: its decimal digits. *)
Fixpoint digits (fuel : nat) (n : N) (acc : string) : string :=
  match fuel with
  | O => acc
  | S fuel' =>
      let d := ascii_of_N (48 + N.modulo n 10) in
      let q := N.div n 10 in
      if (q =? 0)%N then String d acc else digits fuel' q (String d acc)
  end.

Definition str_of_Z (n : Z) : string :=
  let s := digits (S (N.to_nat (N.log2 (Z.abs_N n)))) (Z.abs_N n) "" in
  if (n <? 0)%Z then String "-" s else s.

Definition join (sep : string) (ss : list string) : string :=
  match ss with
  | [] => ""
  | s :: r => fold_left (fun acc t => acc +:+ sep +:+ t) r s
  end.

(** [repr] of a string of ASCII characters: in single quotes, or in double
    quotes when the string has a single quote and no double quote; the
    quote in use and the backslash are escaped with a backslash, tab, line
    feed and carriage return are written [\t], [\n] and [\r], and every other
    control character as [\x] and two hexadecimal digits. *)
Definition double_quote : ascii := "034"%char.
Definition backslash : ascii := "092"%char.

Definition hex_digit (n : nat) : ascii :=
  nth n (list_ascii_of_string "0123456789abcdef") "0"%char.

Definition repr_char (quote c : ascii) : string :=
  let n := nat_of_ascii c in
  if Ascii.eqb c quote || Ascii.eqb c backslash then String backslash (String c "")
  else if (n =? 9)%nat then String backslash "t"
  else if (n =? 10)%nat then String backslash "n"
  else if (n =? 13)%nat then String backslash "r"
  else if (n <? 32)%nat || (n =? 127)%nat
       then String backslash (String "x" (String (hex_digit (n / 16))
                                                 (String (hex_digit (n mod 16)) "")))
  else String c "".

Definition has_char (c : ascii) (s : string) : bool :=
  existsb (Ascii.eqb c) (list_ascii_of_string s).

Definition repr_string (s : string) : string :=
  let quote := if has_char "'" s && negb (has_char double_quote s)
               then double_quote else "'"%char in
  String quote
    (fold_right (fun c acc => repr_char quote c +:+ acc) (String quote "")
                (list_ascii_of_string s)).

(** [repr] of a value whose strings are ASCII. *)
Fixpoint ascii_repr (v : value) : string :=
  match v with
  | VNone => "None"
  | VBool true => "True"
  | VBool false => "False"
  | VInt n => str_of_Z n
  | VStr s => repr_string s
  | VList xs => "[" +:+ join ", " (map ascii_repr xs) +:+ "]"
  | VDict kvs =>
      "{" +:+ join ", " (map (fun kv => repr_string (fst kv) +:+ ": " +:+ ascii_repr (snd kv))
                             kvs)
          +:+ "}"
  end.

(** A candidate with items and no schema. *)
Definition items_without_schema : dict :=
  [ ("_id", VStr "categories");
    ("unique_field", VStr "qcode");
    ("items", VList [VDict [("name", VStr "no qcode at all")]; VInt 3]) ].

(** A candidate whose schema has a qcode field, the record stored for it,
    and an item list with two active items of the same qcode. *)
Definition qcode_candidate : dict :=
  [ ("_id", VStr "genre");
    ("schema", VDict [("name", VDict []); ("qcode", VDict [])]);
    ("items", VList [VDict [("name", VStr "Feature"); ("qcode", VStr "feat")]]) ].

Definition qcode_stored : dict :=
  qcode_candidate ++ [("unique_field", VStr "qcode")].

Definition qcode_duplicates : value :=
  VList [ VDict [("name", VStr "Feature"); ("qcode", VStr "feat"); ("is_active", VBool true)];
          VDict [("name", VStr "Other"); ("qcode", VStr "FEAT"); ("is_active", VBool true)] ].

(** A stored vocabulary whose items already hold a duplicate, and an update
    that leaves the items alone. *)
Definition original_with_duplicates : dict :=
  [ ("_id", VStr "genre");
    ("unique_field", VStr "qcode");
    ("items", qcode_duplicates) ].

Definition rename_only : dict := [("display_name", VStr "Genres")].

(** Two reserved system keys, documents that use one as their id, and a
    store with a soft-deleted vocabulary. *)
Definition demo_keys : gset string := {[ "headline" ]} ∪ {[ "body_html" ]}.

Definition custom_headline : dict :=
  [("_id", VStr "headline"); ("field_type", VStr "text"); ("items", VList [])].

Definition plain_headline : dict :=
  [("_id", VStr "headline"); ("display_name", VStr "Headline"); ("items", VList [])].

Definition reused_id : dict :=
  [("_id", VStr "old_topics"); ("items", VList [])].

Definition world_with_deleted : world :=
  World [[("_id", VStr "old_topics"); ("_deleted", VBool true)]] [].

Definition fine_doc : dict := [("_id", VStr "genre"); ("items", VList [])].

(** Items with a name and, optionally, the activity flag. *)
Definition named (is_active : option bool) (name : string) : dict :=
  match is_active with
  | Some b => [("name", VStr name); ("is_active", VBool b)]
  | None => [("name", VStr name)]
  end.

Definition paris_twice : list dict :=
  [named (Some true) "Paris"; named (Some false) "paris"; named (Some true) "PARIS"].

Definition empty_then_duplicates : list dict :=
  [named (Some true) ""; named (Some true) "a"; named (Some true) "A"].

(** The languages vocabulary with one active and one inactive item. *)
Definition languages_store : store :=
  [ [ ("_id", VStr "languages");
      ("items", VList (map VDict [ [("name", VStr "English"); ("is_active", VBool true)];
                                   [("name", VStr "Dead"); ("is_active", VBool false)] ])) ] ].

Definition three_keywords : list string := ["Paris"; "paris"; "London"].

(** A caller's heap: the item list at reference 0, a translated item and
    a plain one. *)
Definition global_item : dict :=
  [ ("name", VStr "Global");
    ("translations", VDict [("name", VDict [("fr", VStr "Monde")])]) ].

Definition plain_item : dict := [("name", VStr "Sport")].

Definition caller_heap : heap := [OList [1; 2]; ODict global_item; ODict plain_item].

(** A candidate with a link rule to the subjects vocabulary, and two
    versions of that vocabulary. *)
Definition linked_candidate : dict :=
  [ ("_id", VStr "topics");
    ("schema", VDict [ ("name", VDict []);
                       ("subject", VDict [ ("link_vocab", VStr "subjects");
                                           ("link_field", VStr "qcode") ]) ]);
    ("items", VList [ VDict [("name", VStr "a")];
                      VDict [("name", VStr "b")];
                      VDict [("name", VStr "c")] ]) ].

Definition subjects : dict :=
  [ ("_id", VStr "subjects");
    ("items", VList [VDict [("name", VStr "Sport"); ("qcode", VStr "15000000")]]) ].

Definition subjects_without_items : dict :=
  [ ("_id", VStr "subjects"); ("items", VList []) ].

(** A schema with a required name and an optional note, a candidate whose
    second item has no name, and one whose items are complete. *)
Definition name_required : list (string * dict) :=
  [("name", [("required", VBool true)]); ("note", [])].

Definition incomplete_candidate : dict :=
  [ ("_id", VStr "genre");
    ("schema", schema_value name_required);
    ("items", VList (map VDict [ [("name", VStr "a")]; [("note", VStr "x")]; [] ])) ].

Definition complete_candidate : dict :=
  [ ("_id", VStr "genre");
    ("schema", schema_value name_required);
    ("items", VList (map VDict [ [("name", VStr "a")]; [("name", VStr "b"); ("note", VNone)] ])) ].


(** Two documents with an id and one without. *)
Definition genre_doc : dict := [("_id", VStr "genre"); ("display_name", VStr "Genre")].

Definition topics_doc : dict := [("_id", VStr "topics")].

Definition anonymous_doc : dict := [("display_name", VStr "No id")].

(** An update that brings its own unique field and two items of the same
    name, for an original that declares none. *)
Definition update_with_duplicates : dict :=
  [ ("unique_field", VStr "name");
    ("items", VList [ VDict (named (Some true) "a"); VDict (named (Some true) "A") ]) ].


(** The languages vocabulary of [languages_store] and its items. *)
Definition language_items : list dict :=
  [ [("name", VStr "English"); ("is_active", VBool true)];
    [("name", VStr "Dead"); ("is_active", VBool false)] ].

Definition languages_vocabulary : dict :=
  [ ("_id", VStr "languages"); ("items", VList (map VDict language_items)) ].


(** The crop sizes as an editor may have typed them, and a cast that reads
    the one numeral in them. *)
Definition crop_sizes : dict :=
  [ ("_id", VStr "crop_sizes");
    ("items", VList (map VDict [ [ ("name", VStr "4-3"); ("width", VStr "800");
                                   ("height", VInt 600) ] ])) ].

Definition read_numeral (type : string) (v : value) : result value :=
  match v with
  | VStr "800" => Ok (VInt 800)
  | VInt n => Ok (VInt n)
  | _ => Raise TypeError
  end.

(** A listing with the languages vocabulary as its only record. *)
Definition languages_listing : dict :=
  [ ("_items", VList [VDict languages_vocabulary]) ].


(** A store with one vocabulary of related content and one of text. *)
Definition related_store : store :=
  [ [("_id", VStr "gallery"); ("field_type", VStr "related_content")];
    [("_id", VStr "subtitle"); ("field_type", VStr "text")] ].


(** Places linked to countries by code, and to the same vocabulary by name:
    [countries] holds Norway, with code NO. *)
Definition countries : dict :=
  [ ("_id", VStr "countries");
    ("items", VList [VDict [("name", VStr "Norway"); ("code", VStr "NO")]]) ].

Definition country_rule (link_field : string) : dict :=
  [ ("link_vocab", VStr "countries"); ("link_field", VStr link_field) ].

Definition places_schema : list (string * dict) :=
  [ ("name", [("required", VBool true)]); ("country", country_rule "code") ].

Definition places (items : list dict) : dict :=
  [ ("_id", VStr "places"); ("schema", schema_value places_schema);
    ("items", VList (map VDict items)) ].

Definition oslo : dict := [("name", VStr "Oslo"); ("country", VStr "NO")].
Definition malmo : dict := [("name", VStr "Malmo"); ("country", VStr "SE")].


(** The items of the stored vocabularies, and the field by which
    [places_schema] links to them. *)
Definition country_items (V : string) : list dict :=
  if String.eqb V "countries" then [[("name", VStr "Norway"); ("code", VStr "NO")]] else [].

Definition by_code (V : string) : string := "code".

(** Two rules that link to [countries], the first by code and the second by
    name. *)
Definition two_links : list (string * dict) :=
  [ ("country", country_rule "code"); ("country_name", country_rule "name") ].

Definition norway_by_name : dict :=
  [ ("_id", VStr "places"); ("schema", schema_value two_links);
    ("items", VList [VDict [("country", VStr "NO"); ("country_name", VStr "Norway")]]) ].


(** A rights vocabulary with an entry for one agency and a default entry,
    and articles of that agency and of another. *)
Definition rightsinfo : dict :=
  [ ("_id", VStr "rightsinfo");
    ("items", VList (map VDict
       [ [("name", VStr "NTB"); ("copyrightHolder", VStr "NTB");
          ("usageTerms", VStr "Subscribers only")];
         [("name", VStr "default"); ("copyrightHolder", VStr "The newsroom")] ])) ].

Definition ntb_article : article := Article (Some (VStr "NTB")) None None.
Definition other_article : article := Article None (Some (VStr "Reuters")) (Some "nb").

(* ===================================================================== *)
(** * Properties                                                          *)
(* ===================================================================== *)

(** [tauto] on the goal and its hypotheses alone. *)
Ltac prop_tauto := try clear upper; try clear lower; try clear py_repr; tauto.

Ltac unfold_monad :=
  unfold mbind, mret, M_bind, M_ret, result_bind, result_ret, bindM, rbind,
         lift, gets, modify, raise in *.

(** ** Dictionaries *)

Lemma assoc_get_dict_set k k' v (d : dict) :
  assoc_get k' (dict_set k v d) = if String.eqb k k' then Some v else assoc_get k' d.
Proof.
  induction d as [|[k0 v0] r IH]; simpl.
  - destruct (String.eqb_spec k k'); reflexivity.
  - destruct (String.eqb_spec k0 k) as [->|Hne]; simpl.
    + destruct (String.eqb_spec k k'); reflexivity.
    + rewrite IH. destruct (String.eqb_spec k0 k') as [->|Hne'].
      * destruct (String.eqb_spec k k'); [congruence | reflexivity].
      * reflexivity.
Qed.

Lemma dict_get_dict_set k v (d : dict) : dict_get k (dict_set k v d) = v.
Proof. unfold dict_get. rewrite assoc_get_dict_set, String.eqb_refl. reflexivity. Qed.

Lemma assoc_get_setdefault_ne k k' v (d : dict) :
  k <> k' -> assoc_get k' (dict_setdefault k v d) = assoc_get k' d.
Proof.
  intros Hne. unfold dict_setdefault. destruct (dict_has k d); [reflexivity|].
  rewrite assoc_get_dict_set. destruct (String.eqb_spec k k'); [contradiction | reflexivity].
Qed.

Lemma assoc_get_not_in {A} k (l : list (string * A)) :
  ~ In k (map fst l) -> assoc_get k l = None.
Proof.
  induction l as [|[k0 v0] r IH]; simpl; [reflexivity|]. intros H.
  destruct (String.eqb_spec k0 k) as [->|Hne]; [prop_tauto|]. apply IH. prop_tauto.
Qed.

Lemma assoc_get_dict_del_eq k (d : dict) :
  List.NoDup (map fst d) -> assoc_get k (dict_del k d) = None.
Proof.
  induction d as [|[k0 v0] r IH]; simpl; [reflexivity|]. intros Hnd.
  inversion Hnd as [|? ? Hnotin Hnd']; subst.
  destruct (String.eqb_spec k0 k) as [->|Hne].
  - apply assoc_get_not_in. assumption.
  - simpl. destruct (String.eqb_spec k0 k); [contradiction|]. apply IH. assumption.
Qed.

Lemma assoc_get_dict_del_ne k k' (d : dict) :
  k <> k' -> assoc_get k' (dict_del k d) = assoc_get k' d.
Proof.
  intros Hne. induction d as [|[k0 v0] r IH]; simpl; [reflexivity|].
  destruct (String.eqb_spec k0 k) as [->|Hne0].
  - destruct (String.eqb_spec k k'); [contradiction | reflexivity].
  - simpl. rewrite IH. reflexivity.
Qed.

(** ** Deletion (C8) *)

(** C8: [on_delete] raises the bad-request error exactly for the documents
    that have no [field_type] entry, and returns normally exactly for the
    documents in which the entry is present (whatever its value). *)
Theorem on_delete_iff_field_type (doc : dict) :
  (on_delete doc = Raise DefaultNotDeletable <-> dict_has "field_type" doc = false) /\
  (on_delete doc = Ok tt <-> dict_has "field_type" doc = true).
Proof.
  unfold on_delete. destruct (dict_has "field_type" doc); simpl; split; split;
    intros H; try reflexivity; discriminate H.
Qed.

Example on_delete_default :
  on_delete [("_id", VStr "categories"); ("items", VList [])] = Raise DefaultNotDeletable.
Proof. reflexivity. Qed.

Example on_delete_custom :
  on_delete [("_id", VStr "my_field"); ("field_type", VNone)] = Ok tt.
Proof. reflexivity. Qed.

(** ** _validate_items: what it does to its argument *)

Section Keeps.
Context {S B : Type} (f : S -> B).

Lemma keeps_ret {A} (a : A) : keeps f (mret a : M S A).
Proof. intros s. reflexivity. Qed.

Lemma keeps_raise {A} e : keeps f (raise e : M S A).
Proof. intros s. reflexivity. Qed.

Lemma keeps_lift {A} (r : result A) : keeps f (lift r : M S A).
Proof. intros s. reflexivity. Qed.

Lemma keeps_gets {A} (g : S -> A) : keeps f (gets g).
Proof. intros s. reflexivity. Qed.

Lemma keeps_modify (g : S -> S) : (forall s, f (g s) = f s) -> keeps f (modify g).
Proof. intros H s. apply H. Qed.

Lemma keeps_bind {A C} (m : M S A) (k : A -> M S C) :
  keeps f m -> (forall a, keeps f (k a)) -> keeps f (mbind k m).
Proof.
  intros Hm Hk s. unfold_monad. specialize (Hm s).
  destruct (m s) as [[a|e] s']; simpl in *; [|assumption].
  rewrite Hk. assumption.
Qed.

Lemma keeps_for_each {A} (xs : list A) (body : A -> M S unit) :
  (forall x, keeps f (body x)) -> keeps f (for_each xs body).
Proof.
  intros Hbody. induction xs as [|x r IH]; simpl.
  - apply keeps_ret.
  - apply keeps_bind; [apply Hbody | intros _; apply IH].
Qed.

End Keeps.

Ltac keeps_step :=
  first
    [ apply keeps_ret | apply keeps_raise | apply keeps_lift | apply keeps_gets
    | apply keeps_modify; intros; reflexivity
    | apply keeps_bind; [|intros ?]
    | apply keeps_for_each; intros ?
    | match goal with
      | |- keeps _ (if ?c then _ else _) => destruct c
      | |- keeps _ (match ?x with _ => _ end) => destruct x
      | |- keeps _ (let '(_, _) := ?x in _) => destruct x
      end ].

Lemma resolve_link_update st lv lf : keeps update (resolve_link st lv lf).
Proof. unfold resolve_link. repeat keeps_step. Qed.

Lemma cached_link_update st lv lf : keeps update (cached_link st lv lf).
Proof. unfold cached_link. repeat first [apply resolve_link_update | keeps_step]. Qed.

Lemma check_field_update st U i item f desc :
  keeps update (check_field st U i item f desc).
Proof.
  unfold check_field.
  repeat first [apply cached_link_update | keeps_step].
Qed.

Lemma check_items_update st : keeps update (check_items st).
Proof. unfold check_items. repeat first [apply check_field_update | keeps_step]. Qed.

Lemma default_qcode_run (s : vstate) :
  default_qcode s =
  (default_qcode_outcome (update s),
   VState (default_unique_field (update s)) (vocabs s) (lookups s)).
Proof.
  unfold default_qcode, default_qcode_outcome, default_unique_field. unfold_monad. simpl.
  destruct s as [doc c l]. simpl.
  destruct (assoc_get "schema" doc) as [[| | | | |schema]|]; simpl; try reflexivity.
  unfold dict_has at 1. destruct (assoc_get "qcode" schema); reflexivity.
Qed.

Lemma validate_update st doc :
  update (validate st doc).2 = default_unique_field doc.
Proof.
  unfold validate, _validate_items. unfold_monad.
  rewrite default_qcode_run. simpl.
  destruct (default_qcode_outcome doc) as [[]|e]; simpl; [|reflexivity].
  rewrite check_items_update. reflexivity.
Qed.

Lemma assoc_get_default_unique_field k (doc : dict) :
  k <> "unique_field" -> assoc_get k (default_unique_field doc) = assoc_get k doc.
Proof.
  intros Hne. unfold default_unique_field.
  destruct (assoc_get "schema" doc) as [[| | | | |schema]|]; try reflexivity.
  destruct (dict_has "qcode" schema); [|reflexivity].
  apply assoc_get_setdefault_ne. congruence.
Qed.

Lemma dict_has_default_unique_field k (doc : dict) :
  k <> "unique_field" -> dict_has k (default_unique_field doc) = dict_has k doc.
Proof. intros Hne. unfold dict_has. rewrite assoc_get_default_unique_field by assumption. reflexivity. Qed.

(** ** Validation without a schema or without items (C9) *)

(** C9: for a candidate that lacks the [schema] key or the [items] key,
    [_validate_items] makes no store lookup, runs none of the per-item
    checks, and never raises a validation error: it returns normally, or
    fails with Python's [TypeError] when [schema] is present but is not a
    mapping.  A candidate with no [schema] at all (with or without items)
    passes and is left as it was. *)
Theorem validate_without_schema_or_items (st : store) (doc : dict) :
  dict_has "schema" doc = false \/ dict_has "items" doc = false ->
  lookups (validate st doc).2 = [] /\
  vocabs (validate st doc).2 = [] /\
  (validate st doc).1 = default_qcode_outcome doc /\
  (forall e, (validate st doc).1 = Raise e -> is_api_error e = false) /\
  (dict_has "schema" doc = false -> validate st doc = (Ok tt, VState doc [] [])).
Proof.
  intros Hlack.
  assert (Hrun : validate st doc =
                 (default_qcode_outcome doc, VState (default_unique_field doc) [] [])).
  { unfold validate, _validate_items. unfold_monad. rewrite default_qcode_run. simpl.
    destruct (default_qcode_outcome doc) as [[]|e]; [|reflexivity].
    unfold check_items. unfold_monad. simpl.
    rewrite !dict_has_default_unique_field by discriminate.
    destruct Hlack as [-> | ->]; simpl; [reflexivity|].
    rewrite andb_false_r. reflexivity. }
  rewrite Hrun. simpl. repeat split.
  - intros e He. unfold default_qcode_outcome in He.
    destruct (assoc_get "schema" doc) as [[| | | | |schema]|];
      inversion He; reflexivity.
  - intros Hno. unfold default_qcode_outcome, default_unique_field.
    unfold dict_has in Hno. destruct (assoc_get "schema" doc); [discriminate|reflexivity].
Qed.

Lemma validate_without_schema_or_items_witness :
  validate [] items_without_schema = (Ok tt, VState items_without_schema [] []).
Proof.
  apply (validate_without_schema_or_items [] items_without_schema); [left|]; reflexivity.
Defined.

(** ** The hooks leave the world alone *)

Lemma validate_doc_run (doc : dict) (w : world) :
  validate_doc doc w =
  (match (validate (docs w) doc).1 with
   | Ok _ => Ok (default_unique_field doc)
   | Raise e => Raise e
   end, w).
Proof.
  unfold validate_doc. pose proof (validate_update (docs w) doc) as Hu.
  destruct (validate (docs w) doc) as [[[]|e] s]; simpl in *; [rewrite Hu|]; reflexivity.
Qed.

Lemma validate_doc_keeps (doc : dict) : keeps (fun w : world => w) (validate_doc doc).
Proof. intros w. rewrite validate_doc_run. reflexivity. Qed.

Section HookLemmas.
Variable system_keys : gset string.

Lemma on_create_doc_keeps doc : keeps (fun w : world => w) (on_create_doc system_keys doc).
Proof. unfold on_create_doc. repeat first [apply validate_doc_keeps | keeps_step]. Qed.

Lemma on_create_keeps batch : keeps (fun w : world => w) (on_create system_keys batch).
Proof.
  induction batch as [|doc rest IH]; simpl; [apply keeps_ret|].
  repeat first [apply on_create_doc_keeps | apply IH | keeps_step].
Qed.

Lemma on_create_doc_ok doc w doc' w' :
  on_create_doc system_keys doc w = (Ok doc', w') ->
  doc' = default_unique_field doc /\ w' = w.
Proof.
  intros H. pose proof (on_create_doc_keeps doc w) as Hw. rewrite H in Hw. simpl in Hw.
  split; [|assumption]. subst w'.
  unfold on_create_doc in H. unfold_monad. rewrite validate_doc_run in H.
  destruct (validate (docs w) doc).1 as [[]|e]; [|discriminate].
  repeat match type of H with
         | context [match ?x with _ => _ end] => destruct x; try discriminate
         end; inversion H; reflexivity.
Qed.

Lemma on_create_ok batch w batch' w' :
  on_create system_keys batch w = (Ok batch', w') ->
  batch' = map default_unique_field batch /\ w' = w.
Proof.
  revert batch' w'. induction batch as [|doc rest IH]; intros batch' w' H; simpl in *.
  - inversion H. split; reflexivity.
  - unfold_monad.
    destruct (on_create_doc system_keys doc w) as [[d|e] w1] eqn:Hd; [|discriminate].
    apply on_create_doc_ok in Hd as [-> ->].
    destruct (on_create system_keys rest w) as [[r|e] w2] eqn:Hr; [|discriminate].
    destruct (IH r w2 eq_refl) as [-> ->]. inversion H. split; reflexivity.
Qed.

Lemma _send_notification_docs doc ev : keeps docs (_send_notification doc ev).
Proof. unfold _send_notification. repeat keeps_step. Qed.

Lemma on_created_docs batch : keeps docs (on_created batch).
Proof. unfold on_created. repeat first [apply _send_notification_docs | keeps_step]. Qed.

(** A batch that [post] accepts is stored as validation left it, after the
    records already there. *)
Lemma post_ok batch w w' :
  post system_keys batch w = (Ok tt, w') ->
  docs w' = docs w ++ map default_unique_field batch.
Proof.
  unfold post. unfold_monad. intros H.
  destruct (on_create system_keys batch w) as [[b|e] w1] eqn:Hc; [|discriminate].
  apply on_create_ok in Hc as [-> ->]. simpl in H.
  pose proof (on_created_docs (map default_unique_field batch)
                (set_docs (insert (map default_unique_field batch)) w)) as Hk.
  rewrite H in Hk. simpl in Hk. exact Hk.
Qed.

(** Nothing of a batch is stored, and nobody is notified, when the create
    hook raises. *)
Lemma post_raise batch w e w1 :
  on_create system_keys batch w = (Raise e, w1) ->
  post system_keys batch w = (Raise e, w).
Proof.
  intros H. pose proof (on_create_keeps batch w) as Hk. rewrite H in Hk. simpl in Hk.
  subst w1. unfold post. unfold_monad. rewrite H. reflexivity.
Qed.

End HookLemmas.

(** ** on_update, unfolded *)

Lemma on_update_with_items updates original items w :
  assoc_get "items" updates = Some items ->
  on_update updates original w =
  (match (validate (docs w) (dict_update original updates)).1 with
   | Ok _ =>
       if truthy (dict_get "unique_field" original)
       then _check_uniqueness items (dict_get "unique_field" original)
       else Ok tt
   | Raise e => Raise e
   end, w).
Proof.
  intros Hi. unfold on_update, dict_has, dict_get_default. rewrite Hi. unfold_monad.
  rewrite validate_doc_run. destruct (validate _ _).1 as [[]|e]; [|reflexivity].
  destruct (truthy _); reflexivity.
Qed.

Lemma on_update_without_items updates original w :
  assoc_get "items" updates = None ->
  on_update updates original w = (Ok tt, w).
Proof.
  intros Hi. unfold on_update, dict_has, dict_get_default. rewrite Hi. unfold_monad.
  destruct (truthy _); reflexivity.
Qed.

(** ** The qcode default of the unique field (C10) *)

Lemma default_unique_field_qcode (doc schema : dict) :
  assoc_get "schema" doc = Some (VDict schema) ->
  dict_has "qcode" schema = true ->
  dict_has "unique_field" doc = false ->
  default_unique_field doc = dict_set "unique_field" (VStr "qcode") doc.
Proof.
  intros Hs Hq Hu. unfold default_unique_field, dict_setdefault. rewrite Hs, Hq, Hu.
  reflexivity.
Qed.

(** C10: when the candidate's [schema] mapping has the key [qcode] and the
    candidate has no [unique_field] key, [_validate_items] leaves the
    candidate object with [unique_field = "qcode"], whatever its outcome;
    every batch that [post] accepts is stored with that field on the record;
    and an update of the stored record that touches [items] and passes item
    validation answers with the uniqueness check on [qcode]. *)
Theorem qcode_schema_sets_unique_field (system_keys : gset string) (st : store)
    (doc schema : dict) :
  assoc_get "schema" doc = Some (VDict schema) ->
  dict_has "qcode" schema = true ->
  dict_has "unique_field" doc = false ->
  let stored := dict_set "unique_field" (VStr "qcode") doc in
  update (validate st doc).2 = stored /\
  dict_get "unique_field" stored = VStr "qcode" /\
  (forall batch w w',
      In doc batch -> post system_keys batch w = (Ok tt, w') -> In stored (docs w')) /\
  (forall updates items w,
      assoc_get "items" updates = Some items ->
      (validate (docs w) (dict_update stored updates)).1 = Ok tt ->
      on_update updates stored w = (_check_uniqueness items (VStr "qcode"), w)).
Proof.
  intros Hs Hq Hu stored.
  pose proof (default_unique_field_qcode doc schema Hs Hq Hu) as Hd.
  assert (Hg : dict_get "unique_field" stored = VStr "qcode") by apply dict_get_dict_set.
  repeat split.
  - rewrite validate_update. exact Hd.
  - exact Hg.
  - intros batch w w' Hin Hpost. rewrite (post_ok _ _ _ _ Hpost).
    apply in_or_app. right. fold stored in Hd. rewrite <- Hd. apply in_map. exact Hin.
  - intros updates items w Hi Hv. rewrite (on_update_with_items _ _ _ _ Hi), Hv, Hg.
    reflexivity.
Qed.


(** For the record: [setdefault] only fills in a missing key, so a candidate
    that carries [unique_field] explicitly, be it [None], keeps what it
    carries. *)
Example explicit_null_unique_field_is_kept :
  update (validate [] (("unique_field", VNone) :: qcode_candidate)).2
  = ("unique_field", VNone) :: qcode_candidate.
Proof. reflexivity. Qed.

(** ** What an update rechecks (C3) *)

(** C3, as the code has it: when the original document has a (truthy)
    [unique_field], an update that touches [items] and passes item
    validation answers with the uniqueness check over the update's item
    list; an update that does not touch [items] is checked over the empty
    list, so nothing of the original's items is rechecked and the hook
    returns normally. *)
Theorem on_update_rechecks_updated_items (updates original : dict) (w : world) :
  truthy (dict_get "unique_field" original) = true ->
  (forall items,
      assoc_get "items" updates = Some items ->
      (validate (docs w) (dict_update original updates)).1 = Ok tt ->
      on_update updates original w =
        (_check_uniqueness items (dict_get "unique_field" original), w)) /\
  (assoc_get "items" updates = None ->
      on_update updates original w =
        (_check_uniqueness (VList []) (dict_get "unique_field" original), w) /\
      on_update updates original w = (Ok tt, w)).
Proof.
  intros HU. split.
  - intros items Hi Hv. rewrite (on_update_with_items _ _ _ _ Hi), Hv, HU. reflexivity.
  - intros Hi. rewrite (on_update_without_items _ _ _ Hi). split; reflexivity.
Qed.


(** ** Conflicts at creation (C7) *)

Section Conflicts.
Variable system_keys : gset string.

Lemma on_create_doc_run doc w :
  on_create_doc system_keys doc w =
  (match (validate (docs w) doc).1 with
   | Ok _ => conflict_check system_keys (docs w) (default_unique_field doc)
   | Raise e => Raise e
   end, w).
Proof.
  unfold on_create_doc, conflict_check. unfold_monad. rewrite validate_doc_run.
  destruct (validate (docs w) doc).1 as [[]|e]; [|reflexivity].
  simpl. destruct (truthy _); simpl.
  - destruct (assoc_get "_id" _) as [id|]; simpl; [|reflexivity].
    destruct (in_system_keys system_keys id) as [[]|e]; simpl; try reflexivity.
    destruct (find_one _ _) as [[|? ?]|]; reflexivity.
  - destruct (assoc_get "_id" _) as [id|]; simpl; [|reflexivity].
    destruct (find_one _ _) as [[|? ?]|]; reflexivity.
Qed.

Lemma conflict_check_reserved st doc s :
  assoc_get "_id" doc = Some (VStr s) ->
  reserved_conflict system_keys doc = true ->
  conflict_check system_keys st (default_unique_field doc) = Raise (IdInUse (VStr s)).
Proof.
  unfold conflict_check, reserved_conflict, dict_get. intros Hid H.
  simpl. rewrite !assoc_get_default_unique_field by discriminate.
  rewrite Hid in *. apply andb_prop in H as [-> Hin]. simpl. rewrite Hin. reflexivity.
Qed.

Lemma conflict_check_deleted st doc s :
  assoc_get "_id" doc = Some (VStr s) ->
  reserved_conflict system_keys doc = false ->
  deleted_conflict st doc = true ->
  conflict_check system_keys st (default_unique_field doc) = Raise (IdDeleted (VStr s)).
Proof.
  unfold conflict_check, reserved_conflict, deleted_conflict, dict_get. intros Hid Hr Hd.
  simpl. rewrite !assoc_get_default_unique_field by discriminate.
  rewrite Hid in *. simpl.
  destruct (find_one _ st) as [[|? ?]|]; try discriminate.
  destruct (truthy _); simpl in *; [rewrite Hr|]; reflexivity.
Qed.

Lemma conflict_check_raises st doc :
  reserved_conflict system_keys doc || deleted_conflict st doc = true ->
  exists e, conflict_check system_keys st (default_unique_field doc) = Raise e.
Proof.
  unfold conflict_check, reserved_conflict, deleted_conflict, dict_get. intros H.
  simpl. rewrite !assoc_get_default_unique_field by discriminate.
  destruct (assoc_get "_id" doc) as [id|]; simpl in *.
  2:{ rewrite andb_false_r in H. discriminate. }
  destruct (truthy _); simpl in *.
  - destruct (in_system_keys system_keys id) as [[]|e] eqn:Hk; simpl; eauto.
    destruct id; simpl in *; try discriminate;
      try (injection Hk as Hk'; rewrite Hk' in H; simpl in H);
      destruct (find_one _ st) as [[|? ?]|]; try discriminate; eauto.
  - destruct (find_one _ st) as [[|? ?]|]; try discriminate; eauto.
Qed.

Lemma on_create_app pre pre' doc rest w :
  on_create system_keys pre w = (Ok pre', w) ->
  on_create system_keys (pre ++ doc :: rest) w =
  match on_create_doc system_keys doc w with
  | (Ok d, _) =>
      match on_create system_keys rest w with
      | (Ok r, _) => (Ok (pre' ++ d :: r), w)
      | (Raise e, _) => (Raise e, w)
      end
  | (Raise e, _) => (Raise e, w)
  end.
Proof.
  revert pre'. induction pre as [|p pre IH]; intros pre' H; simpl in *.
  - inversion H; subst. unfold_monad.
    pose proof (on_create_doc_keeps system_keys doc w) as Hk.
    destruct (on_create_doc system_keys doc w) as [[d|e] w1]; simpl in Hk; subst; [|reflexivity].
    pose proof (on_create_keeps system_keys rest w) as Hk.
    destruct (on_create system_keys rest w) as [[r|e] w1]; simpl in Hk; subst; reflexivity.
  - unfold_monad.
    pose proof (on_create_doc_keeps system_keys p w) as Hk.
    destruct (on_create_doc system_keys p w) as [[d|e] w1]; simpl in Hk; subst; [|discriminate].
    destruct (on_create system_keys pre w) as [[r|e] w1] eqn:Hpre; [|discriminate].
    pose proof (on_create_keeps system_keys pre w) as Hk. rewrite Hpre in Hk. simpl in Hk. subst.
    rewrite (IH r eq_refl). inversion H; subst.
    destruct (on_create_doc system_keys doc w) as [[d'|e] w1]; [|reflexivity].
    destruct (on_create system_keys rest w) as [[r'|e] w2]; reflexivity.
Qed.

Lemma on_create_rejects batch w doc :
  In doc batch ->
  reserved_conflict system_keys doc || deleted_conflict (docs w) doc = true ->
  exists e, on_create system_keys batch w = (Raise e, w).
Proof.
  intros Hin Hc. induction batch as [|d rest IH]; [contradiction|].
  simpl. unfold_monad.
  pose proof (on_create_doc_keeps system_keys d w) as Hk.
  destruct (on_create_doc system_keys d w) as [[d'|e] w1] eqn:Hd; simpl in Hk; subst w1;
    [|eauto].
  destruct Hin as [->|Hin].
  - rewrite on_create_doc_run in Hd.
    destruct (validate (docs w) doc).1 as [[]|e]; [|discriminate].
    destruct (conflict_check_raises (docs w) doc Hc) as [e He]. rewrite He in Hd.
    discriminate.
  - destruct (IH Hin) as [e He]. rewrite He. eauto.
Qed.

End Conflicts.

(** C7, as the code has it: [on_create] rejects a batch as soon as one of
    its documents has a truthy [field_type] together with an id among the
    reserved system keys, or has the id of a soft-deleted vocabulary; when
    the documents before it are accepted and the document itself passes item
    validation, the error is the matching conflict ("in use" for the
    reserved key, which is looked at first, then "used by deleted
    vocabulary"); and when the hook raises, [post] stores nothing and
    notifies nobody. *)
Theorem on_create_rejects_conflicts (system_keys : gset string) (w : world) :
  (forall batch doc,
      In doc batch ->
      reserved_conflict system_keys doc || deleted_conflict (docs w) doc = true ->
      exists e, on_create system_keys batch w = (Raise e, w) /\
                post system_keys batch w = (Raise e, w)) /\
  (forall pre pre' doc rest s,
      on_create system_keys pre w = (Ok pre', w) ->
      (validate (docs w) doc).1 = Ok tt ->
      assoc_get "_id" doc = Some (VStr s) ->
      (reserved_conflict system_keys doc = true ->
       on_create system_keys (pre ++ doc :: rest) w = (Raise (IdInUse (VStr s)), w)) /\
      (reserved_conflict system_keys doc = false ->
       deleted_conflict (docs w) doc = true ->
       on_create system_keys (pre ++ doc :: rest) w = (Raise (IdDeleted (VStr s)), w))) /\
  (forall batch e w1,
      on_create system_keys batch w = (Raise e, w1) ->
      post system_keys batch w = (Raise e, w)).
Proof.
  split; [|split].
  - intros batch doc Hin Hc.
    destruct (on_create_rejects system_keys batch w doc Hin Hc) as [e He].
    exists e. split; [exact He | exact (post_raise _ _ _ _ _ He)].
  - intros pre pre' doc rest s Hpre Hv Hid. split.
    + intros Hr. rewrite (on_create_app _ _ _ _ _ _ Hpre), on_create_doc_run, Hv.
      rewrite (conflict_check_reserved _ _ _ _ Hid Hr). reflexivity.
    + intros Hr Hd. rewrite (on_create_app _ _ _ _ _ _ Hpre), on_create_doc_run, Hv.
      rewrite (conflict_check_deleted _ _ _ _ Hid Hr Hd). reflexivity.
  - intros batch e w1 H. exact (post_raise _ _ _ _ _ H).
Qed.

Lemma on_create_rejects_conflicts_witness :
  on_create demo_keys [fine_doc; custom_headline; reused_id] world_with_deleted =
    (Raise (IdInUse (VStr "headline")), world_with_deleted) /\
  on_create demo_keys [fine_doc; reused_id] world_with_deleted =
    (Raise (IdDeleted (VStr "old_topics")), world_with_deleted) /\
  post demo_keys [fine_doc; reused_id] world_with_deleted =
    (Raise (IdDeleted (VStr "old_topics")), world_with_deleted).
Proof.
  destruct (on_create_rejects_conflicts demo_keys world_with_deleted) as (_ & H2 & H3).
  assert (Hpre : on_create demo_keys [fine_doc] world_with_deleted =
                 (Ok [fine_doc], world_with_deleted)) by (vm_compute; reflexivity).
  destruct (H2 [fine_doc] [fine_doc] custom_headline [reused_id] "headline"
              Hpre eq_refl eq_refl) as [Ha _].
  destruct (H2 [fine_doc] [fine_doc] reused_id [] "old_topics"
              Hpre eq_refl eq_refl) as [_ Hb].
  assert (Hres : reserved_conflict demo_keys custom_headline = true)
    by (vm_compute; reflexivity).
  assert (Hnot : reserved_conflict demo_keys reused_id = false)
    by (vm_compute; reflexivity).
  assert (Hdel : deleted_conflict (docs world_with_deleted) reused_id = true)
    by (vm_compute; reflexivity).
  split; [exact (Ha Hres)|]. split; [exact (Hb Hnot Hdel)|].
  exact (H3 _ _ _ (Hb Hnot Hdel)).
Defined.

(** The claim as the spec words it fails here: the id is a reserved system
    key, the document has no [field_type], and the batch is accepted and
    stored. *)
Lemma on_create_accepts_reserved_id_without_field_type :
  "headline" ∈ demo_keys /\
  on_create demo_keys [plain_headline] (World [] []) = (Ok [plain_headline], World [] []) /\
  docs (post demo_keys [plain_headline] (World [] [])).2 = [plain_headline].
Proof.
  split; [set_solver|]. split; vm_compute; reflexivity.
Qed.

(** ** The uniqueness check (C2) *)

Section Uniqueness.
Variable U : string.

Lemma active_keys_app l1 l2 : active_keys U (l1 ++ l2) = active_keys U l1 ++ active_keys U l2.
Proof. unfold active_keys. rewrite List.filter_app, map_app. reflexivity. Qed.

Lemma active_keys_cons d l :
  active_keys U (d :: l) = if active d then unique_key U d :: active_keys U l else active_keys U l.
Proof. unfold active_keys. simpl. destruct (active d); reflexivity. Qed.

Lemma elem_of_active_keys k items :
  k ∈ active_keys U items ->
  exists l2 d l3, items = l2 ++ d :: l3 /\ active d = true /\ unique_key U d = k.
Proof.
  induction items as [|d r IH]; rewrite ?active_keys_cons.
  - intros H. inversion H.
  - destruct (active d) eqn:Hd.
    + intros H. apply elem_of_cons in H as [->|H].
      * exists [], d, r. auto.
      * destruct (IH H) as (l2 & d' & l3 & -> & Ha & Hk). exists (d :: l2), d', l3. auto.
    + intros H. destruct (IH H) as (l2 & d' & l3 & -> & Ha & Hk).
      exists (d :: l2), d', l3. auto.
Qed.

Lemma has_duplicate_cons d items : has_duplicate U items -> has_duplicate U (d :: items).
Proof.
  intros (l1 & d1 & l2 & d2 & l3 & -> & H). exists (d :: l1), d1, l2, d2, l3. auto.
Qed.

Lemma has_duplicate_iff_keys items : has_duplicate U items <-> ~ NoDup (active_keys U items).
Proof.
  split.
  - intros (l1 & d1 & l2 & d2 & l3 & -> & H1 & H2 & Hk) Hnd.
    rewrite active_keys_app, active_keys_cons, H1 in Hnd.
    apply NoDup_app in Hnd as (_ & _ & Hnd). apply NoDup_cons in Hnd as [Hnotin _].
    apply Hnotin. rewrite active_keys_app, active_keys_cons, H2, Hk.
    apply elem_of_app. right. apply elem_of_cons. left. reflexivity.
  - induction items as [|d r IH]; intros Hnd.
    + exfalso. apply Hnd. constructor.
    + rewrite active_keys_cons in Hnd. destruct (active d) eqn:Hd.
      * destruct (decide (unique_key U d ∈ active_keys U r)) as [Hin|Hnotin].
        -- destruct (elem_of_active_keys _ _ Hin) as (l2 & d' & l3 & -> & Ha & Hk).
           exists [], d, l2, d', l3. auto.
        -- apply has_duplicate_cons, IH. intros Hr. apply Hnd. apply NoDup_cons. auto.
      * apply has_duplicate_cons, IH. exact Hnd.
Qed.

(** One turn of the loop on an item that carries [is_active]. *)
Lemma check_unique_loop_step (d : dict) (rest : list value) seen :
  dict_has "is_active" d = true ->
  check_unique_loop (VStr U) (VDict d :: rest) seen =
  if active d then
    if truthy (dict_get U d) then
      if bool_decide (unique_key U d ∈ seen)
      then Raise (NotUnique (dict_get U d) (VStr U))
      else check_unique_loop (VStr U) rest (seen ++ [unique_key U d])
    else Raise (EmptyUnique (VStr U))
  else check_unique_loop (VStr U) rest seen.
Proof.
  intros Hd. cbn [check_unique_loop]. unfold_monad. cbn [py_get py_get_key].
  assert (Hact : truthy (dict_get "is_active" d) = active d).
  { unfold active, dict_get, dict_get_default, dict_has in *.
    destruct (assoc_get "is_active" d); [reflexivity|discriminate]. }
  rewrite Hact. destruct (active d); cbn [negb]; [|reflexivity].
  destruct (truthy (dict_get U d)); reflexivity.
Qed.

(** The loop accepts exactly the lists whose active items all have a value,
    with keys that are new and pairwise distinct. *)
Lemma check_unique_loop_ok (items : list dict) :
  Forall (fun d => dict_has "is_active" d = true) items ->
  forall seen,
    check_unique_loop (VStr U) (map VDict items) seen = Ok tt <->
    all_supplied U items /\ NoDup (active_keys U items) /\
    (forall k, k ∈ active_keys U items -> k ∉ seen).
Proof.
  unfold all_supplied.
  induction 1 as [|d r Hd _ IH]; intros seen.
  - split; [|reflexivity]. intros _. split; [constructor|]. split; [constructor|].
    intros k Hk. inversion Hk.
  - cbn [map]. rewrite (check_unique_loop_step d _ seen Hd), active_keys_cons.
    destruct (active d) eqn:Ha.
    + destruct (truthy (dict_get U d)) eqn:Hv.
      * destruct (bool_decide_reflect (unique_key U d ∈ seen)) as [Hin|Hout].
        -- split; [discriminate|]. intros (_ & _ & Hf). exfalso.
           apply (Hf (unique_key U d)); [|exact Hin]. apply elem_of_cons. left. reflexivity.
        -- rewrite IH. split.
           ++ intros (Hs & Hnd & Hf). split; [constructor; [intros _; exact Hv | exact Hs]|].
              split.
              ** apply NoDup_cons. split; [|exact Hnd]. intros Hk. apply (Hf _ Hk).
                 apply elem_of_app. right. apply elem_of_cons. left. reflexivity.
              ** intros k Hk Hseen. apply elem_of_cons in Hk as [->|Hk]; [contradiction|].
                 apply (Hf _ Hk). apply elem_of_app. left. exact Hseen.
           ++ intros (Hs & Hnd & Hf). apply NoDup_cons in Hnd as [Hnotin Hnd].
              split; [inversion Hs; assumption|]. split; [exact Hnd|].
              intros k Hk Hseen. apply elem_of_app in Hseen as [Hseen|Hseen].
              ** apply (Hf k); [|exact Hseen]. apply elem_of_cons. right. exact Hk.
              ** apply elem_of_cons in Hseen as [->|Hseen]; [contradiction|]. inversion Hseen.
      * split; [discriminate|]. intros (Hs & _). inversion Hs as [|? ? Hd' _]; subst.
        rewrite (Hd' Ha) in Hv. discriminate.
    + rewrite IH. split.
      * intros (Hs & Hrest). split; [|exact Hrest].
        constructor; [intros Ha'; congruence | exact Hs].
      * intros (Hs & Hrest). split; [inversion Hs; assumption | exact Hrest].
Qed.

(** The loop over a list in two parts: the second part is reached when the
    first passes, with the keys of the first part's active items known. *)
Lemma check_unique_loop_app (l r : list dict) :
  Forall (fun d => dict_has "is_active" d = true) l ->
  forall seen,
    check_unique_loop (VStr U) (map VDict (l ++ r)) seen =
    match check_unique_loop (VStr U) (map VDict l) seen with
    | Ok _ => check_unique_loop (VStr U) (map VDict r) (seen ++ active_keys U l)
    | Raise e => Raise e
    end.
Proof.
  induction 1 as [|d l Hd _ IH]; intros seen.
  - cbn [app map check_unique_loop]. unfold active_keys. cbn [List.filter map].
    rewrite app_nil_r. reflexivity.
  - cbn [app map]. rewrite !(check_unique_loop_step d _ seen Hd), active_keys_cons.
    destruct (active d); [|apply IH].
    destruct (truthy (dict_get U d)); [|reflexivity].
    destruct (bool_decide (unique_key U d ∈ seen)); [reflexivity|].
    rewrite IH, <- app_assoc. reflexivity.
Qed.

(** When the loop raises, it raises at the first active item that has no
    value or repeats the key of an active item before it. *)
Lemma check_unique_loop_raise (items : list dict) :
  Forall (fun d => dict_has "is_active" d = true) items ->
  forall seen e,
    check_unique_loop (VStr U) (map VDict items) seen = Raise e <->
    exists n d,
      items !! n = Some d /\
      check_unique_loop (VStr U) (map VDict (take n items)) seen = Ok tt /\
      active d = true /\
      ((truthy (dict_get U d) = false /\ e = EmptyUnique (VStr U)) \/
       (truthy (dict_get U d) = true /\
        unique_key U d ∈ seen ++ active_keys U (take n items) /\
        e = NotUnique (dict_get U d) (VStr U))).
Proof.
  intros Hflags seen e. split.
  - revert seen. induction Hflags as [|d r Hd _ IH]; intros seen; [discriminate|].
    cbn [map]. rewrite (check_unique_loop_step d _ seen Hd).
    destruct (active d) eqn:Ha.
    + destruct (truthy (dict_get U d)) eqn:Hv.
      * destruct (bool_decide_reflect (unique_key U d ∈ seen)) as [Hin|Hout].
        -- intros H. injection H as <-. exists 0, d. split; [reflexivity|].
           split; [reflexivity|]. split; [exact Ha|]. right. split; [exact Hv|].
           split; [|reflexivity]. apply elem_of_app. left. exact Hin.
        -- intros H. destruct (IH _ H) as (n & d' & Hl & Hok & Ha' & Hcase).
           exists (S n), d'. split; [exact Hl|]. cbn [take map].
           rewrite (check_unique_loop_step d _ seen Hd), Ha, Hv.
           rewrite (bool_decide_eq_false_2 _ Hout). split; [exact Hok|]. split; [exact Ha'|].
           rewrite active_keys_cons, Ha.
           rewrite <- app_assoc in Hcase. exact Hcase.
      * intros H. injection H as <-. exists 0, d. split; [reflexivity|].
        split; [reflexivity|]. split; [exact Ha|]. left. auto.
    + intros H. destruct (IH _ H) as (n & d' & Hl & Hok & Ha' & Hcase).
      exists (S n), d'. split; [exact Hl|]. cbn [take map].
      rewrite (check_unique_loop_step d _ seen Hd), Ha. split; [exact Hok|].
      split; [exact Ha'|]. rewrite active_keys_cons, Ha. exact Hcase.
  - intros (n & d & Hl & Hok & Ha & Hcase).
    rewrite <- (take_drop_middle items n d Hl).
    rewrite check_unique_loop_app by (apply Forall_take; exact Hflags).
    rewrite Hok. cbn [map].
    rewrite check_unique_loop_step by (exact (Forall_lookup_1 _ _ _ _ Hflags Hl)).
    rewrite Ha. destruct Hcase as [[Hv ->] | (Hv & Hin & ->)]; rewrite Hv; [reflexivity|].
    rewrite (bool_decide_eq_true_2 _ Hin). reflexivity.
Qed.

Lemma no_duplicate_iff_keys (items : list dict) :
  ~ has_duplicate U items <-> NoDup (active_keys U items).
Proof.
  rewrite has_duplicate_iff_keys. split.
  - intros H. destruct (decide (NoDup (active_keys U items))); [assumption | contradiction].
  - intros H Hn. contradiction.
Qed.

Lemma check_uniqueness_ok (items : list dict) :
  Forall (fun d => dict_has "is_active" d = true) items ->
  _check_uniqueness (VList (map VDict items)) (VStr U) = Ok tt <->
  all_supplied U items /\ ~ has_duplicate U items.
Proof.
  intros Hflags. unfold _check_uniqueness. unfold_monad. cbn [py_iter].
  rewrite (check_unique_loop_ok items Hflags []), no_duplicate_iff_keys. split.
  - intros (H1 & H2 & _). auto.
  - intros (H1 & H2). split; [exact H1|]. split; [exact H2|]. intros k _ Hk. inversion Hk.
Qed.

Lemma check_uniqueness_raise (items : list dict) e :
  Forall (fun d => dict_has "is_active" d = true) items ->
  _check_uniqueness (VList (map VDict items)) (VStr U) = Raise e <->
  exists n d,
    items !! n = Some d /\ active d = true /\
    all_supplied U (take n items) /\ ~ has_duplicate U (take n items) /\
    ((truthy (dict_get U d) = false /\ e = EmptyUnique (VStr U)) \/
     (truthy (dict_get U d) = true /\ unique_key U d ∈ active_keys U (take n items) /\
      e = NotUnique (dict_get U d) (VStr U))).
Proof.
  intros Hflags.
  assert (Hok : forall n,
             check_unique_loop (VStr U) (map VDict (take n items)) [] = Ok tt <->
             all_supplied U (take n items) /\ ~ has_duplicate U (take n items)).
  { intros n. pose proof (check_uniqueness_ok (take n items) (Forall_take _ _ _ Hflags)) as H.
    unfold _check_uniqueness in H. unfold_monad. cbn [py_iter] in H. exact H. }
  unfold _check_uniqueness. unfold_monad. cbn [py_iter].
  rewrite (check_unique_loop_raise items Hflags [] e). split.
  - intros (n & d & Hl & Hloop & Ha & Hcase). apply Hok in Hloop as [Hs Hnd].
    exists n, d. cbn [app] in Hcase. auto 10.
  - intros (n & d & Hl & Ha & Hs & Hnd & Hcase).
    exists n, d. cbn [app]. split; [exact Hl|]. split; [apply Hok; auto|]. auto.
Qed.

(** A duplicate among items that all have a value is reported as such. *)
Lemma check_uniqueness_of_duplicates (items : list dict) :
  Forall (fun d => dict_has "is_active" d = true) items ->
  all_supplied U items ->
  has_duplicate U items ->
  exists v, _check_uniqueness (VList (map VDict items)) (VStr U) = Raise (NotUnique v (VStr U)).
Proof.
  intros Hflags Hs Hdup.
  destruct (_check_uniqueness (VList (map VDict items)) (VStr U)) as [[]|e] eqn:E.
  - apply check_uniqueness_ok in E as [_ Hn]; [contradiction | exact Hflags].
  - apply check_uniqueness_raise in E as (n & d & Hl & Ha & _ & _ & Hcase); [|exact Hflags].
    destruct Hcase as [[Hv _] | (_ & _ & ->)]; [|eauto].
    pose proof (Forall_lookup_1 _ _ _ _ Hs Hl Ha) as Hv'. congruence.
Qed.

End Uniqueness.

(** C2, as the code has it, for item lists in which every item carries an
    [is_active] entry.  The uniqueness check returns normally exactly when
    every active item has a non-empty value of [U] and no two active items
    have the same upper-cased stringified value.  It raises the
    duplicate-value error, for the value [v], exactly when some active item
    with the non-empty value [v] repeats the key of an active item before it
    and nothing before it is amiss; it raises the empty-value error exactly
    when some active item has an empty value and nothing before it is amiss,
    whatever follows.  So when every active item has a non-empty value, the
    duplicate-value error is raised exactly when two active items have the
    same upper-cased stringified value. *)
Theorem check_uniqueness_duplicate_iff (U : string) (items : list dict) :
  Forall (fun d => dict_has "is_active" d = true) items ->
  (_check_uniqueness (VList (map VDict items)) (VStr U) = Ok tt <->
   all_supplied U items /\ ~ has_duplicate U items) /\
  (forall v,
      _check_uniqueness (VList (map VDict items)) (VStr U) = Raise (NotUnique v (VStr U)) <->
      exists n d,
        items !! n = Some d /\ active d = true /\
        truthy (dict_get U d) = true /\ v = dict_get U d /\
        unique_key U d ∈ active_keys U (take n items) /\
        all_supplied U (take n items) /\ ~ has_duplicate U (take n items)) /\
  (_check_uniqueness (VList (map VDict items)) (VStr U) = Raise (EmptyUnique (VStr U)) <->
   exists n d,
     items !! n = Some d /\ active d = true /\
     truthy (dict_get U d) = false /\
     all_supplied U (take n items) /\ ~ has_duplicate U (take n items)) /\
  (all_supplied U items ->
   ((exists v, _check_uniqueness (VList (map VDict items)) (VStr U)
               = Raise (NotUnique v (VStr U)))
    <-> has_duplicate U items)).
Proof.
  intros Hflags. split; [apply check_uniqueness_ok; exact Hflags|]. split; [|split].
  - intros v. rewrite (check_uniqueness_raise U items _ Hflags). split.
    + intros (n & d & Hl & Ha & Hs & Hnd & [[_ He] | (Hv & Hin & He)]); [discriminate He|].
      injection He as ->. exists n, d. auto 10.
    + intros (n & d & Hl & Ha & Hv & -> & Hin & Hs & Hnd). exists n, d. auto 10.
  - rewrite (check_uniqueness_raise U items _ Hflags). split.
    + intros (n & d & Hl & Ha & Hs & Hnd & [[Hv _] | (_ & _ & He)]); [|discriminate He].
      exists n, d. auto.
    + intros (n & d & Hl & Ha & Hv & Hs & Hnd). exists n, d. auto 10.
  - intros Hs. split.
    + intros [v Hv]. apply (check_uniqueness_raise U items _ Hflags) in Hv
        as (n & d & Hl & Ha & _ & _ & [[_ He] | (_ & Hin & _)]); [discriminate He|].
      apply elem_of_active_keys in Hin as (l2 & d' & l3 & Ht & Ha' & Hk).
      exists l2, d', l3, d, (drop (S n) items). split; [|auto].
      rewrite <- (take_drop_middle items n d Hl) at 1. rewrite Ht, <- app_assoc. reflexivity.
    + apply check_uniqueness_of_duplicates; assumption.
Qed.


(** ** Items by activity (C6) *)

Lemma find_filter_head {A} (p : A -> bool) (l : list A) :
  List.find p l = match List.filter p l with [] => None | x :: _ => Some x end.
Proof.
  induction l as [|x r IH]; simpl; [reflexivity|]. destruct (p x); [reflexivity|exact IH].
Qed.

Section GetItems.
Variable regex_search_i : string -> string -> bool.
Variable _id : string.

Lemma filter_result_dicts b (items : list dict) :
  filter_result (is_active_is b) (map VDict items)
  = Ok (map VDict (List.filter (flag_is b) items)).
Proof.
  induction items as [|d r IH]; simpl; [reflexivity|]. unfold_monad. simpl.
  rewrite IH. unfold flag_is. destruct (py_eq _ _); reflexivity.
Qed.

Lemma traverse_format_dicts (items : list dict) :
  traverse (format_item _id) (map VDict items) = Ok (map VDict (map (formatted _id) items)).
Proof.
  induction items as [|d r IH]; simpl; [reflexivity|]. unfold_monad. simpl. rewrite IH.
  reflexivity.
Qed.

Lemma get_items_not_found is_active st :
  find_one [("_id", VStr _id)] st = None ->
  get_items regex_search_i _id None is_active None None st = Ok [].
Proof.
  unfold find_one, get_items, get_from_mongo. simpl. rewrite find_filter_head.
  destruct (List.filter _ st); [reflexivity|discriminate].
Qed.

Lemma get_items_found is_active st doc :
  find_one [("_id", VStr _id)] st = Some doc ->
  get_items regex_search_i _id None is_active None None st =
  match assoc_get "items" doc with
  | None => Ok []
  | Some items =>
      items ← match is_active with
              | Some b => xs ← py_iter items; filter_result (is_active_is b) xs
              | None => py_iter items
              end;
      traverse (format_item _id) items
  end.
Proof.
  unfold find_one, get_items, get_from_mongo. simpl. rewrite find_filter_head.
  destruct (List.filter _ st) as [|d r]; [discriminate|]. intros H. inversion H. subst.
  reflexivity.
Qed.

Lemma formatted_spec (d : dict) :
  dict_get "scheme" (formatted _id d) = VStr _id /\
  (List.NoDup (map fst d) -> dict_has "is_active" (formatted _id d) = false) /\
  (forall k, k <> "is_active" -> k <> "scheme" ->
             assoc_get k (formatted _id d) = assoc_get k d).
Proof.
  unfold formatted. split; [apply dict_get_dict_set|]. split.
  - intros Hnd. unfold dict_has. rewrite assoc_get_dict_set. simpl.
    rewrite assoc_get_dict_del_eq by assumption. reflexivity.
  - intros k H1 H2. rewrite assoc_get_dict_set.
    destruct (String.eqb_spec "scheme" k); [congruence|].
    apply assoc_get_dict_del_ne. congruence.
Qed.

End GetItems.

(** C6: [get_items(_id, is_active=b)], with no [qcode] and no [name], is
    the empty list when no vocabulary has that id, when the vocabulary has
    no [items] entry, and when its item list is empty.  Otherwise the result
    has one item for each stored item whose [is_active] (an absent key
    reading as [True]) equals [b], in the stored order; each has no
    [is_active] key, has [scheme] equal to the vocabulary id, and agrees with
    the stored item on every other key. *)
Theorem get_items_by_activity (regex_search_i : string -> string -> bool)
    (_id : string) (b : bool) (st : store) :
  (find_one [("_id", VStr _id)] st = None ->
   get_items regex_search_i _id None (Some b) None None st = Ok []) /\
  (forall doc,
      find_one [("_id", VStr _id)] st = Some doc ->
      assoc_get "items" doc = None \/ assoc_get "items" doc = Some (VList []) ->
      get_items regex_search_i _id None (Some b) None None st = Ok []) /\
  (forall doc items,
      find_one [("_id", VStr _id)] st = Some doc ->
      assoc_get "items" doc = Some (VList (map VDict items)) ->
      Forall (fun d => List.NoDup (map fst d)) items ->
      exists out,
        get_items regex_search_i _id None (Some b) None None st = Ok (map VDict out) /\
        Forall2 (fun o d =>
                   dict_has "is_active" o = false /\
                   dict_get "scheme" o = VStr _id /\
                   forall k, k <> "is_active" -> k <> "scheme" ->
                             assoc_get k o = assoc_get k d)
                out (List.filter (flag_is b) items)).
Proof.
  split; [|split].
  - apply get_items_not_found.
  - intros doc Hf [Hi|Hi]; rewrite (get_items_found _ _ _ _ _ Hf), Hi; reflexivity.
  - intros doc items Hf Hi Hnd. rewrite (get_items_found _ _ _ _ _ Hf), Hi.
    exists (map (formatted _id) (List.filter (flag_is b) items)). split.
    + unfold_monad. simpl. rewrite filter_result_dicts. apply traverse_format_dicts.
    + assert (Hnd' : Forall (fun d => List.NoDup (map fst d)) (List.filter (flag_is b) items)).
      { apply Forall_forall. intros d Hd. apply list_elem_of_In, List.filter_In in Hd as [Hd _].
        rewrite Forall_forall in Hnd. apply Hnd, list_elem_of_In. exact Hd. }
      induction Hnd' as [|d r Hd _ IH]; simpl; constructor; [|exact IH].
      destruct (formatted_spec _id d) as (H1 & H2 & H3). auto.
Qed.

Lemma get_items_by_activity_witness :
  get_items (fun _ _ => false) "languages" None (Some true) None None languages_store
    = Ok [VDict [("name", VStr "English"); ("scheme", VStr "languages")]] /\
  get_items (fun _ _ => false) "missing" None (Some true) None None languages_store = Ok [].
Proof.
  destruct (get_items_by_activity (fun _ _ => false) "languages" true languages_store)
    as (_ & _ & H3).
  destruct (get_items_by_activity (fun _ _ => false) "missing" true languages_store)
    as (H1 & _ & _).
  split; [|exact (H1 eq_refl)].
  destruct (H3 _ _ eq_refl eq_refl) as (out & Hout & _).
  - repeat constructor; simpl; intros H; repeat (destruct H as [H|H]; try discriminate H); auto.
  - reflexivity.
Defined.

(** ** Merging keywords (C1) *)

Lemma for_each_skip {S A} (xs : list A) (body : A -> M S unit) :
  (forall x, In x xs -> forall s, body x s = (Ok tt, s)) ->
  forall s, for_each xs body s = (Ok tt, s).
Proof.
  induction xs as [|x r IH]; intros H s; simpl; [reflexivity|].
  unfold_monad. rewrite (H x (or_introl eq_refl)). apply IH.
  intros y Hy. apply H. right. exact Hy.
Qed.

Lemma matches_app l1 l2 doc : matches (l1 ++ l2) doc = matches l1 doc && matches l2 doc.
Proof. unfold matches. apply forallb_app. Qed.

Lemma find_one_more lookup extra st :
  find_one lookup st = None -> find_one (lookup ++ extra) st = None.
Proof.
  unfold find_one. induction st as [|doc r IH]; simpl; [reflexivity|].
  rewrite matches_app. destruct (matches lookup doc); [discriminate|]. exact IH.
Qed.

Lemma find_one_insert_new lookup st doc :
  find_one lookup st = None -> matches lookup doc = true ->
  find_one lookup (insert [doc] st) = Some doc.
Proof.
  unfold find_one, insert. intros Hn Hm. induction st as [|d r IH]; simpl in *.
  - rewrite Hm. reflexivity.
  - destruct (matches lookup d); [discriminate|]. apply IH. exact Hn.
Qed.

Lemma traverse_names (keywords : list string) :
  traverse item_name_lower (map keyword_item keywords) = Ok (map lower keywords).
Proof.
  induction keywords as [|k r IH]; simpl; [reflexivity|]. unfold_monad. simpl.
  rewrite IH. reflexivity.
Qed.

Lemma traverse_app {A B} (f : A -> result B) xs ys xs' ys' :
  traverse f xs = Ok xs' -> traverse f ys = Ok ys' ->
  traverse f (xs ++ ys) = Ok (xs' ++ ys').
Proof.
  revert xs'. induction xs as [|x r IH]; intros xs' Hx Hy; simpl in *.
  - inversion Hx. exact Hy.
  - unfold_monad. destruct (f x) as [y|e]; [|discriminate].
    destruct (traverse f r) as [ys0|e] eqn:Hr; [|discriminate].
    inversion Hx. rewrite (IH ys0 eq_refl Hy). reflexivity.
Qed.

Lemma missing_keywords_none names keywords :
  (forall k, In k keywords -> In (lower k) names) ->
  missing_keywords names keywords = [].
Proof.
  unfold missing_keywords. induction keywords as [|k r IH]; intros H; simpl; [reflexivity|].
  rewrite bool_decide_eq_true_2.
  - simpl. apply IH. intros k' Hk'. apply H. right. exact Hk'.
  - apply elem_of_list_to_set, list_elem_of_In, H. left. reflexivity.
Qed.

Lemma missing_keywords_spec names keywords k :
  In k (missing_keywords names keywords) <-> In k keywords /\ ~ In (lower k) names.
Proof.
  unfold missing_keywords. rewrite List.filter_In, negb_true_iff, bool_decide_eq_false.
  rewrite elem_of_list_to_set, list_elem_of_In. reflexivity.
Qed.

Lemma check_field_keyword st index keyword field s :
  keyword <> "" -> field = "name" \/ field = "qcode" ->
  check_field st (VStr "name") index (keyword_item keyword) field (VDict []) s = (Ok tt, s).
Proof.
  intros Hk [-> | ->]; unfold check_field; unfold_monad; simpl;
    try (apply String.eqb_neq in Hk; rewrite Hk); reflexivity.
Qed.

Lemma validate_keywords_cv st (keywords : list string) :
  Forall (fun k => k <> "") keywords ->
  validate st (keywords_cv keywords) = (Ok tt, VState (keywords_cv keywords) [] []).
Proof.
  intros Hne. unfold validate, _validate_items. unfold_monad. rewrite default_qcode_run.
  change (default_unique_field (update (VState (keywords_cv keywords) [] [])))
    with (keywords_cv keywords).
  simpl. unfold check_items. unfold_monad. simpl.
  apply for_each_skip. intros [index item] Hin s.
  apply in_combine_r, in_map_iff in Hin as (k & <- & Hk).
  rewrite Forall_forall in Hne. specialize (Hne k (proj2 (list_elem_of_In _ _) Hk)).
  simpl. unfold_monad.
  change (dict_get "unique_field" (keywords_cv keywords)) with (VStr "name").
  rewrite (check_field_keyword st index k "name" s Hne (or_introl eq_refl)).
  rewrite (check_field_keyword st index k "qcode" s Hne (or_intror eq_refl)).
  reflexivity.
Qed.

Section Keywords.
Variable system_keys : gset string.

Lemma post_keywords_cv keywords w :
  Forall (fun k => k <> "") keywords ->
  find_one [("_id", VStr KEYWORDS_CV)] (docs w) = None ->
  post system_keys [keywords_cv keywords] w =
  (Ok tt, World (docs w ++ [keywords_cv keywords]) (events w ++ [keywords_created])).
Proof.
  intros Hne Hnone. unfold post. simpl. unfold_monad.
  rewrite on_create_doc_run, validate_keywords_cv by assumption. simpl.
  unfold conflict_check. simpl.
  pose proof (find_one_more _ [("_deleted", VBool true)] _ Hnone) as Hdel. simpl in Hdel.
  rewrite Hdel. reflexivity.
Qed.

Lemma add_missing_keywords_absent keywords w :
  keywords <> [] ->
  find_one [("_id", VStr KEYWORDS_CV)] (docs w) = None ->
  add_missing_keywords system_keys keywords w = post system_keys [keywords_cv keywords] w.
Proof.
  intros Hk Hnone. unfold add_missing_keywords. destruct keywords as [|k r]; [congruence|].
  unfold_monad. rewrite Hnone. reflexivity.
Qed.

Lemma add_missing_keywords_all_present keywords w cv xs names :
  find_one [("_id", VStr KEYWORDS_CV)] (docs w) = Some cv ->
  assoc_get "items" cv = Some (VList xs) ->
  traverse item_name_lower xs = Ok names ->
  missing_keywords names keywords = [] ->
  add_missing_keywords system_keys keywords w = (Ok tt, w).
Proof.
  intros Hf Hi Hn Hm. unfold add_missing_keywords. destruct keywords as [|k r]; [reflexivity|].
  unfold_monad. rewrite Hf. destruct cv as [|kv cv']; [discriminate|].
  unfold dict_get_default. rewrite Hi. simpl py_iter. cbv iota beta. rewrite Hn.
  fold (missing_keywords names (k :: r)). rewrite Hm. reflexivity.
Qed.

End Keywords.

Lemma py_eq_str s v : py_eq (VStr s) v = true -> v = VStr s.
Proof.
  destruct v; simpl; try discriminate. intros H. apply String.eqb_eq in H. congruence.
Qed.

Lemma matches_id id doc :
  matches [("_id", id)] doc =
  match assoc_get "_id" doc with Some v => py_eq id v | None => false end.
Proof. unfold matches. simpl. apply andb_true_r. Qed.

Lemma find_one_matches lookup st doc :
  find_one lookup st = Some doc -> matches lookup doc = true.
Proof. unfold find_one. intros H. apply List.find_some in H as [_ H]. exact H. Qed.

Lemma find_one_patch id u st doc :
  find_one [("_id", id)] st = Some doc ->
  matches [("_id", id)] (dict_update doc u) = true ->
  find_one [("_id", id)] (patch id u st) = Some (dict_update doc u).
Proof.
  unfold find_one. intros Hf Hm. induction st as [|d r IH]; [discriminate|].
  cbn [patch List.find] in *.
  destruct (matches [("_id", id)] d) eqn:Hd.
  - inversion Hf; subst. cbn [List.find]. rewrite Hm. reflexivity.
  - cbn [List.find]. rewrite Hd. apply IH. exact Hf.
Qed.

Section KeywordsExisting.
Variable system_keys : gset string.

Lemma add_missing_keywords_some_missing keywords w cv xs names :
  find_one [("_id", VStr KEYWORDS_CV)] (docs w) = Some cv ->
  assoc_get "items" cv = Some (VList xs) ->
  traverse item_name_lower xs = Ok names ->
  missing_keywords names keywords <> [] ->
  let items := VList (xs ++ map keyword_item (missing_keywords names keywords)) in
  let cv' := dict_set "items" items cv in
  add_missing_keywords system_keys keywords w =
  match (on_update [("items", items)] cv' w).1 with
  | Ok _ => (Ok tt, World (patch (VStr KEYWORDS_CV) [("items", items)] (docs w))
                          (events w ++ [keywords_updated cv']))
  | Raise e => (Raise e, w)
  end.
Proof.
  intros Hf Hi Hn Hm items cv'. subst cv' items.
  pose proof (find_one_matches _ _ _ Hf) as Hid. rewrite matches_id in Hid.
  destruct (assoc_get "_id" cv) as [id|] eqn:Hid'; [|discriminate].
  apply py_eq_str in Hid. subst id.
  unfold add_missing_keywords. destruct keywords as [|k r]; [contradiction Hm; reflexivity|].
  unfold_monad. rewrite Hf. destruct cv as [|kv cv0] eqn:Hcv; [discriminate|]. rewrite <- Hcv in *.
  unfold dict_get_default, dict_has. rewrite Hi. simpl py_iter. cbv iota beta. rewrite Hn.
  fold (missing_keywords names (k :: r)).
  destruct (missing_keywords names (k :: r)) as [|m ms] eqn:Hmiss; [contradiction Hm; reflexivity|].
  cbv iota beta.
  set (items := VList (xs ++ map keyword_item (m :: ms))).
  set (cv' := dict_set "items" items cv).
  rewrite (on_update_with_items [("items", items)] cv' items w eq_refl). cbn [fst].
  match goal with
  | |- match ?X with _ => _ end = _ => destruct X as [[]|e]
  end; [|reflexivity].
  assert (Hid2 : assoc_get "_id" cv' = Some (VStr KEYWORDS_CV)).
  { unfold cv'. rewrite assoc_get_dict_set. simpl. exact Hid'. }
  unfold system_update, on_updated, _send_notification, keywords_updated. unfold_monad.
  simpl. rewrite Hid2. reflexivity.
Qed.

End KeywordsExisting.

Lemma keyword_items_as_dicts (keywords : list string) :
  map keyword_item keywords = map VDict (map keyword_dict keywords).
Proof. rewrite map_map. reflexivity. Qed.

(** The uniqueness check on keyword items that hold case variants. *)
Lemma check_uniqueness_case_variants (keywords : list string) :
  Forall (fun k => k <> "") keywords ->
  case_variants keywords ->
  exists v, _check_uniqueness (VList (map keyword_item keywords)) (VStr "name")
            = Raise (NotUnique v (VStr "name")).
Proof.
  intros Hne (l1 & k1 & l2 & k2 & l3 & Hk & Hu).
  rewrite keyword_items_as_dicts. apply check_uniqueness_of_duplicates.
  - apply Forall_forall. intros d Hd. apply list_elem_of_In, in_map_iff in Hd as (k & <- & _).
    reflexivity.
  - apply Forall_forall. intros d Hd. apply list_elem_of_In, in_map_iff in Hd as (k & <- & Hin).
    intros _. rewrite Forall_forall in Hne. specialize (Hne k (proj2 (list_elem_of_In _ _) Hin)).
    change (truthy (dict_get "name" (keyword_dict k))) with (negb (String.eqb k "")).
    apply String.eqb_neq in Hne. rewrite Hne. reflexivity.
  - exists (map keyword_dict l1), (keyword_dict k1), (map keyword_dict l2), (keyword_dict k2),
      (map keyword_dict l3).
    split; [rewrite Hk, !map_app; cbn [map]; rewrite map_app; reflexivity|].
    split; [reflexivity|]. split; [reflexivity|]. exact Hu.
Qed.

(** C1: the creation branch does not look for case variants inside its
    input.  When the store has no keywords vocabulary and the keywords are
    non-empty strings, [add_missing_keywords] creates the vocabulary with one
    active item per input keyword, in input order ([name = qcode = keyword]),
    and declares it unique on [name]; a second call with the same input
    changes nothing.  When two keywords of the input are case variants of
    each other, both are stored: the vocabulary fails the uniqueness check it
    declares, and every later call that has a keyword to add is refused with
    the duplicate-value error. *)
Theorem add_missing_keywords_stores_case_variants (system_keys : gset string)
    (keywords : list string) (w : world) :
  keywords <> [] ->
  Forall (fun k => k <> "") keywords ->
  find_one [("_id", VStr KEYWORDS_CV)] (docs w) = None ->
  let cv := keywords_cv keywords in
  let w' := World (docs w ++ [cv]) (events w ++ [keywords_created]) in
  add_missing_keywords system_keys keywords w = (Ok tt, w') /\
  find_one [("_id", VStr KEYWORDS_CV)] (docs w') = Some cv /\
  dict_get "unique_field" cv = VStr "name" /\
  dict_get "items" cv = VList (map keyword_item keywords) /\
  add_missing_keywords system_keys keywords w' = (Ok tt, w') /\
  (case_variants keywords ->
   (exists v, _check_uniqueness (dict_get "items" cv) (dict_get "unique_field" cv)
              = Raise (NotUnique v (VStr "name"))) /\
   (forall more,
       Forall (fun k => k <> "") more ->
       missing_keywords (map lower keywords) more <> [] ->
       exists v, add_missing_keywords system_keys more w'
                 = (Raise (NotUnique v (VStr "name")), w'))).
Proof.
  intros Hk Hne Hnone cv w'.
  assert (Hfind : find_one [("_id", VStr KEYWORDS_CV)] (docs w') = Some cv).
  { apply (find_one_insert_new _ (docs w) (keywords_cv keywords) Hnone). reflexivity. }
  split; [|split; [exact Hfind|split; [reflexivity|split; [reflexivity|split]]]].
  - rewrite add_missing_keywords_absent by assumption. apply post_keywords_cv; assumption.
  - apply (add_missing_keywords_all_present system_keys keywords w' _
             (map keyword_item keywords) (map lower keywords) Hfind eq_refl).
    + apply traverse_names.
    + apply missing_keywords_none. intros k Hin. apply in_map. exact Hin.
  - intros Hcv. split; [apply check_uniqueness_case_variants; assumption|].
    intros more Hmore Hmiss.
    set (added := missing_keywords (map lower keywords) more).
    assert (Hall : Forall (fun k => k <> "") (keywords ++ added)).
    { apply Forall_app. split; [exact Hne|]. apply Forall_forall. intros k Hin.
      apply list_elem_of_In, missing_keywords_spec in Hin as [Hin _].
      rewrite Forall_forall in Hmore. apply Hmore, list_elem_of_In, Hin. }
    assert (Hvar : case_variants (keywords ++ added)).
    { destruct Hcv as (l1 & k1 & l2 & k2 & l3 & -> & Hu).
      exists l1, k1, l2, k2, (l3 ++ added). split; [|exact Hu].
      rewrite <- !app_assoc. cbn [app]. rewrite <- !app_assoc. reflexivity. }
    destruct (check_uniqueness_case_variants _ Hall Hvar) as [v Hv].
    exists v.
    rewrite (add_missing_keywords_some_missing system_keys more w' cv
               (map keyword_item keywords) (map lower keywords) Hfind eq_refl
               (traverse_names keywords) Hmiss).
    fold added. rewrite <- map_app.
    change (dict_set "items" (VList (map keyword_item (keywords ++ added))) cv)
      with (keywords_cv (keywords ++ added)).
    rewrite (on_update_with_items [("items", VList (map keyword_item (keywords ++ added)))]
               (keywords_cv (keywords ++ added))
               (VList (map keyword_item (keywords ++ added))) w' eq_refl).
    change (dict_update (keywords_cv (keywords ++ added))
              [("items", VList (map keyword_item (keywords ++ added)))])
      with (keywords_cv (keywords ++ added)).
    rewrite validate_keywords_cv by exact Hall. cbn [fst].
    change (dict_get "unique_field" (keywords_cv (keywords ++ added))) with (VStr "name").
    change (truthy (VStr "name")) with true. cbv iota. rewrite Hv. reflexivity.
Qed.

(** X23: on a store that has the keywords vocabulary, an accepted call of
    [add_missing_keywords] keeps the stored items where they are and appends
    an item exactly for the input keywords whose lower-cased form is not the
    lower-cased name of a stored item; a second call with the same input
    changes nothing. *)
Theorem add_missing_keywords_appends_missing (system_keys : gset string)
    (keywords : list string) (w w' : world) (cv : dict) (xs : list value)
    (names : list string) :
  find_one [("_id", VStr KEYWORDS_CV)] (docs w) = Some cv ->
  assoc_get "items" cv = Some (VList xs) ->
  traverse item_name_lower xs = Ok names ->
  add_missing_keywords system_keys keywords w = (Ok tt, w') ->
  let added := missing_keywords names keywords in
  (forall k, In k added <-> In k keywords /\ ~ In (lower k) names) /\
  (exists cv',
      find_one [("_id", VStr KEYWORDS_CV)] (docs w') = Some cv' /\
      assoc_get "items" cv' = Some (VList (xs ++ map keyword_item added))) /\
  add_missing_keywords system_keys keywords w' = (Ok tt, w').
Proof.
  intros Hf Hi Hn Hrun added.
  split; [intros k; apply missing_keywords_spec|].
  destruct (missing_keywords names keywords) as [|m ms] eqn:Hmiss.
  - rewrite (add_missing_keywords_all_present system_keys keywords w cv xs names
               Hf Hi Hn Hmiss) in Hrun.
    inversion Hrun; subst w'. split.
    + exists cv. subst added. simpl. rewrite app_nil_r. auto.
    + apply (add_missing_keywords_all_present system_keys keywords w cv xs names
               Hf Hi Hn Hmiss).
  - assert (Hm : missing_keywords names keywords <> []) by (rewrite Hmiss; discriminate).
    rewrite (add_missing_keywords_some_missing system_keys keywords w cv xs names
               Hf Hi Hn Hm) in Hrun.
    rewrite Hmiss in Hrun. fold added in Hrun.
    set (items := VList (xs ++ map keyword_item added)) in *.
    destruct (on_update [("items", items)] (dict_set "items" items cv) w).1 as [[]|e];
      [|discriminate].
    inversion Hrun; subst w'. clear Hrun.
    assert (Hfind : find_one [("_id", VStr KEYWORDS_CV)]
                      (patch (VStr KEYWORDS_CV) [("items", items)] (docs w))
                    = Some (dict_set "items" items cv)).
    { apply (find_one_patch _ [("items", items)] _ cv Hf).
      change (dict_update cv [("items", items)]) with (dict_set "items" items cv).
      pose proof (find_one_matches _ _ _ Hf) as Hid. rewrite matches_id in *.
      rewrite assoc_get_dict_set. exact Hid. }
    assert (Hitems : assoc_get "items" (dict_set "items" items cv) = Some items).
    { rewrite assoc_get_dict_set. reflexivity. }
    split; [eauto|].
    match goal with
    | |- add_missing_keywords _ _ ?W = _ =>
        apply (add_missing_keywords_all_present system_keys keywords W
                 (dict_set "items" items cv)
                 (xs ++ map keyword_item added) (names ++ map lower added) Hfind Hitems)
    end.
    + apply traverse_app; [exact Hn | apply traverse_names].
    + apply missing_keywords_none. intros k Hin. apply in_or_app.
      destruct (in_dec string_dec (lower k) names) as [Hl|Hl]; [left; exact Hl|].
      right. apply in_map. subst added. rewrite <- Hmiss.
      apply missing_keywords_spec. auto.
Qed.


(** ** The locale overlay (C5) *)

Section LocaleOverlay.
Variable language : string.

Lemma dict_set_as_map k v (d : dict) :
  List.NoDup (map fst d) -> dict_has k d = true ->
  dict_set k v d = map (fun kv => (kv.1, if String.eqb kv.1 k then v else kv.2)) d.
Proof.
  unfold dict_has. induction d as [|[k0 v0] r IH]; simpl; [discriminate|].
  intros Hnd Hh. inversion Hnd as [|? ? Hnotin Hnd']; subst.
  destruct (String.eqb_spec k0 k) as [->|Hne].
  - f_equal. rewrite <- (map_id r) at 1. apply map_ext_in. intros [k1 v1] Hin. simpl.
    destruct (String.eqb_spec k1 k) as [->|]; [|reflexivity].
    exfalso. apply Hnotin. apply in_map_iff. exists (k, v1). auto.
  - f_equal. apply IH; assumption.
Qed.

Lemma map_absent_key k (g : value -> value) (d : dict) :
  dict_has k d = false ->
  map (fun kv => (kv.1, if String.eqb kv.1 k then g kv.2 else kv.2)) d = d.
Proof.
  unfold dict_has. induction d as [|[k0 v0] r IH]; simpl; [reflexivity|].
  destruct (String.eqb k0 k); [discriminate|]. intros H. rewrite IH by assumption.
  reflexivity.
Qed.

Lemma localize_dict_as_map (d : dict) (entry : string * value) :
  List.NoDup (map fst d) ->
  localize_dict language d entry = map (translate_entry language entry) d.
Proof.
  intros Hnd. unfold localize_dict, translate_entry. destruct entry as [f values]. simpl.
  destruct values as [| | | | |vs];
    try (symmetry; rewrite <- (map_id d) at 2; apply map_ext; intros [k v]; simpl;
         destruct (String.eqb k f); reflexivity).
  destruct (dict_has f d) eqn:Hh.
  - destruct (assoc_get language vs) as [v|]; simpl.
    + apply dict_set_as_map; assumption.
    + symmetry. rewrite <- (map_id d) at 2. apply map_ext. intros [k v0]. simpl.
      destruct (String.eqb k f); reflexivity.
  - symmetry. apply (map_absent_key f (fun v => default v (assoc_get language vs)) d Hh).
Qed.

Lemma keys_translate_entry entry (d : dict) :
  map fst (map (translate_entry language entry) d) = map fst d.
Proof. rewrite map_map. apply map_ext. intros [k v]. reflexivity. Qed.

(** The inner loop as a whole is the overlay. *)
Lemma fold_localize_overlay (translations : dict) :
  List.NoDup (map fst translations) ->
  forall d : dict,
    List.NoDup (map fst d) ->
    fold_left (localize_dict language) translations d =
    map (fun kv => (kv.1, default kv.2
                            match assoc_get kv.1 translations with
                            | Some (VDict values) => assoc_get language values
                            | _ => None
                            end)) d.
Proof.
  induction translations as [|[f values] tr IH]; intros Hnd d Hd; simpl.
  - symmetry. rewrite <- (map_id d) at 2. apply map_ext. intros [k v]. reflexivity.
  - inversion Hnd as [|? ? Hnotin Hnd']; subst.
    rewrite localize_dict_as_map by assumption.
    rewrite IH; [|assumption|rewrite keys_translate_entry; assumption].
    rewrite map_map. apply map_ext. intros [k v]. unfold translate_entry. simpl.
    rewrite (String.eqb_sym f k).
    destruct (String.eqb_spec k f) as [->|Hne]; [|reflexivity].
    rewrite (assoc_get_not_in f tr Hnotin). simpl.
    destruct values; reflexivity.
Qed.

Lemma overlay_without_translations (d : dict) :
  dict_has "translations" d = false -> overlay language d = d.
Proof.
  unfold dict_has, overlay, translation_of. destruct (assoc_get "translations" d); [discriminate|].
  intros _. rewrite <- (map_id d) at 2. apply map_ext. intros [k v]. reflexivity.
Qed.

Lemma overlay_with_translations (d translations : dict) :
  assoc_get "translations" d = Some (VDict translations) ->
  List.NoDup (map fst translations) -> List.NoDup (map fst d) ->
  fold_left (localize_dict language) translations d = overlay language d.
Proof.
  intros Ht Hnt Hnd. rewrite fold_localize_overlay by assumption.
  unfold overlay, translation_of. rewrite Ht. reflexivity.
Qed.

End LocaleOverlay.

Section LocaleHeap.
Variable language : string.

Lemma localize_run (h : heap) (a : nat) (d : dict) (entry : string * value) :
  h !! a = Some (ODict d) ->
  (exists values, entry.2 = VDict values) ->
  localize language a entry h = (Ok tt, <[a := ODict (localize_dict language d entry)]> h).
Proof.
  intros Ha [values Hv]. destruct entry as [field vs]. simpl in Hv. subst vs.
  unfold localize, localize_dict, load_dict, store_obj. unfold_monad. simpl. rewrite Ha.
  destruct (dict_has field d).
  - unfold dict_has. destruct (assoc_get language values) as [v|]; simpl; [reflexivity|].
    f_equal. symmetry. apply list_insert_id. exact Ha.
  - f_equal. symmetry. apply list_insert_id. exact Ha.
Qed.

Lemma localize_all_run (translations : dict) :
  Forall (fun kv => exists values, kv.2 = VDict values) translations ->
  forall (h : heap) (a : nat) (d : dict),
    h !! a = Some (ODict d) ->
    for_each translations (localize language a) h
    = (Ok tt, <[a := ODict (fold_left (localize_dict language) translations d)]> h).
Proof.
  induction 1 as [|entry tr He _ IH]; intros h a d Ha; simpl.
  - f_equal. symmetry. apply list_insert_id. exact Ha.
  - unfold_monad. rewrite (localize_run h a d entry Ha He).
    rewrite (IH _ a (localize_dict language d entry)).
    + rewrite list_insert_insert_eq. reflexivity.
    + apply list_lookup_insert_eq. eapply lookup_lt_Some. exact Ha.
Qed.

Lemma located_more h news extra a o : located h news a o -> located h (news ++ extra) a o.
Proof.
  intros [Hne H]. split; [exact Hne|]. intros refs more. rewrite <- app_assoc. apply H.
Qed.

Lemma located_old (h news : heap) a o : h !! a = Some o -> located h news a o.
Proof.
  intros Ha. pose proof (lookup_lt_Some _ _ _ Ha) as Hlt. split; [lia|].
  intros refs more. apply lookup_app_l_Some. exact Ha.
Qed.

Lemma located_new (h news : heap) o :
  located h (news ++ [o]) (length h + S (length news)) o.
Proof.
  split; [lia|]. intros refs more.
  rewrite lookup_app_r by lia.
  replace (length h + S (length news) - length h) with (S (length news)) by lia.
  simpl. rewrite <- app_assoc. apply list_lookup_middle. reflexivity.
Qed.

Lemma insert_list_object (h news : heap) (o o' : obj) :
  <[length h := o']> (h ++ o :: news) = h ++ o' :: news.
Proof.
  rewrite <- (Nat.add_0_r (length h)) at 1. rewrite insert_app_r. reflexivity.
Qed.

Lemma localize_item_run (h news : heap) (acc : list nat) (r : nat) (d : dict) :
  h !! r = Some (ODict d) -> wf_item d ->
  exists r' news1,
    localize_item language (length h) r (h ++ OList acc :: news)
    = (Ok tt, h ++ OList (acc ++ [r']) :: news ++ news1) /\
    located h (news ++ news1) r' (ODict (overlay language d)) /\
    (dict_has "translations" d = false -> r' = r).
Proof.
  intros Hr [Hnd Hwf].
  assert (Hcur : (h ++ OList acc :: news) !! r = Some (ODict d))
    by (apply lookup_app_l_Some; exact Hr).
  assert (Hl : (h ++ OList acc :: news) !! length h = Some (OList acc))
    by (apply list_lookup_middle; reflexivity).
  unfold localize_item, load_dict, list_append, load_list, store_obj, alloc.
  unfold_monad. rewrite Hcur. unfold dict_has, dict_get_default.
  destruct (assoc_get "translations" d) as [tr|] eqn:Ht; simpl.
  - destruct tr as [| | | | |translations]; try contradiction. destruct Hwf as [Hnt Hvs].
    set (a := length (h ++ OList acc :: news)).
    assert (Ha : a = length h + S (length news)) by (unfold a; rewrite length_app; reflexivity).
    clearbody a. subst a.
    exists (length h + S (length news)), [ODict (overlay language d)].
    rewrite lookup_app_l by (rewrite length_app; simpl; lia). rewrite Hl.
    rewrite <- app_assoc. simpl. rewrite insert_list_object.
    rewrite (localize_all_run translations Hvs _ (length h + S (length news)) d).
    + rewrite (overlay_with_translations language d translations Ht Hnt Hnd).
      split; [|split; [apply located_new | discriminate]].
      f_equal. rewrite insert_app_r. simpl. f_equal. f_equal.
      rewrite <- (Nat.add_0_r (length news)) at 1. rewrite insert_app_r. reflexivity.
    + rewrite lookup_app_r by lia.
      replace (length h + S (length news) - length h) with (S (length news)) by lia.
      simpl. apply list_lookup_middle. reflexivity.
  - exists r, []. rewrite Hl, insert_list_object, app_nil_r.
    split; [reflexivity|]. split; [|reflexivity].
    rewrite overlay_without_translations by (unfold dict_has; rewrite Ht; reflexivity).
    apply located_old. exact Hr.
Qed.

Lemma localize_items_run (h : heap) (items : list nat) :
  Forall (fun r => exists d, h !! r = Some (ODict d) /\ wf_item d) items ->
  forall acc news,
  exists acc' news',
    for_each items (localize_item language (length h)) (h ++ OList acc :: news)
    = (Ok tt, h ++ OList (acc ++ acc') :: news ++ news') /\
    Forall2 (fun r r' => exists d,
                 h !! r = Some (ODict d) /\
                 located h (news ++ news') r' (ODict (overlay language d)) /\
                 (dict_has "translations" d = false -> r' = r))
            items acc'.
Proof.
  induction 1 as [|r items (d & Hr & Hwf) _ IH]; intros acc news; simpl.
  - exists [], []. rewrite !app_nil_r. split; [reflexivity|constructor].
  - destruct (localize_item_run h news acc r d Hr Hwf) as (r' & news1 & Hrun & Hloc & Hsame).
    destruct (IH (acc ++ [r']) (news ++ news1)) as (acc' & news' & Hrest & Hall).
    exists (r' :: acc'), (news1 ++ news'). unfold_monad. rewrite Hrun, Hrest.
    rewrite <- !app_assoc. simpl. rewrite !app_assoc. split; [reflexivity|].
    constructor.
    + exists d. split; [exact Hr|]. split; [|exact Hsame]. apply located_more. exact Hloc.
    + exact Hall.
Qed.

End LocaleHeap.

(** C5, as the code has it.  On a list of well-formed item dictionaries:
    when the list is empty or no language is asked for ([None] or the empty
    string), [get_locale_vocabulary] returns the list object it was given and
    touches nothing.  Otherwise it returns a list object that did not exist
    before; position by position the new list holds the overlay of the
    input item (each field that has a translation for the language takes it,
    every other field is unchanged), an item without a [translations] entry
    being the input object itself; and every object that existed before the
    call, the input list and its items among them, is as it was. *)
Theorem get_locale_vocabulary_overlay (h : heap) (voc : nat) (refs : list nat)
    (language : option string) :
  h !! voc = Some (OList refs) ->
  Forall (fun r => exists d, h !! r = Some (ODict d) /\ wf_item d) refs ->
  (refs = [] \/ language = None \/ language = Some "" ->
   get_locale_vocabulary (Some voc) language h = (Ok (Some voc), h)) /\
  (forall lang,
      language = Some lang -> lang <> "" -> refs <> [] ->
      exists refs' news,
        get_locale_vocabulary (Some voc) language h
        = (Ok (Some (length h)), h ++ OList refs' :: news) /\
        Forall2 (fun r r' => exists d,
                     h !! r = Some (ODict d) /\
                     (h ++ OList refs' :: news) !! r' = Some (ODict (overlay lang d)) /\
                     (dict_has "translations" d = false -> r' = r))
                refs refs').
Proof.
  intros Hvoc Hwf. split.
  - intros Hcase. unfold get_locale_vocabulary, load_list. unfold_monad.
    destruct language as [lang|]; [|reflexivity]. rewrite Hvoc.
    destruct Hcase as [-> | [Hn | Hl]]; [reflexivity | discriminate |].
    injection Hl as ->. simpl. rewrite orb_true_r. reflexivity.
  - intros lang -> Hlang Hrefs.
    destruct (localize_items_run lang h refs Hwf [] []) as (refs' & news & Hrun & Hall).
    exists refs', news. split.
    + unfold get_locale_vocabulary, load_list, alloc. unfold_monad. rewrite Hvoc.
      rewrite bool_decide_eq_false_2 by assumption.
      apply String.eqb_neq in Hlang. rewrite Hlang. simpl. rewrite Hrun. reflexivity.
    + eapply Forall2_impl; [exact Hall|]. intros r r' (d & Hr & [_ Hloc] & Hsame).
      exists d. split; [exact Hr|]. split; [|exact Hsame].
      specialize (Hloc refs' []). rewrite app_nil_r in Hloc. exact Hloc.
Qed.

Lemma get_locale_vocabulary_overlay_witness :
  get_locale_vocabulary (Some 0) None caller_heap = (Ok (Some 0), caller_heap) /\
  exists refs' news,
    get_locale_vocabulary (Some 0) (Some "fr") caller_heap
    = (Ok (Some 3), caller_heap ++ OList refs' :: news) /\
    Forall2 (fun r r' => exists d,
                 caller_heap !! r = Some (ODict d) /\
                 (caller_heap ++ OList refs' :: news) !! r' = Some (ODict (overlay "fr" d)) /\
                 (dict_has "translations" d = false -> r' = r))
            [1; 2] refs'.
Proof.
  assert (Hwf : Forall (fun r => exists d, caller_heap !! r = Some (ODict d) /\ wf_item d)
                       [1; 2]).
  { repeat constructor.
    - exists global_item. split; [reflexivity|]. split; simpl.
      + repeat constructor; simpl; intros H;
          repeat (destruct H as [H|H]; try discriminate H); auto.
      + split; repeat constructor; simpl; eauto.
    - exists plain_item. split; [reflexivity|]. split; simpl; [|exact I].
      repeat constructor. simpl. prop_tauto. }
  split.
  - apply (get_locale_vocabulary_overlay caller_heap 0 [1; 2] None eq_refl Hwf).
    right. left. reflexivity.
  - apply (proj2 (get_locale_vocabulary_overlay caller_heap 0 [1; 2] (Some "fr") eq_refl Hwf)
                  "fr"); [reflexivity | discriminate | discriminate].
Defined.

Example get_locale_vocabulary_fr :
  get_locale_vocabulary (Some 0) (Some "fr") caller_heap
  = (Ok (Some 3),
     caller_heap ++
     [ OList [4; 2];
       ODict [ ("name", VStr "Monde");
               ("translations", VDict [("name", VDict [("fr", VStr "Monde")])]) ] ]).
Proof. reflexivity. Qed.

Example get_locale_vocabulary_de :
  get_locale_vocabulary (Some 0) (Some "de") caller_heap
  = (Ok (Some 3), caller_heap ++ [OList [4; 2]; ODict global_item]).
Proof. reflexivity. Qed.

(** The claim as the spec words it fails here: with no language, and with
    an empty vocabulary, the list that comes back is the caller's own list
    object (reference 0, which the heap already held), not a new one. *)
Lemma get_locale_vocabulary_returns_its_argument :
  get_locale_vocabulary (Some 0) None caller_heap = (Ok (Some 0), caller_heap) /\
  get_locale_vocabulary (Some 0) (Some "fr") [OList []] = (Ok (Some 0), [OList []]) /\
  0 < length caller_heap.
Proof. repeat split. simpl. lia. Qed.

(** ** Store round-trips of a validation call (C4) *)

(** C4 at a failing input: the target vocabulary of the link rule is missing
    from the store (or is stored with an empty item list), so the value list
    cached for it is empty, the test [not vocabs.get(...)] takes the empty
    entry for a miss, and the store is asked again for each of the three
    items.  With a target that has items the store is asked once. *)
Theorem validate_repeats_lookup_of_empty_target :
  validate [] linked_candidate
    = (Ok tt, VState linked_candidate [(VStr "subjects", [])]
                     [VStr "subjects"; VStr "subjects"; VStr "subjects"]) /\
  lookups (validate [subjects_without_items] linked_candidate).2
    = [VStr "subjects"; VStr "subjects"; VStr "subjects"] /\
  lookups (validate [subjects] linked_candidate).2 = [VStr "subjects"].
Proof. repeat split. Qed.

(** *** The cache does its work for a target that has items *)

Lemma py_eq_str_l v s : py_eq v (VStr s) = true -> v = VStr s.
Proof.
  destruct v; simpl; try discriminate. intros H. apply String.eqb_eq in H. congruence.
Qed.

Lemma py_eq_str_refl s : py_eq (VStr s) (VStr s) = true.
Proof. apply String.eqb_refl. Qed.

Lemma cache_get_set_eq k vs c :
  py_eq k k = true -> cache_get k (cache_set k vs c) = Some vs.
Proof.
  intros Hk. induction c as [|[k' vs'] r IH]; simpl.
  - rewrite Hk. reflexivity.
  - destruct (py_eq k' k) eqn:E; simpl; rewrite E; [reflexivity | exact IH].
Qed.

Lemma cache_get_set_ne s k vs c :
  py_eq (VStr s) k = false ->
  cache_get (VStr s) (cache_set k vs c) = cache_get (VStr s) c.
Proof.
  intros Hne.
  assert (Hk : py_eq k (VStr s) = false).
  { destruct (py_eq k (VStr s)) eqn:E; [|reflexivity].
    apply py_eq_str_l in E. subst k. rewrite py_eq_str_refl in Hne. discriminate. }
  induction c as [|[k' vs'] r IH]; simpl.
  - rewrite Hk. reflexivity.
  - destruct (py_eq k' (VStr s)) eqn:E.
    + apply py_eq_str_l in E. subst k'. rewrite Hne. simpl. rewrite String.eqb_refl.
      reflexivity.
    + destruct (py_eq k' k); simpl; rewrite E; [reflexivity | exact IH].
Qed.

Section LookupOnce.
Variable st : store.
Variable k : string.
Variable target : dict.
Variable x : value.
Variable xs : list value.
Hypothesis target_found : find_one [("_id", VStr k)] st = Some target.
Hypothesis target_items : dict_get "items" target = VList (x :: xs).

Lemma settled_bounded s : settled k s -> count_lookups k (lookups s) <= 1.
Proof. intros [H|[H _]]; lia. Qed.

Lemma steady_same {A} (m : M vstate A) :
  (forall s, (m s).2 = s) -> steady k m.
Proof.
  intros H s Hs. rewrite H. split; [apply settled_bounded; exact Hs | intros _ _; exact Hs].
Qed.

Lemma steady_bind {A B} (m : M vstate A) (f : A -> M vstate B) :
  steady k m -> (forall a, steady k (f a)) -> steady k (mbind f m).
Proof using Type.
  intros Hm Hf s Hs. unfold_monad. destruct (Hm s Hs) as [Hb Hok].
  destruct (m s) as [[a|e] s']; simpl in *.
  - apply Hf. apply (Hok a). reflexivity.
  - split; [exact Hb | discriminate].
Qed.

Lemma steady_for_each {A} (l : list A) (body : A -> M vstate unit) :
  (forall a, steady k (body a)) -> steady k (for_each l body).
Proof using Type.
  intros Hbody. induction l as [|a r IH]; simpl.
  - apply steady_same. reflexivity.
  - apply steady_bind; [apply Hbody | intros _; exact IH].
Qed.

Lemma cached_link_steady lv lf : steady k (cached_link st lv lf).
Proof using target_found target_items.
  intros s Hs. unfold cached_link, resolve_link. unfold_monad. simpl.
  destruct (cache_miss lv (vocabs s)) eqn:Hmiss; simpl;
    [|split; [apply settled_bounded; exact Hs | intros _ _; exact Hs]].
  destruct (py_eq (VStr k) lv) eqn:Hk.
  - apply py_eq_str in Hk. subst lv. rewrite target_found. simpl. rewrite target_items.
    simpl.
    assert (Hzero : count_lookups k (lookups s) = 0).
    { destruct Hs as [H|[_ H]]; [exact H | congruence]. }
    assert (Hone : count_lookups k (lookups s ++ [VStr k]) = 1).
    { unfold count_lookups in *. rewrite List.filter_app, length_app, Hzero. simpl.
      rewrite String.eqb_refl. reflexivity. }
    destruct (py_get_key x lf) as [y|e]; simpl; [|split; [lia | discriminate]].
    destruct (traverse _ xs) as [ys|e]; simpl; [|split; [lia | discriminate]].
    split; [lia|]. intros _ _. right. split; [exact Hone|].
    unfold cache_miss. cbn [vocabs].
    rewrite cache_get_set_eq by apply py_eq_str_refl. reflexivity.
  - assert (Hsame : count_lookups k (lookups s ++ [lv]) = count_lookups k (lookups s)).
    { unfold count_lookups. rewrite List.filter_app, length_app. cbn [List.filter].
      rewrite Hk. simpl. lia. }
    match goal with
    | |- context [rbind ?r _] => destruct r as [zs|e]
    | |- context [match ?r with Ok _ => _ | Raise _ => _ end] => destruct r as [zs|e]
    end; simpl.
    + rewrite Hsame. split; [apply settled_bounded; exact Hs|]. intros _ _.
      unfold settled. cbn [lookups vocabs]. rewrite Hsame.
      destruct Hs as [H|[H Hc]]; [left; exact H | right; split; [exact H|]].
      unfold cache_miss in *. rewrite cache_get_set_ne by exact Hk. exact Hc.
    + rewrite Hsame. split; [apply settled_bounded; exact Hs | discriminate].
Qed.

Ltac steady_step :=
  first
    [ apply cached_link_steady
    | apply steady_bind; [|intros ?]
    | apply steady_for_each; intros ?
    | apply steady_same; intros ?; reflexivity
    | match goal with
      | |- steady k (if ?c then _ else _) => destruct c
      | |- steady k (match ?v with _ => _ end) => destruct v
      | |- steady k (let '(_, _) := ?v in _) => destruct v
      end ].

Lemma check_field_steady U index item field desc :
  steady k (check_field st U index item field desc).
Proof using target_found target_items. unfold check_field. repeat steady_step. Qed.

Lemma check_items_steady : steady k (check_items st).
Proof using target_found target_items.
  unfold check_items. repeat first [apply check_field_steady | steady_step].
Qed.

Lemma default_qcode_steady : steady k default_qcode.
Proof using Type.
  intros s Hs. rewrite default_qcode_run. simpl.
  split; [apply settled_bounded; exact Hs | intros _ _; exact Hs].
Qed.

(** Within one validation call the store is asked at most once for a target
    vocabulary that is in the store with a non-empty item list, whatever the
    number of items and of rules that link to it. *)
Lemma validate_single_lookup_of_target_with_items (doc : dict) :
  count_lookups k (lookups (validate st doc).2) <= 1.
Proof using target_found target_items.
  unfold validate, _validate_items.
  apply (steady_bind default_qcode (fun _ => check_items st)).
  - apply default_qcode_steady.
  - intros _. apply check_items_steady.
  - left. reflexivity.
Qed.

End LookupOnce.

(* ===================================================================== *)
(** * More properties of the service                                      *)
(* ===================================================================== *)

(** ** What validation leaves alone *)

(** X1: [_validate_items] changes nothing of its argument but
    [unique_field]: every other key keeps its value (or its absence), a
    candidate that already has the key [unique_field] is left exactly as it
    was, and a candidate without it is either left as it was or gets
    [unique_field = "qcode"] as its last key.  This holds whether validation
    returns or raises. *)
Theorem validate_touches_only_unique_field (st : store) (doc : dict) :
  (forall k, k <> "unique_field" ->
             assoc_get k (update (validate st doc).2) = assoc_get k doc) /\
  (dict_has "unique_field" doc = true -> update (validate st doc).2 = doc) /\
  (dict_has "unique_field" doc = false ->
   update (validate st doc).2 = doc \/
   update (validate st doc).2 = doc ++ [("unique_field", VStr "qcode")]).
Proof.
  rewrite validate_update. split; [|split].
  - intros k Hk. apply assoc_get_default_unique_field. exact Hk.
  - intros Hu. unfold default_unique_field, dict_setdefault. rewrite Hu.
    destruct (assoc_get "schema" doc) as [[| | | | |schema]|]; try reflexivity.
    destruct (dict_has "qcode" schema); reflexivity.
  - intros Hu. unfold default_unique_field, dict_setdefault. rewrite Hu.
    destruct (assoc_get "schema" doc) as [[| | | | |schema]|]; auto.
    destruct (dict_has "qcode" schema); auto. right.
    unfold dict_has in Hu. clear -Hu. induction doc as [|[k0 v0] r IH]; simpl in *; [reflexivity|].
    destruct (String.eqb k0 "unique_field"); [discriminate|]. rewrite IH by assumption.
    reflexivity.
Qed.


(** ** Required fields *)

Lemma check_field_no_link st U index (item desc : dict) field s :
  no_link desc = true ->
  check_field st U index (VDict item) field (VDict desc) s =
  (if asks_for U field desc && negb (supplies item field)
   then Raise (RequiredField field index) else Ok tt, s).
Proof.
  intros Hl. unfold check_field, asks_for, supplies, no_link in *. unfold_monad. simpl.
  unfold dict_has, dict_get in *.
  destruct (truthy (dict_get_default "required" (VBool false) desc) || py_eq U (VStr field));
    simpl.
  - destruct (assoc_get field item) as [v|]; simpl; [|reflexivity].
    destruct (truthy v); simpl; [|reflexivity].
    destruct (truthy match assoc_get "link_vocab" desc with Some v0 => v0 | None => VNone end);
      simpl in *; [|reflexivity].
    apply negb_true_iff in Hl. rewrite Hl. reflexivity.
  - destruct (truthy match assoc_get "link_vocab" desc with Some v0 => v0 | None => VNone end);
      simpl in *; [|reflexivity].
    apply negb_true_iff in Hl. rewrite Hl. reflexivity.
Qed.

Lemma required_fields_loop st U index (item : dict) (schema : list (string * dict)) s :
  Forall (fun fd => no_link fd.2 = true) schema ->
  for_each (map (fun fd => (fd.1, VDict fd.2)) schema)
           (fun '(field, desc) => check_field st U index (VDict item) field desc) s =
  (match first_missing U schema item with
   | Some field => Raise (RequiredField field index)
   | None => Ok tt
   end, s).
Proof.
  unfold first_missing. induction 1 as [|[field desc] rest Hl _ IH]; simpl; [reflexivity|].
  unfold_monad. rewrite check_field_no_link by exact Hl. simpl.
  destruct (asks_for U field desc && negb (supplies item field)); simpl; [reflexivity|].
  exact IH.
Qed.

Lemma required_items_loop st U (schema : list (string * dict)) (items : list dict) n s :
  Forall (fun fd => no_link fd.2 = true) schema ->
  for_each (combine (seq n (length (map VDict items))) (map VDict items))
           (fun '(index, item) =>
              sch ← lift (py_items (schema_value schema));
              for_each sch (fun '(field, desc) => check_field st U index item field desc)) s =
  (match first_incomplete U schema n items with
   | Some (field, index) => Raise (RequiredField field index)
   | None => Ok tt
   end, s).
Proof.
  intros Hl. revert n. induction items as [|item rest IH]; intros n; simpl; [reflexivity|].
  unfold_monad. simpl. rewrite (required_fields_loop st U n item schema s Hl).
  destruct (first_missing U schema item); [reflexivity|]. apply IH.
Qed.

Lemma first_missing_none U schema item :
  first_missing U schema item = None <-> complete U schema item = true.
Proof.
  unfold first_missing, complete. induction schema as [|[f d] r IH]; simpl; [prop_tauto|].
  destruct (asks_for U f d); simpl.
  - destruct (supplies item f); simpl; [exact IH|]. split; discriminate.
  - exact IH.
Qed.

Lemma first_missing_some U schema item field :
  first_missing U schema item = Some field ->
  supplies item field = false /\
  exists desc, In (field, desc) schema /\ asks_for U field desc = true.
Proof.
  unfold first_missing. destruct (List.find _ schema) as [[f d]|] eqn:Hf; [|discriminate].
  simpl. intros H. inversion H; subst. apply List.find_some in Hf as [Hin Hc].
  simpl in Hc. apply andb_prop in Hc as [Ha Hs]. apply negb_true_iff in Hs. eauto.
Qed.

Lemma first_incomplete_none U schema n items :
  first_incomplete U schema n items = None <->
  Forall (fun item => complete U schema item = true) items.
Proof.
  revert n. induction items as [|item rest IH]; intros n; simpl.
  - split; [constructor | reflexivity].
  - destruct (first_missing U schema item) eqn:Hm.
    + split; [discriminate|]. intros H. inversion H as [|? ? Hc _]; subst.
      apply first_missing_none in Hc. congruence.
    + rewrite IH. apply first_missing_none in Hm. split.
      * intros H. constructor; assumption.
      * intros H. inversion H. assumption.
Qed.

Lemma first_incomplete_some U schema n items field index :
  first_incomplete U schema n items = Some (field, index) ->
  exists item,
    n <= index /\ items !! (index - n) = Some item /\
    first_missing U schema item = Some field /\
    Forall (fun item => complete U schema item = true) (take (index - n) items).
Proof.
  revert n. induction items as [|item rest IH]; intros n; simpl; [discriminate|].
  destruct (first_missing U schema item) eqn:Hm.
  - intros H. inversion H; subst. exists item. rewrite Nat.sub_diag. simpl.
    repeat split; auto.
  - intros H. destruct (IH _ H) as (it & Hle & Hl & Hf & Hall). exists it.
    replace (index - n) with (S (index - S n)) by lia. simpl.
    repeat split; [lia | exact Hl | exact Hf |].
    constructor; [apply first_missing_none; exact Hm | exact Hall].
Qed.

Lemma validate_required_run st doc schema (items : list dict) :
  assoc_get "schema" doc = Some (schema_value schema) ->
  assoc_get "items" doc = Some (VList (map VDict items)) ->
  Forall (fun fd => no_link fd.2 = true) schema ->
  (validate st doc).1 =
  match first_incomplete (dict_get "unique_field" (default_unique_field doc)) schema 0 items with
  | Some (field, index) => Raise (RequiredField field index)
  | None => Ok tt
  end.
Proof.
  intros Hs Hi Hl.
  pose proof (required_items_loop st (dict_get "unique_field" (default_unique_field doc))
                schema items 0
                (VState (default_unique_field doc) [] []) Hl) as Hloop.
  unfold validate, _validate_items. unfold_monad. rewrite default_qcode_run.
  unfold default_qcode_outcome. cbn [update vocabs lookups]. rewrite Hs.
  unfold schema_value at 1. cbn iota.
  unfold check_items. unfold_monad. cbn [update].
  unfold dict_has, dict_get_default.
  replace (dict_get "items" (default_unique_field doc)) with (VList (map VDict items))
    by (unfold dict_get; rewrite (assoc_get_default_unique_field "items") by discriminate;
        rewrite Hi; reflexivity).
  rewrite (assoc_get_default_unique_field "schema") by discriminate.
  rewrite (assoc_get_default_unique_field "items") by discriminate.
  rewrite Hs, Hi. cbn [andb]. cbn iota. cbn [py_iter]. cbv beta iota. unfold enumerate.
  rewrite Hloop. reflexivity.
Qed.

(** X2: for a candidate whose schema has no link rule and whose items are
    dictionaries, [_validate_items] accepts exactly when every item supplies
    a truthy value for every field that is marked required or is the unique
    field; otherwise it raises the required-field error for the first
    incomplete item and, in that item, the first such field in schema
    order. *)
Theorem validate_required_fields (st : store) (doc : dict) (schema : list (string * dict))
    (items : list dict) :
  assoc_get "schema" doc = Some (schema_value schema) ->
  assoc_get "items" doc = Some (VList (map VDict items)) ->
  Forall (fun fd => no_link fd.2 = true) schema ->
  let U := dict_get "unique_field" (default_unique_field doc) in
  ((validate st doc).1 = Ok tt <->
   Forall (fun item => complete U schema item = true) items) /\
  (forall e, (validate st doc).1 = Raise e ->
     exists field index item,
       e = RequiredField field index /\
       items !! index = Some item /\
       first_missing U schema item = Some field /\
       supplies item field = false /\
       Forall (fun item => complete U schema item = true) (take index items)).
Proof.
  intros Hs Hi Hl U. rewrite (validate_required_run st doc schema items Hs Hi Hl). fold U.
  destruct (first_incomplete U schema 0 items) as [[field index]|] eqn:Hf.
  - split.
    + split; [discriminate|]. intros H.
      apply (proj2 (first_incomplete_none U schema 0 items)) in H. congruence.
    + intros e He. inversion He; subst.
      destruct (first_incomplete_some _ _ _ _ _ _ Hf) as (item & _ & Hl' & Hm & Hall).
      rewrite Nat.sub_0_r in *. exists field, index, item.
      destruct (first_missing_some _ _ _ _ Hm) as [Hsup _]. auto.
  - split; [|discriminate]. split; [|reflexivity]. intros _.
    apply (first_incomplete_none U schema 0). exact Hf.
Qed.


Lemma validate_required_fields_witness :
  (validate [] complete_candidate).1 = Ok tt /\
  exists field index item,
    RequiredField "name" 1 = RequiredField field index /\
    [ [("name", VStr "a")]; [("note", VStr "x")]; [] ] !! index = Some item /\
    first_missing VNone name_required item = Some field /\
    supplies item field = false /\
    Forall (fun item => complete VNone name_required item = true)
           (take index [ [("name", VStr "a")]; [("note", VStr "x")]; ([] : dict) ]).
Proof.
  assert (Hl : Forall (fun fd : string * dict => no_link fd.2 = true) name_required)
    by (repeat constructor).
  split.
  - apply (validate_required_fields [] complete_candidate name_required _ eq_refl eq_refl Hl).
    repeat constructor.
  - apply (proj2 (validate_required_fields [] incomplete_candidate name_required _
                    eq_refl eq_refl Hl)).
    reflexivity.
Defined.

(** ** The uniqueness check and inactive items *)

Lemma check_unique_loop_cons U (d : dict) rest seen :
  check_unique_loop U (VDict d :: rest) seen =
  if truthy (dict_get "is_active" d) then
    match py_get_key (VDict d) U with
    | Ok v =>
        if truthy v then
          if bool_decide (upper (py_str v) ∈ seen) then Raise (NotUnique v U)
          else check_unique_loop U rest (seen ++ [upper (py_str v)])
        else Raise (EmptyUnique U)
    | Raise e => Raise e
    end
  else check_unique_loop U rest seen.
Proof.
  cbn [check_unique_loop]. unfold_monad. cbn [py_get].
  destruct (truthy (dict_get "is_active" d)); [|reflexivity]. cbn [negb].
  destruct (py_get_key (VDict d) U) as [v|e]; [|reflexivity].
  destruct (truthy v); reflexivity.
Qed.

Lemma check_unique_loop_inactive U (items : list dict) seen :
  check_unique_loop U (map VDict items) seen =
  check_unique_loop U
    (map VDict (List.filter (fun d => truthy (dict_get "is_active" d)) items)) seen.
Proof.
  revert seen. induction items as [|d r IH]; intros seen; [reflexivity|].
  cbn [map List.filter]. rewrite check_unique_loop_cons.
  destruct (truthy (dict_get "is_active" d)) eqn:Ha; [|apply IH].
  cbn [map]. rewrite check_unique_loop_cons, Ha.
  destruct (py_get_key (VDict d) U) as [v|e]; [|reflexivity].
  destruct (truthy v); [|reflexivity].
  destruct (bool_decide _); [reflexivity|]. apply IH.
Qed.

Lemma check_unique_loop_errors (U : string) (items : list dict) seen e :
  check_unique_loop (VStr U) (map VDict items) seen = Raise e ->
  e = EmptyUnique (VStr U) \/ exists v, e = NotUnique v (VStr U).
Proof.
  revert seen. induction items as [|d r IH]; intros seen; [discriminate|].
  cbn [map]. rewrite check_unique_loop_cons. cbn [py_get_key].
  destruct (truthy (dict_get "is_active" d)); [|apply IH].
  destruct (truthy (dict_get U d)).
  - destruct (bool_decide _); [|apply IH]. intros H. inversion H. eauto.
  - intros H. inversion H. auto.
Qed.

(** X3: [_check_uniqueness] never looks at an item whose [is_active] is
    falsy or missing: on item dictionaries its outcome is the outcome on the
    list with those items taken out, so inactive items may repeat a value or
    lack it.  With a field name for [unique_field], the only exceptions it
    raises are the empty-value and the duplicate-value errors. *)
Theorem check_uniqueness_ignores_inactive (unique_field : value) (items : list dict) :
  _check_uniqueness (VList (map VDict items)) unique_field =
  _check_uniqueness
    (VList (map VDict (List.filter (fun d => truthy (dict_get "is_active" d)) items)))
    unique_field /\
  (forall U e,
      unique_field = VStr U ->
      _check_uniqueness (VList (map VDict items)) unique_field = Raise e ->
      e = EmptyUnique (VStr U) \/ exists v, e = NotUnique v (VStr U)).
Proof.
  unfold _check_uniqueness. unfold_monad. simpl. split.
  - apply check_unique_loop_inactive.
  - intros U e ->. apply check_unique_loop_errors.
Qed.

(** ** Creation, document by document *)

Section CreateAlone.
Variable system_keys : gset string.

Lemma on_create_cons doc rest w :
  on_create system_keys (doc :: rest) w =
  match (on_create_doc system_keys doc w).1 with
  | Ok d =>
      match (on_create system_keys rest w).1 with
      | Ok r => (Ok (d :: r), w)
      | Raise e => (Raise e, w)
      end
  | Raise e => (Raise e, w)
  end.
Proof.
  simpl. unfold_monad.
  pose proof (on_create_doc_keeps system_keys doc w) as Hd.
  destruct (on_create_doc system_keys doc w) as [[d|e] w1]; simpl in *; subst; [|reflexivity].
  pose proof (on_create_keeps system_keys rest w) as Hr.
  destruct (on_create system_keys rest w) as [[r|e] w1]; simpl in *; subst; reflexivity.
Qed.

Lemma on_create_single doc w :
  (on_create system_keys [doc] w).1 =
  match (on_create_doc system_keys doc w).1 with
  | Ok d => Ok [d]
  | Raise e => Raise e
  end.
Proof.
  rewrite on_create_cons. simpl.
  destruct (on_create_doc system_keys doc w).1; reflexivity.
Qed.

End CreateAlone.

(** X4: [on_create] never changes the store or the notifications, and it
    accepts a batch exactly when it accepts each document of the batch on
    its own; the order of the batch only decides which error is reported.
    An accepted batch comes back with every document as the defaulting of
    [unique_field] left it. *)
Theorem on_create_document_by_document (system_keys : gset string) (batch : list dict)
    (w : world) :
  (on_create system_keys batch w).2 = w /\
  ((exists out, (on_create system_keys batch w).1 = Ok out) <->
   Forall (fun doc => exists out, (on_create system_keys [doc] w).1 = Ok out) batch) /\
  (forall out, (on_create system_keys batch w).1 = Ok out ->
               out = map default_unique_field batch).
Proof.
  split; [apply on_create_keeps|]. split.
  - induction batch as [|doc rest IH].
    + split; [constructor | intros _; exists []; reflexivity].
    + rewrite on_create_cons. split.
      * intros [out Hout]. constructor.
        -- rewrite on_create_single.
           destruct (on_create_doc system_keys doc w).1; [eauto | discriminate].
        -- apply IH. destruct (on_create_doc system_keys doc w).1; [|discriminate].
           destruct (on_create system_keys rest w).1; [eauto | discriminate].
      * intros H. inversion H as [|? ? [o Ho] Hrest]; subst.
        rewrite on_create_single in Ho.
        destruct (on_create_doc system_keys doc w).1 as [d|e]; [|discriminate].
        apply IH in Hrest as [r Hr]. rewrite Hr. simpl. eauto.
  - intros out Hout.
    destruct (on_create system_keys batch w) as [r w'] eqn:Hrun. simpl in Hout. subst r.
    apply on_create_ok in Hrun. prop_tauto.
Qed.


(** ** Notifications *)

Lemma _send_notification_run doc ev w :
  _send_notification doc ev w =
  match assoc_get "_id" doc with
  | Some id => (Ok tt, World (docs w) (events w ++ [Event ev (dict_get "display_name" doc) id]))
  | None => (Raise (KeyError "_id"), w)
  end.
Proof.
  unfold _send_notification. unfold_monad. simpl.
  destruct (assoc_get "_id" doc); reflexivity.
Qed.

Lemma on_created_with_ids batch w :
  Forall (fun d => dict_has "_id" d = true) batch ->
  on_created batch w = (Ok tt, World (docs w) (events w ++ map created_event batch)).
Proof.
  unfold on_created. intros H. revert w. induction H as [|d r Hd _ IH]; intros w; simpl.
  - rewrite app_nil_r. destruct w; reflexivity.
  - unfold_monad. rewrite _send_notification_run. unfold dict_has in Hd.
    destruct (assoc_get "_id" d) as [id|] eqn:Hid; [|discriminate].
    assert (He : created_event d
                 = Event "vocabularies:created" (dict_get "display_name" d) id).
    { unfold created_event. unfold dict_get at 2. rewrite Hid. reflexivity. }
    rewrite IH, He. simpl. rewrite <- app_assoc. reflexivity.
Qed.

(** X5: [on_created] sends one "vocabularies:created" notification per
    document, in batch order, carrying the document's display name and id,
    and leaves the store alone.  A document without [_id] stops it with a
    [KeyError]: the documents before it have been notified, the ones after
    it have not. *)
Theorem on_created_notifies_in_order (batch : list dict) (w : world) :
  (Forall (fun d => dict_has "_id" d = true) batch ->
   on_created batch w = (Ok tt, World (docs w) (events w ++ map created_event batch))) /\
  (forall pre d rest,
      batch = pre ++ d :: rest ->
      Forall (fun d => dict_has "_id" d = true) pre ->
      dict_has "_id" d = false ->
      on_created batch w =
        (Raise (KeyError "_id"), World (docs w) (events w ++ map created_event pre))).
Proof.
  split; [apply on_created_with_ids|].
  intros pre d rest -> Hpre Hd. unfold on_created. revert w.
  induction Hpre as [|p r Hp _ IH]; intros w; simpl.
  - unfold_monad. rewrite _send_notification_run. unfold dict_has in Hd.
    destruct (assoc_get "_id" d); [discriminate|]. rewrite app_nil_r. destruct w; reflexivity.
  - unfold_monad. rewrite _send_notification_run. unfold dict_has in Hp.
    destruct (assoc_get "_id" p) as [id|] eqn:Hid; [|discriminate].
    assert (He : created_event p
                 = Event "vocabularies:created" (dict_get "display_name" p) id).
    { unfold created_event. unfold dict_get at 2. rewrite Hid. reflexivity. }
    rewrite IH, He. simpl. rewrite <- app_assoc. reflexivity.
Qed.

(** ** The exceptions of validation *)

Section RaisesOnly.
Context {S : Type} (P : exn -> bool).

Lemma raises_only_ret {A} (a : A) : raises_only P (mret a : M S A).
Proof. intros s e H. discriminate. Qed.

Lemma raises_only_gets {A} (g : S -> A) : raises_only P (gets g).
Proof. intros s e H. discriminate. Qed.

Lemma raises_only_modify (g : S -> S) : raises_only P (modify g).
Proof. intros s e H. discriminate. Qed.

Lemma raises_only_raise {A} e : P e = true -> raises_only P (raise e : M S A).
Proof. intros He s e' H. inversion H. subst. exact He. Qed.

Lemma raises_only_lift {A} (r : result A) :
  (forall e, r = Raise e -> P e = true) -> raises_only P (lift r : M S A).
Proof. intros Hr s e H. apply Hr. exact H. Qed.

Lemma raises_only_bind {A B} (m : M S A) (k : A -> M S B) :
  raises_only P m -> (forall a, raises_only P (k a)) -> raises_only P (mbind k m).
Proof.
  intros Hm Hk s e. unfold_monad. specialize (Hm s).
  destruct (m s) as [[a|e'] s']; simpl in *.
  - apply Hk.
  - intros H. inversion H; subst. apply Hm. reflexivity.
Qed.

Lemma raises_only_for_each {A} (xs : list A) (body : A -> M S unit) :
  (forall x, raises_only P (body x)) -> raises_only P (for_each xs body).
Proof.
  intros Hb. induction xs as [|x r IH]; simpl.
  - apply raises_only_ret.
  - apply raises_only_bind; [apply Hb | intros _; exact IH].
Qed.

End RaisesOnly.

Lemma traverse_raise {A B} (f : A -> result B) xs e :
  traverse f xs = Raise e -> exists x, In x xs /\ f x = Raise e.
Proof.
  induction xs as [|x r IH]; simpl; [discriminate|]. unfold_monad.
  destruct (f x) as [y|e'] eqn:Hx.
  - destruct (traverse f r) as [ys|e'']; [discriminate|]. intros H. inversion H; subst.
    destruct (IH eq_refl) as (x' & Hin & Hx'). eauto.
  - intros H. inversion H; subst. eauto.
Qed.

Ltac python_raise :=
  let e := fresh "e" in
  let H := fresh "H" in
  intros e H;
  repeat first
    [ match type of H with
      | context [match ?x with _ => _ end] => is_var x; destruct x; simpl in H
      end
    | match type of H with
      | context [match ?x with _ => _ end] =>
          lazymatch x with
          | context [match _ with _ => _ end] => fail
          | _ => destruct x; simpl in H
          end
      end ];
  try discriminate H; inversion H; reflexivity.

Lemma py_get_key_raise item key e :
  py_get_key item key = Raise e -> validation_error e = true.
Proof. revert e. unfold py_get_key. python_raise. Qed.

Lemma resolve_link_raises st lv lf : raises_only validation_error (resolve_link st lv lf).
Proof.
  unfold resolve_link.
  apply raises_only_bind; [apply raises_only_modify | intros _].
  apply raises_only_bind; [|intros ?; apply raises_only_modify].
  apply raises_only_lift. intros e. unfold_monad.
  destruct (if truthy _ then _ else _) as [xs|e'] eqn:Hxs; simpl.
  - intros H. apply traverse_raise in H as (x & _ & Hx). apply (py_get_key_raise _ _ _ Hx).
  - intros H. inversion H; subst. revert Hxs.
    destruct (truthy _); [|discriminate]. unfold py_iter.
    destruct (dict_get "items" _); intros H'; inversion H'; reflexivity.
Qed.

Ltac raises_step :=
  first
    [ apply resolve_link_raises
    | apply raises_only_ret | apply raises_only_gets | apply raises_only_modify
    | apply raises_only_raise; reflexivity
    | apply raises_only_bind; [|intros ?]
    | apply raises_only_for_each; intros ?
    | apply raises_only_lift; unfold_monad;
      unfold py_get_default, py_get, py_contains, py_getitem, py_iter, py_items;
      python_raise
    | match goal with
      | |- raises_only _ (if ?c then _ else _) => destruct c
      | |- raises_only _ (match ?x with _ => _ end) => destruct x
      | |- raises_only _ (let '(_, _) := ?x in _) => destruct x
      end ].

Lemma check_field_raises st U index item field desc :
  raises_only validation_error (check_field st U index item field desc).
Proof. unfold check_field, cached_link. repeat raises_step. Qed.

Lemma check_items_raises st : raises_only validation_error (check_items st).
Proof. unfold check_items. repeat first [apply check_field_raises | raises_step]. Qed.

Lemma validate_raises st doc e :
  (validate st doc).1 = Raise e -> validation_error e = true.
Proof.
  unfold validate, _validate_items.
  apply (raises_only_bind validation_error default_qcode (fun _ => check_items st)).
  - intros s e' H. rewrite default_qcode_run in H. simpl in H.
    unfold default_qcode_outcome in H.
    destruct (assoc_get "schema" (update s)) as [[| | | | |?]|]; inversion H; reflexivity.
  - intros _. apply check_items_raises.
Qed.

(** X6: whatever the candidate and the store, the exceptions that
    [_validate_items] raises are the required-field error, the link error and
    Python's own [KeyError], [TypeError] and [AttributeError]; it never
    raises a uniqueness error.  So [on_update] on an original document with
    no (truthy) [unique_field] never raises a uniqueness error either, even
    when the update brings duplicate items or a [unique_field] of its own. *)
Theorem uniqueness_is_not_checked_by_validation :
  (forall st doc e, (validate st doc).1 = Raise e -> validation_error e = true) /\
  (forall updates original w e,
      truthy (dict_get "unique_field" original) = false ->
      (on_update updates original w).1 = Raise e ->
      validation_error e = true).
Proof.
  split; [apply validate_raises|].
  intros updates original w e HU.
  destruct (assoc_get "items" updates) as [items|] eqn:Hi.
  - rewrite (on_update_with_items _ _ _ _ Hi), HU. simpl.
    destruct (validate (docs w) (dict_update original updates)).1 as [[]|e'] eqn:Hv;
      [discriminate|].
    intros H. inversion H; subst. apply (validate_raises _ _ _ Hv).
  - rewrite (on_update_without_items _ _ _ Hi). discriminate.
Qed.


(** ** Instances *)

Lemma validate_touches_only_unique_field_witness :
  assoc_get "items" (update (validate [] qcode_candidate).2)
    = assoc_get "items" qcode_candidate /\
  update (validate [] items_without_schema).2 = items_without_schema /\
  (update (validate [] qcode_candidate).2 = qcode_candidate \/
   update (validate [] qcode_candidate).2
     = qcode_candidate ++ [("unique_field", VStr "qcode")]).
Proof.
  destruct (validate_touches_only_unique_field [] qcode_candidate) as (H1 & _ & H3).
  destruct (validate_touches_only_unique_field [] items_without_schema) as (_ & H2 & _).
  split; [apply H1; discriminate|]. split; [apply H2; reflexivity | apply H3; reflexivity].
Defined.


Lemma on_create_document_by_document_witness :
  (exists out, (on_create demo_keys [fine_doc; plain_headline] (World [] [])).1 = Ok out) /\
  [qcode_stored] = map default_unique_field [qcode_candidate].
Proof.
  destruct (on_create_document_by_document demo_keys [fine_doc; plain_headline]
              (World [] [])) as (_ & H2 & _).
  destruct (on_create_document_by_document demo_keys [qcode_candidate] (World [] []))
    as (_ & _ & H3).
  split.
  - apply H2. repeat constructor; eexists; vm_compute; reflexivity.
  - apply H3. vm_compute. reflexivity.
Defined.

Lemma on_created_notifies_in_order_witness :
  on_created [genre_doc; topics_doc] (World [] [])
    = (Ok tt, World [] [created_event genre_doc; created_event topics_doc]) /\
  on_created [genre_doc; anonymous_doc; topics_doc] (World [] [])
    = (Raise (KeyError "_id"), World [] [created_event genre_doc]).
Proof.
  destruct (on_created_notifies_in_order [genre_doc; topics_doc] (World [] [])) as [H1 _].
  destruct (on_created_notifies_in_order [genre_doc; anonymous_doc; topics_doc]
              (World [] [])) as [_ H2].
  split.
  - apply H1. repeat constructor.
  - apply (H2 [genre_doc] anonymous_doc [topics_doc]); [reflexivity | repeat constructor
                                                        | reflexivity].
Defined.


(** ** Keywords: all or nothing *)

Lemma on_update_keeps updates original : keeps (fun w : world => w) (on_update updates original).
Proof.
  intros w. destruct (assoc_get "items" updates) as [items|] eqn:Hi.
  - rewrite (on_update_with_items _ _ _ _ Hi). reflexivity.
  - rewrite (on_update_without_items _ _ _ Hi). reflexivity.
Qed.

Lemma post_raise_keeps system_keys batch w e w' :
  Forall (fun d => dict_has "_id" d = true) batch ->
  post system_keys batch w = (Raise e, w') -> w' = w.
Proof.
  intros Hid. unfold post. unfold_monad.
  destruct (on_create system_keys batch w) as [[out|e1] w1] eqn:Hc.
  - apply on_create_ok in Hc as [-> ->].
    rewrite on_created_with_ids; [discriminate|].
    rewrite Forall_forall in *. intros d Hd.
    apply list_elem_of_In, in_map_iff in Hd as (d0 & <- & Hd0).
    rewrite dict_has_default_unique_field by discriminate.
    apply Hid, list_elem_of_In. exact Hd0.
  - pose proof (on_create_keeps system_keys batch w) as Hk. rewrite Hc in Hk. simpl in Hk.
    intros H. inversion H; subst. reflexivity.
Qed.

(** X7: [add_missing_keywords] is all or nothing: whenever it raises, be it
    from validation, from the uniqueness check or from a malformed stored
    vocabulary, the store and the notifications are as they were before the
    call. *)
Theorem add_missing_keywords_all_or_nothing (system_keys : gset string)
    (keywords : list string) (w w' : world) (e : exn) :
  add_missing_keywords system_keys keywords w = (Raise e, w') -> w' = w.
Proof.
  unfold add_missing_keywords. destruct keywords as [|k ks]; [discriminate|].
  unfold_monad.
  assert (Hpost : forall ws, post system_keys [keywords_cv (k :: ks)] w = (Raise e, ws) ->
                             ws = w).
  { intros ws. apply post_raise_keeps. repeat constructor. }
  destruct (find_one [("_id", VStr KEYWORDS_CV)] (docs w)) as [[|kv cv0]|];
    [apply Hpost | | apply Hpost].
  set (cv := kv :: cv0). fold cv.
  destruct (py_iter (dict_get_default "items" (VList []) cv)) as [ys|e1] eqn:Hiter;
    [|intros H; inversion H; reflexivity].
  destruct (traverse item_name_lower ys) as [names|e1];
    [|intros H; inversion H; reflexivity].
  destruct (List.filter _ (k :: ks)) as [|m ms]; [discriminate|].
  destruct (dict_get_default "items" (VList []) cv) as [| | | |xs|];
    try (intros H; inversion H; reflexivity).
  set (items := VList (xs ++ map keyword_item (m :: ms))).
  set (cv' := if dict_has "items" cv then dict_set "items" items cv else cv).
  pose proof (on_update_keeps [("items", items)] cv' w) as Hk.
  destruct (on_update [("items", items)] cv' w) as [[[]|e1] w1]; simpl in Hk; subst w1;
    [|intros H; inversion H; reflexivity].
  cbn [py_getitem]. destruct (assoc_get "_id" cv') as [id|] eqn:Hid;
    [|intros H; inversion H; reflexivity].
  unfold system_update, on_updated. unfold_monad. rewrite _send_notification_run, Hid.
  discriminate.
Qed.


(** ** Dropping the activity flag *)

Lemma assoc_get_without_flag k (d : dict) :
  assoc_get k (without_flag d) = if String.eqb k "is_active" then None else assoc_get k d.
Proof.
  unfold without_flag. induction d as [|[k0 v0] r IH].
  - cbn [List.filter assoc_get]. destruct (String.eqb k "is_active"); reflexivity.
  - cbn [List.filter assoc_get fst]. destruct (String.eqb_spec k0 "is_active") as [->|Hne].
    + cbn [negb]. rewrite IH. destruct (String.eqb_spec k "is_active") as [->|Hk].
      * reflexivity.
      * destruct (String.eqb_spec "is_active" k); [congruence | reflexivity].
    + cbn [negb assoc_get]. rewrite IH. destruct (String.eqb_spec k0 k) as [->|Hk]; [|reflexivity].
      destruct (String.eqb_spec k "is_active"); [contradiction | reflexivity].
Qed.

Lemma without_flag_twice (d : dict) : without_flag (without_flag d) = without_flag d.
Proof.
  unfold without_flag. induction d as [|[k0 v0] r IH]; [reflexivity|].
  cbn [List.filter fst]. destruct (String.eqb k0 "is_active") eqn:E; cbn [negb]; [exact IH|].
  cbn [List.filter fst]. rewrite E. cbn [negb]. rewrite IH. reflexivity.
Qed.

Lemma active_without_flag (d : dict) : active (without_flag d) = true.
Proof. unfold active, dict_get_default. rewrite assoc_get_without_flag. reflexivity. Qed.

Lemma dict_del_as_without_flag (d : dict) :
  List.NoDup (map fst d) -> dict_del "is_active" d = without_flag d.
Proof.
  unfold without_flag. induction d as [|[k0 v0] r IH]; [reflexivity|]. intros Hnd.
  cbn [map fst] in Hnd. inversion Hnd as [|? ? Hnotin Hnd']; subst.
  cbn [List.filter dict_del fst].
  destruct (String.eqb_spec k0 "is_active") as [->|Hne]; cbn [negb].
  - symmetry. rewrite <- (List.filter_ext_in (fun _ => true)).
    + clear. induction r as [|x r IH]; [reflexivity|]. cbn [List.filter]. rewrite IH.
      reflexivity.
    + intros [k v] Hin. cbn [fst].
      destruct (String.eqb_spec k "is_active") as [->|]; [|reflexivity].
      exfalso. apply Hnotin. apply in_map_iff. exists ("is_active", v). auto.
  - rewrite IH by assumption. reflexivity.
Qed.

Lemma dict_set_twice k v v' (d : dict) : dict_set k v (dict_set k v' d) = dict_set k v d.
Proof.
  induction d as [|[k0 v0] r IH]; cbn [dict_set].
  - rewrite String.eqb_refl. reflexivity.
  - destruct (String.eqb k0 k) eqn:E; cbn [dict_set]; rewrite E; [reflexivity|].
    rewrite IH. reflexivity.
Qed.

Lemma filter_inactive_run (item : dict) (ds : list dict) :
  assoc_get "items" item = Some (VList (map VDict ds)) ->
  _filter_inactive_vocabularies item
  = Ok (dict_set "items" (VList (map VDict (active_items ds))) item).
Proof.
  intros Hi. unfold _filter_inactive_vocabularies, active_items. unfold_monad. simpl.
  rewrite Hi. simpl.
  assert (Hf : filter_result
                 (fun voc => match py_get_default voc "is_active" (VBool true) with
                             | Ok a => Ok (truthy a)
                             | Raise e => Raise e
                             end) (map VDict ds)
               = Ok (map VDict (List.filter active ds))).
  { clear. induction ds as [|d r IH]; simpl; [reflexivity|]. unfold_monad. rewrite IH.
    unfold active. destruct (truthy _); reflexivity. }
  rewrite Hf.
  assert (Ht : forall l : list dict,
             traverse (fun voc => match voc with
                                  | VDict d => Ok (VDict (List.filter
                                       (fun kv => negb (String.eqb kv.1 "is_active")) d))
                                  | _ => Raise AttributeError
                                  end) (map VDict l)
             = Ok (map VDict (map without_flag l))).
  { clear. induction l as [|d r IH]; simpl; [reflexivity|]. unfold_monad. rewrite IH.
    reflexivity. }
  rewrite Ht. reflexivity.
Qed.

Lemma active_items_twice (ds : list dict) : active_items (active_items ds) = active_items ds.
Proof.
  unfold active_items. induction (List.filter active ds) as [|d r IH]; simpl; [reflexivity|].
  rewrite active_without_flag. simpl. rewrite without_flag_twice. f_equal. exact IH.
Qed.

(** X8: on a vocabulary whose items are dictionaries,
    [_filter_inactive_vocabularies] keeps, in order, exactly the items whose
    [is_active] is truthy or absent, none of the kept items has the key
    [is_active] any more, nothing else of the vocabulary changes, and
    filtering a second time changes nothing. *)
Theorem filter_inactive_is_idempotent (item : dict) (ds : list dict) :
  assoc_get "items" item = Some (VList (map VDict ds)) ->
  let filtered := dict_set "items" (VList (map VDict (active_items ds))) item in
  _filter_inactive_vocabularies item = Ok filtered /\
  _filter_inactive_vocabularies filtered = Ok filtered /\
  Forall (fun d => dict_has "is_active" d = false) (active_items ds) /\
  (forall k, k <> "items" -> assoc_get k filtered = assoc_get k item).
Proof.
  intros Hi filtered. split; [apply filter_inactive_run; exact Hi|]. split; [|split].
  - unfold filtered. rewrite (filter_inactive_run _ (active_items ds)).
    + rewrite active_items_twice, dict_set_twice. reflexivity.
    + rewrite assoc_get_dict_set. reflexivity.
  - unfold active_items. apply Forall_forall. intros d Hd.
    apply list_elem_of_In, in_map_iff in Hd as (d0 & <- & _).
    unfold dict_has. rewrite assoc_get_without_flag. reflexivity.
  - intros k Hk. unfold filtered. rewrite assoc_get_dict_set.
    destruct (String.eqb_spec "items" k); [congruence | reflexivity].
Qed.

(** ** Two ways to format an item *)

(** X9: [get_article_cv_item] builds a dictionary without the key
    [is_active], with [scheme] set to the given scheme and every other key as
    in the item; and it builds what [format_item] of [get_items] makes of the
    same item in place (for an item with distinct keys). *)
Theorem get_article_cv_item_formats (item : dict) (scheme : value) :
  dict_has "is_active" (get_article_cv_item item scheme) = false /\
  dict_get "scheme" (get_article_cv_item item scheme) = scheme /\
  (forall k, k <> "is_active" -> k <> "scheme" ->
             assoc_get k (get_article_cv_item item scheme) = assoc_get k item) /\
  (forall _id, scheme = VStr _id -> List.NoDup (map fst item) ->
               format_item _id (VDict item) = Ok (VDict (get_article_cv_item item scheme))).
Proof.
  unfold get_article_cv_item. fold (without_flag item).
  change (dict_update (without_flag item) [("scheme", scheme)])
    with (dict_set "scheme" scheme (without_flag item)).
  split; [|split; [|split]].
  - unfold dict_has. rewrite assoc_get_dict_set, assoc_get_without_flag. reflexivity.
  - apply dict_get_dict_set.
  - intros k H1 H2. rewrite assoc_get_dict_set, assoc_get_without_flag.
    destruct (String.eqb_spec "scheme" k); [congruence|].
    destruct (String.eqb_spec k "is_active"); [congruence | reflexivity].
  - intros _id -> Hnd. unfold format_item. rewrite dict_del_as_without_flag by assumption.
    reflexivity.
Qed.

(** ** Two readers of the activity flag *)

Lemma flag_is_true_active (d : dict) : boolean_flag d -> flag_is true d = active d.
Proof.
  unfold boolean_flag, flag_is, active, dict_get_default. intros Hb.
  destruct (assoc_get "is_active" d) as [v|]; [|reflexivity].
  destruct (Hb v eq_refl) as [b ->]. destruct b; reflexivity.
Qed.

(** X10: for a stored vocabulary whose items have distinct keys and boolean
    flags, [get_items] with [is_active=True] returns the items that
    [_filter_inactive_vocabularies] keeps, in the same order, each with
    [scheme] set to the vocabulary id. *)
Theorem get_items_agrees_with_filter (regex_search_i : string -> string -> bool)
    (_id : string) (st : store) (doc : dict) (ds : list dict) :
  find_one [("_id", VStr _id)] st = Some doc ->
  assoc_get "items" doc = Some (VList (map VDict ds)) ->
  Forall (fun d => List.NoDup (map fst d) /\ boolean_flag d) ds ->
  exists kept,
    _filter_inactive_vocabularies doc = Ok (dict_set "items" (VList (map VDict kept)) doc) /\
    get_items regex_search_i _id None (Some true) None None st
    = Ok (map (fun d => VDict (dict_set "scheme" (VStr _id) d)) kept).
Proof.
  intros Hf Hi Hwf. exists (active_items ds). split; [apply filter_inactive_run; exact Hi|].
  rewrite (get_items_found _ _ _ _ _ Hf), Hi. unfold_monad. simpl.
  rewrite filter_result_dicts, traverse_format_dicts. f_equal.
  unfold active_items. rewrite !map_map. clear Hi.
  induction Hwf as [|d r [Hnd Hb] _ IH]; simpl; [reflexivity|].
  rewrite (flag_is_true_active d Hb). destruct (active d); simpl; [|exact IH].
  unfold formatted. rewrite dict_del_as_without_flag by assumption. f_equal. exact IH.
Qed.


Lemma filter_inactive_is_idempotent_witness :
  _filter_inactive_vocabularies languages_vocabulary
  = Ok [("_id", VStr "languages"); ("items", VList [VDict [("name", VStr "English")]])] /\
  _filter_inactive_vocabularies
    [("_id", VStr "languages"); ("items", VList [VDict [("name", VStr "English")]])]
  = Ok [("_id", VStr "languages"); ("items", VList [VDict [("name", VStr "English")]])].
Proof.
  destruct (filter_inactive_is_idempotent languages_vocabulary language_items eq_refl)
    as (H1 & H2 & _).
  split; [exact H1 | exact H2].
Defined.

Lemma get_items_agrees_with_filter_witness :
  exists kept,
    _filter_inactive_vocabularies languages_vocabulary
    = Ok (dict_set "items" (VList (map VDict kept)) languages_vocabulary) /\
    get_items (fun _ _ => false) "languages" None (Some true) None None languages_store
    = Ok (map (fun d => VDict (dict_set "scheme" (VStr "languages") d)) kept).
Proof.
  apply (get_items_agrees_with_filter (fun _ _ => false) "languages" languages_store
           languages_vocabulary language_items); [reflexivity | reflexivity |].
  repeat constructor;
    first [ intros v H; vm_compute in H; injection H as <-; eexists; reflexivity
          | simpl; intros H; repeat (destruct H as [H|H]; try discriminate H); auto ].
Defined.

(** ** What get_items can return *)

Lemma filter_result_sublist {A} (p : A -> result bool) (xs ys : list A) :
  filter_result p xs = Ok ys -> sublist ys xs.
Proof.
  revert ys. induction xs as [|x r IH]; cbn [filter_result]; intros ys H.
  - injection H as <-. constructor.
  - unfold_monad. destruct (p x) as [b|]; [|discriminate].
    destruct (filter_result p r) as [zs|]; [|discriminate]. injection H as <-.
    destruct b; [apply sublist_skip | apply sublist_cons]; apply IH; reflexivity.
Qed.

Lemma traverse_format_ok _id (ys out : list value) :
  traverse (format_item _id) ys = Ok out ->
  exists src, ys = map VDict src /\ out = map (fun d => VDict (formatted _id d)) src.
Proof.
  revert out. induction ys as [|y r IH]; cbn [traverse]; intros out H.
  - injection H as <-. exists []. split; reflexivity.
  - unfold_monad. destruct y as [ |b|n|s|l|d]; cbn [format_item] in H; try discriminate H.
    destruct (traverse (format_item _id) r) as [zs|]; [|discriminate]. injection H as <-.
    destruct (IH zs eq_refl) as (src & -> & ->). exists (d :: src). split; reflexivity.
Qed.

Lemma filter_is_active_ok b (xs ys : list value) :
  filter_result (is_active_is b) xs = Ok ys -> exists ds, xs = map VDict ds.
Proof.
  revert ys. induction xs as [|x r IH]; cbn [filter_result]; intros ys H.
  - exists []. reflexivity.
  - unfold_monad. destruct (is_active_is b x) as [c|] eqn:E; [|discriminate].
    destruct (filter_result (is_active_is b) r) as [zs|]; [|discriminate].
    destruct (IH zs eq_refl) as (ds & ->).
    destruct x as [ |b'|n|s|l|d]; try discriminate E. exists (d :: ds). reflexivity.
Qed.

Lemma no_dict_among_chars s (ds : list dict) : chars s = map VDict ds -> ds = [].
Proof. destruct s, ds; try reflexivity; discriminate. Qed.

Lemma no_dict_among_keys (d : dict) (ds : list dict) :
  map (fun kv => VStr kv.1) d = map VDict ds -> ds = [].
Proof. destruct d, ds; try reflexivity; discriminate. Qed.

(** The body of [get_items] once the record is fetched. *)
Lemma get_items_of_record _id is_active (items : value) (out : list value) :
  (items ← match is_active with
           | Some b => xs ← py_iter items; filter_result (is_active_is b) xs
           | None => py_iter items
           end;
   traverse (format_item _id) items) = Ok out ->
  out = [] \/
  exists xs src, items = VList xs /\ sublist (map VDict src) xs /\
                 out = map (fun d => VDict (formatted _id d)) src.
Proof.
  unfold_monad. intros H.
  assert (Hiter : forall ys, py_iter items = Ok ys ->
            (exists ds, ys = map VDict ds) -> ys = [] \/ items = VList ys).
  { intros ys Hy [ds ->]. destruct items; try discriminate Hy; cbn [py_iter] in Hy.
    - injection Hy as Hy. apply no_dict_among_chars in Hy as ->. left. reflexivity.
    - injection Hy as ->. right. reflexivity.
    - injection Hy as Hy. apply no_dict_among_keys in Hy as ->. left. reflexivity. }
  destruct is_active as [b|].
  - destruct (py_iter items) as [ys|] eqn:Hy; [|discriminate].
    destruct (filter_result (is_active_is b) ys) as [zs|] eqn:Hz; [|discriminate].
    pose proof (filter_result_sublist _ _ _ Hz) as Hsub.
    destruct (traverse_format_ok _ _ _ H) as (src & -> & ->).
    destruct (Hiter ys eq_refl (filter_is_active_ok _ _ _ Hz)) as [-> | ->].
    + apply sublist_nil_r in Hsub. destruct src; [|discriminate]. left. reflexivity.
    + right. exists ys, src. auto.
  - destruct (py_iter items) as [ys|] eqn:Hy; [|discriminate].
    destruct (traverse_format_ok _ _ _ H) as (src & -> & ->).
    destruct (Hiter _ eq_refl (ex_intro _ src eq_refl)) as [E | ->].
    + destruct src; [|discriminate]. left. reflexivity.
    + right. exists (map VDict src), src. auto.
Qed.

Lemma em_set_nonempty k c (em : elem_match) : em_set k c em <> [].
Proof. destruct em as [|[k' c'] r]; cbn [em_set]; [|destruct (String.eqb k' k)]; discriminate. Qed.

Lemma get_items_of_cursor regex_search_i _id (em : elem_match) is_active st out :
  match get_from_mongo regex_search_i [("_id", VStr _id)] em st with
  | [] => Ok []
  | doc :: _ =>
      match assoc_get "items" doc with
      | None => Ok []
      | Some items =>
          items ← match is_active with
                  | Some b => xs ← py_iter items; filter_result (is_active_is b) xs
                  | None => py_iter items
                  end;
          traverse (format_item _id) items
      end
  end = Ok out ->
  out = [] \/
  exists doc xs src,
    find_one [("_id", VStr _id)] st = Some doc /\
    assoc_get "items" doc = Some (VList xs) /\
    sublist (map VDict src) xs /\
    out = map (fun d => VDict (formatted _id d)) src /\
    (em <> [] -> length src <= 1).
Proof.
  unfold get_from_mongo, find_one. rewrite find_filter_head.
  destruct (List.filter _ st) as [|doc rest]; cbn [map].
  - intros H. injection H as <-. left. reflexivity.
  - destruct em as [|kc em'].
    + cbn [project]. destruct (assoc_get "items" doc) as [items|] eqn:Hi.
      * intros H. apply get_items_of_record in H as [-> | (xs & src & -> & Hsub & ->)];
          [left; reflexivity|].
        right. exists doc, xs, src. repeat split; auto. congruence.
      * intros H. injection H as <-. left. reflexivity.
    + set (em := kc :: em'). unfold project. fold em.
      change (match em with [] => doc | _ :: _ => ?x end) with x.
      unfold dict_get.
      set (id_part := match assoc_get "_id" doc with
                      | Some i => [("_id", i)]
                      | None => []
                      end).
      assert (Hid : assoc_get "items" id_part = None).
      { unfold id_part. destruct (assoc_get "_id" doc); reflexivity. }
      assert (Hid' : forall v, assoc_get "items" (id_part ++ [("items", v)]) = Some v).
      { intros v. unfold id_part. destruct (assoc_get "_id" doc); reflexivity. }
      destruct (assoc_get "items" doc) as [items|] eqn:Hi;
        [|rewrite Hid; intros H; injection H as <-; left; reflexivity].
      destruct items as [| | | |xs|];
        try (rewrite Hid; intros H; injection H as <-; left; reflexivity).
      destruct (List.find (item_matches regex_search_i em) xs) as [x|] eqn:Hx;
        [|rewrite Hid; intros H; injection H as <-; left; reflexivity].
      rewrite Hid'. intros H.
      apply get_items_of_record in H as [-> | (ys & src & Hy & Hsub & ->)];
        [left; reflexivity|].
      injection Hy as <-. right. exists doc, xs, src.
      apply sublist_length in Hsub as Hlen. rewrite length_map in Hlen. cbn [length] in Hlen.
      repeat split; auto.
      apply List.find_some in Hx as [Hin _].
      transitivity [x]; [exact Hsub|].
      apply list_elem_of_In in Hin. apply singleton_sublist_l. exact Hin.
Qed.

(** X11: whatever its parameters, [get_items] returns only formatted copies
    of items stored in the first vocabulary with the given id: the result is
    empty, or it is a sub-sequence of that vocabulary's items, in their
    stored order, each with [is_active] removed and [scheme] set to the id;
    with a non-empty [qcode] or [name] it has at most one item. *)
Theorem get_items_returns_stored_items (regex_search_i : string -> string -> bool)
    (_id : string) (qcode : option string) (is_active : option bool)
    (name lang : option string) (st : store) (out : list value) :
  get_items regex_search_i _id qcode is_active name lang st = Ok out ->
  out = [] \/
  exists doc xs src,
    find_one [("_id", VStr _id)] st = Some doc /\
    assoc_get "items" doc = Some (VList xs) /\
    sublist (map VDict src) xs /\
    out = map (fun d => VDict (formatted _id d)) src /\
    (nonempty qcode <> None \/ nonempty name <> None -> length src <= 1).
Proof.
  unfold get_items. intros H.
  apply get_items_of_cursor in H as [-> | (doc & xs & src & H1 & H2 & H3 & H4 & H5)];
    [left; reflexivity|].
  right. exists doc, xs, src. repeat split; auto.
  intros Hne. apply H5.
  destruct (nonempty name) as [n|]; [destruct (nonempty lang); apply em_set_nonempty|].
  destruct (nonempty qcode) as [q|]; [apply em_set_nonempty|].
  destruct Hne as [Hne | Hne]; contradiction.
Qed.


Lemma get_items_returns_stored_items_witness :
  [VDict [("name", VStr "English"); ("scheme", VStr "languages")]] = [] \/
  exists doc xs src,
    find_one [("_id", VStr "languages")] languages_store = Some doc /\
    assoc_get "items" doc = Some (VList xs) /\
    sublist (map VDict src) xs /\
    [VDict [("name", VStr "English"); ("scheme", VStr "languages")]]
    = map (fun d => VDict (formatted "languages" d)) src /\
    (nonempty None <> None \/ nonempty (Some "English") <> None -> length src <= 1).
Proof.
  apply (get_items_returns_stored_items
           (fun pattern subject => String.eqb pattern ("^" +:+ subject +:+ "$"))
           "languages" None (Some true) (Some "English") None languages_store).
  vm_compute. reflexivity.
Defined.


(** ** Casting the items *)

Lemma dict_set_same k v (d : dict) : assoc_get k d = Some v -> dict_set k v d = d.
Proof.
  induction d as [|[k0 v0] r IH]; cbn [assoc_get dict_set]; [discriminate|].
  destruct (String.eqb k0 k); intros H.
  - injection H as ->. reflexivity.
  - rewrite IH by assumption. reflexivity.
Qed.

Lemma keys_dict_set k v (d : dict) :
  dict_has k d = true -> map fst (dict_set k v d) = map fst d.
Proof.
  unfold dict_has. induction d as [|[k0 v0] r IH]; cbn [assoc_get dict_set]; [discriminate|].
  destruct (String.eqb k0 k); intros H; cbn [map fst]; [reflexivity|].
  rewrite IH by assumption. reflexivity.
Qed.

Lemma assoc_get_in_keys {A} k (l : list (string * A)) :
  In k (map fst l) -> exists v, assoc_get k l = Some v.
Proof.
  induction l as [|[k0 v0] r IH]; cbn [map fst In assoc_get]; [prop_tauto|].
  intros H. destruct (String.eqb_spec k0 k) as [->|Hne]; [eauto|].
  destruct H as [H|H]; [contradiction | auto].
Qed.

Lemma dict_has_by_keys k (d d' : dict) :
  map fst d' = map fst d -> dict_has k d' = dict_has k d.
Proof.
  intros Hk. unfold dict_has.
  destruct (assoc_get k d) as [v|] eqn:E, (assoc_get k d') as [v'|] eqn:E'; try reflexivity.
  - destruct (in_dec String.string_dec k (map fst d)) as [Hin|Hout].
    + rewrite <- Hk in Hin. apply assoc_get_in_keys in Hin as [x Hx]. congruence.
    + apply assoc_get_not_in in Hout. congruence.
  - destruct (in_dec String.string_dec k (map fst d')) as [Hin|Hout].
    + rewrite Hk in Hin. apply assoc_get_in_keys in Hin as [x Hx]. congruence.
    + apply assoc_get_not_in in Hout. congruence.
Qed.

Section CastLemmas.
Variable serialize_value : string -> value -> result value.

Lemma cast_item_dict (schema : list (string * string)) (d : dict) (out : value) :
  List.NoDup (map fst schema) ->
  cast_item serialize_value schema (VDict d) = Ok out ->
  exists d', out = VDict d' /\ cast_of serialize_value schema d d'.
Proof.
  revert d. induction schema as [|[field type] rest IH]; intros d Hnd; cbn [cast_item].
  - intros H. injection H as <-. exists d. split; [reflexivity|].
    split; [reflexivity|]. split; [reflexivity|]. intros k t v [].
  - cbn [map fst] in Hnd. inversion Hnd as [|? ? Hout Hnd']; subst.
    unfold_monad. cbn [py_contains py_getitem py_setitem]. unfold dict_has.
    destruct (assoc_get field d) as [v|] eqn:Hv.
    + destruct (serialize_value type v) as [v'|] eqn:Hs; [|discriminate].
      cbn [py_setitem]. intros H. apply IH in H as (d' & -> & Hk & Hsame & Hcast); [|exact Hnd'].
      exists d'. split; [reflexivity|]. split; [|split].
      * rewrite Hk. apply keys_dict_set. unfold dict_has. rewrite Hv. reflexivity.
      * intros k Hk'. cbn [map fst In] in Hk'. rewrite Hsame by prop_tauto.
        rewrite assoc_get_dict_set. destruct (String.eqb_spec field k); [prop_tauto | reflexivity].
      * intros k t x [Hin|Hin] Hx.
        -- injection Hin as <- <-. rewrite Hv in Hx. injection Hx as <-.
           exists v'. split; [exact Hs|]. rewrite Hsame by exact Hout.
           rewrite assoc_get_dict_set, String.eqb_refl. reflexivity.
        -- apply (Hcast k t x Hin). rewrite assoc_get_dict_set.
           destruct (String.eqb_spec field k) as [<-|]; [|exact Hx].
           exfalso. apply Hout. apply in_map_iff. exists (field, t). auto.
    + intros H. apply IH in H as (d' & -> & Hk & Hsame & Hcast); [|exact Hnd'].
      exists d'. split; [reflexivity|]. split; [exact Hk|]. split.
      * intros k Hk'. cbn [map fst In] in Hk'. apply Hsame. prop_tauto.
      * intros k t x [Hin|Hin] Hx; [|exact (Hcast k t x Hin Hx)].
        injection Hin as <- <-. congruence.
Qed.

Lemma traverse_cast_dicts (schema : list (string * string)) (ds : list dict)
    (out : list value) :
  List.NoDup (map fst schema) ->
  traverse (cast_item serialize_value schema) (map VDict ds) = Ok out ->
  exists ds', out = map VDict ds' /\ Forall2 (cast_of serialize_value schema) ds ds'.
Proof.
  intros Hnd. revert out. induction ds as [|d r IH]; cbn [map traverse]; intros out H.
  - injection H as <-. exists []. split; [reflexivity | constructor].
  - unfold_monad. destruct (cast_item serialize_value schema (VDict d)) as [y|] eqn:Hy;
      [|discriminate].
    destruct (traverse _ (map VDict r)) as [ys|]; [|discriminate]. injection H as <-.
    apply cast_item_dict in Hy as (d' & -> & Hd); [|exact Hnd].
    destruct (IH ys eq_refl) as (ds' & -> & Hr).
    exists (d' :: ds'). split; [reflexivity | constructor; assumption].
Qed.

Lemma traverse_cast_nothing (xs : list value) :
  traverse (cast_item serialize_value []) xs = Ok xs.
Proof.
  induction xs as [|x r IH]; cbn [traverse]; [reflexivity|].
  unfold_monad. rewrite IH. reflexivity.
Qed.

Lemma vocab_schema_get_keys (id : value) (schema : list (string * string)) :
  vocab_schema_get id = Ok schema -> List.NoDup (map fst schema).
Proof.
  unfold vocab_schema_get, vocab_schema. intros H.
  assert (Hs : schema = [] \/ schema = [("width", "integer"); ("height", "integer")]).
  { destruct id as [ |b|n|s|l|d]; try discriminate H.
    4: { cbn [assoc_get] in H.
         destruct (String.eqb "crop_sizes" s); cbn [default] in H; injection H as <-; auto. }
    all: injection H as <-; auto. }
  destruct Hs as [-> | ->]; cbn [map fst].
  - constructor.
  - repeat constructor; cbn [In]; intros F; repeat (destruct F as [F|F]; try discriminate F);
      auto.
Qed.

(** X12: [_cast_items] changes nothing in a vocabulary whose id is a string
    other than [crop_sizes] (the one id with a registered typed schema) and
    whose [items], when present, is a list: the vocabulary comes back as it
    was, whatever [serialize_value] would do. *)
Theorem cast_items_leaves_other_vocabularies (vocab : dict) (id : string) :
  assoc_get "_id" vocab = Some (VStr id) ->
  id <> "crop_sizes" ->
  (forall v, assoc_get "items" vocab = Some v -> exists xs, v = VList xs) ->
  _cast_items serialize_value vocab = Ok vocab.
Proof.
  intros Hid Hne Hitems. unfold _cast_items, dict_get, dict_get_default, dict_has.
  rewrite Hid. unfold vocab_schema_get, vocab_schema. cbn [assoc_get].
  destruct (String.eqb_spec "crop_sizes" id) as [E|_]; [congruence|].
  cbn [default]. unfold_monad.
  destruct (assoc_get "items" vocab) as [v|] eqn:Hv.
  - destruct (Hitems v eq_refl) as [xs ->]. cbn [py_iter].
    rewrite traverse_cast_nothing, dict_set_same by assumption. reflexivity.
  - reflexivity.
Qed.

(** X13: on the [crop_sizes] vocabulary with dictionary items, a successful
    [_cast_items] replaces the items one for one: each keeps its keys in
    their order and every field other than [width] and [height], and each
    [width] and [height] it has is replaced by what [serialize_value] makes
    of it as an [integer]; nothing but [items] changes in the vocabulary. *)
Theorem cast_items_crop_sizes (vocab vocab' : dict) (ds : list dict) :
  assoc_get "_id" vocab = Some (VStr "crop_sizes") ->
  assoc_get "items" vocab = Some (VList (map VDict ds)) ->
  _cast_items serialize_value vocab = Ok vocab' ->
  exists ds',
    vocab' = dict_set "items" (VList (map VDict ds')) vocab /\
    Forall2 (fun d d' =>
               map fst d' = map fst d /\
               (forall k, k <> "width" -> k <> "height" -> assoc_get k d' = assoc_get k d) /\
               (forall k v, k = "width" \/ k = "height" -> assoc_get k d = Some v ->
                            exists v', serialize_value "integer" v = Ok v' /\
                                       assoc_get k d' = Some v')) ds ds'.
Proof.
  intros Hid Hitems. unfold _cast_items, dict_get, dict_get_default, dict_has.
  rewrite Hid, Hitems. unfold_monad.
  change (vocab_schema_get (VStr "crop_sizes"))
    with (Ok [("width", "integer"); ("height", "integer")] : result (list (string * string))).
  cbn [py_iter]. intros H.
  destruct (traverse _ (map VDict ds)) as [out|] eqn:Ht; [|discriminate]. injection H as <-.
  apply traverse_cast_dicts in Ht as (ds' & -> & Hall).
  - exists ds'. split; [reflexivity|].
    eapply Forall2_impl; [exact Hall|]. intros d d' (Hk & Hsame & Hcast).
    split; [exact Hk|]. split.
    + intros k H1 H2. apply Hsame. cbn [map fst In]. intros [F|[F|[]]]; congruence.
    + intros k v [-> | ->] Hv; [apply (Hcast "width" "integer" v) | apply (Hcast "height" "integer" v)];
        cbn [In]; auto.
  - repeat constructor; cbn [In]; intros F; repeat (destruct F as [F|F]; try discriminate F);
      auto.
Qed.

(** ** What a fetch returns *)

Lemma filter_inactive_ok (item item' : dict) :
  _filter_inactive_vocabularies item = Ok item' ->
  exists ds, item' = dict_set "items" (VList (map VDict ds)) item /\ Forall flagless ds.
Proof.
  unfold _filter_inactive_vocabularies. unfold_monad. intros H.
  destruct (py_getitem (VDict item) "items") as [vocs|]; [|discriminate].
  destruct (py_iter vocs) as [xs|]; [|discriminate].
  destruct (filter_result _ xs) as [kept|]; [|discriminate].
  match type of H with
  | match traverse ?f kept with _ => _ end = _ =>
      assert (Ht : forall l out, traverse f l = Ok out ->
                exists ds, out = map VDict ds /\ Forall flagless ds)
  end.
  { clear. induction l as [|x r IH]; cbn [traverse]; intros out H.
    - injection H as <-. exists []. split; [reflexivity | constructor].
    - unfold_monad. destruct x as [ |b|n|s|l|d]; try discriminate H.
      destruct (traverse _ r) as [ys|]; [|discriminate]. injection H as <-.
      destruct (IH ys eq_refl) as (ds & -> & Hds).
      exists (without_flag d :: ds). split; [reflexivity|]. constructor; [|exact Hds].
      unfold flagless, dict_has. rewrite assoc_get_without_flag. reflexivity. }
  destruct (traverse _ kept) as [out|] eqn:E; [|discriminate]. injection H as <-.
  destruct (Ht kept out E) as (ds & -> & Hds). exists ds. auto.
Qed.

Lemma on_fetched_item_ok (doc doc' : dict) :
  on_fetched_item serialize_value doc = Ok doc' ->
  exists ds, assoc_get "items" doc' = Some (VList (map VDict ds)) /\ Forall flagless ds.
Proof.
  unfold on_fetched_item. unfold_monad. intros H.
  destruct (_filter_inactive_vocabularies doc) as [doc1|] eqn:Hf; [|discriminate].
  apply filter_inactive_ok in Hf as (ds & -> & Hds).
  unfold _cast_items, dict_get_default, dict_has in H. unfold_monad.
  rewrite !assoc_get_dict_set, String.eqb_refl in H.
  destruct (vocab_schema_get _) as [schema|] eqn:Hs; [|discriminate].
  apply vocab_schema_get_keys in Hs. cbn [py_iter] in H.
  destruct (traverse _ (map VDict ds)) as [out|] eqn:Ht; [|discriminate]. injection H as <-.
  apply traverse_cast_dicts in Ht as (ds' & -> & Hall); [|exact Hs].
  exists ds'. split.
  - rewrite assoc_get_dict_set, String.eqb_refl. reflexivity.
  - clear -Hds Hall. induction Hall as [|d d' r r' (Hk & _) _ IH]; [constructor|].
    inversion Hds; subst. constructor; [|auto].
    unfold flagless. rewrite (dict_has_by_keys _ d d' Hk). assumption.
Qed.

(** X14: when [on_fetched_item] returns, the document's [items] is a list of
    dictionaries none of which has the key [is_active], whatever the casts
    did. *)
Theorem on_fetched_item_strips_flags (doc doc' : dict) :
  on_fetched_item serialize_value doc = Ok doc' ->
  exists ds, assoc_get "items" doc' = Some (VList (map VDict ds)) /\
             Forall (fun d => dict_has "is_active" d = false) ds.
Proof. exact (on_fetched_item_ok doc doc'). Qed.

(** X15: when [on_fetched] returns for a request whose [where] asks for
    [type] [manageable], the listing is as it was, flags included; for every
    other request each record of the listing is a dictionary whose [items]
    are dictionaries without [is_active], and nothing but the listing
    changes. *)
Theorem on_fetched_by_request (where_clause : option value) (doc doc' : dict) :
  on_fetched serialize_value where_clause doc = Ok doc' ->
  (manageable_query where_clause = true -> doc' = doc) /\
  (manageable_query where_clause = false ->
   (forall records, assoc_get ITEMS doc' = Some (VList records) -> Forall stripped records) /\
   (forall k, k <> ITEMS -> assoc_get k doc' = assoc_get k doc)).
Proof.
  unfold on_fetched. unfold_monad. intros H.
  assert (Hm : match where_clause with
               | Some w => match py_get w "type" with
                           | Ok t => Ok (py_eq t (VStr "manageable"))
                           | Raise e => Raise e
                           end
               | None => Ok false
               end = Ok (manageable_query where_clause)).
  { destruct where_clause as [w|]; [|reflexivity].
    destruct w as [ |b|n|s|l|d]; try discriminate H. reflexivity. }
  rewrite Hm in H. destruct (manageable_query where_clause).
  - split; [|discriminate]. intros _. injection H as <-. reflexivity.
  - split; [discriminate|]. intros _.
    destruct (py_getitem (VDict doc) ITEMS) as [listing|] eqn:Hl; [|discriminate].
    cbn [py_getitem] in Hl.
    destruct (assoc_get ITEMS doc) as [x|] eqn:Hx; [|discriminate]. injection Hl as ->.
    destruct (py_iter listing) as [xs|] eqn:Hxs; [|discriminate].
    match type of H with
    | match traverse ?f xs with _ => _ end = _ =>
        assert (Ht : forall l out, traverse f l = Ok out -> Forall stripped out)
    end.
    { clear. induction l as [|x r IH]; cbn [traverse]; intros out H.
      - injection H as <-. constructor.
      - unfold_monad. destruct x as [ |b|n|s|l|d]; try discriminate H.
        destruct (on_fetched_item serialize_value d) as [d'|] eqn:Hd; [|discriminate].
        destruct (traverse _ r) as [ys|]; [|discriminate]. injection H as <-.
        constructor; [|apply IH; reflexivity].
        apply on_fetched_item_ok in Hd as (ds & H1 & H2). exists d', ds. auto. }
    destruct (traverse _ xs) as [out|] eqn:E; [|discriminate]. injection H as <-.
    apply Ht in E. destruct listing as [ |b|n|s|l|d].
    all: split; [intros records Hr | intros k Hk].
    all: try (rewrite Hx in Hr; discriminate Hr).
    all: try reflexivity.
    + rewrite assoc_get_dict_set, String.eqb_refl in Hr. injection Hr as <-. exact E.
    + rewrite assoc_get_dict_set. destruct (String.eqb_spec ITEMS k); [congruence | reflexivity].
Qed.

End CastLemmas.

Lemma cast_items_leaves_other_vocabularies_witness :
  _cast_items read_numeral languages_vocabulary = Ok languages_vocabulary.
Proof.
  apply (cast_items_leaves_other_vocabularies read_numeral languages_vocabulary "languages").
  - reflexivity.
  - discriminate.
  - intros v H. vm_compute in H. injection H as <-. eexists. reflexivity.
Defined.

Lemma cast_items_crop_sizes_witness :
  exists ds',
    [ ("_id", VStr "crop_sizes");
      ("items", VList [VDict [ ("name", VStr "4-3"); ("width", VInt 800);
                               ("height", VInt 600) ]]) ]
    = dict_set "items" (VList (map VDict ds')) crop_sizes /\
    Forall2 (fun d d' =>
               map fst d' = map fst d /\
               (forall k, k <> "width" -> k <> "height" -> assoc_get k d' = assoc_get k d) /\
               (forall k v, k = "width" \/ k = "height" -> assoc_get k d = Some v ->
                            exists v', read_numeral "integer" v = Ok v' /\
                                       assoc_get k d' = Some v'))
            [ [ ("name", VStr "4-3"); ("width", VStr "800"); ("height", VInt 600) ] ] ds'.
Proof.
  apply (cast_items_crop_sizes read_numeral crop_sizes); reflexivity.
Defined.

Lemma on_fetched_item_strips_flags_witness :
  exists ds,
    assoc_get "items"
      [("_id", VStr "languages"); ("items", VList [VDict [("name", VStr "English")]])]
    = Some (VList (map VDict ds)) /\
    Forall (fun d => dict_has "is_active" d = false) ds.
Proof.
  apply (on_fetched_item_strips_flags read_numeral languages_vocabulary). reflexivity.
Defined.

Lemma on_fetched_by_request_witness :
  (manageable_query None = true ->
   [("_items", VList [VDict [("_id", VStr "languages");
                             ("items", VList [VDict [("name", VStr "English")]])]])]
   = languages_listing) /\
  (manageable_query None = false ->
   (forall records,
      assoc_get ITEMS
        [("_items", VList [VDict [("_id", VStr "languages");
                                  ("items", VList [VDict [("name", VStr "English")]])]])]
      = Some (VList records) -> Forall stripped records) /\
   (forall k, k <> ITEMS ->
      assoc_get k
        [("_items", VList [VDict [("_id", VStr "languages");
                                  ("items", VList [VDict [("name", VStr "English")]])]])]
      = assoc_get k languages_listing)).
Proof.
  apply (on_fetched_by_request read_numeral None languages_listing). reflexivity.
Defined.


(** ** Replacing a vocabulary *)

(** X16: [on_replace] never touches the store or the notifications.  When
    it returns, the document passed validation and is the validated document
    with the two time stamps set: the last update is the current time, the
    creation time is the original's when the original has one and the current
    time otherwise (the two configured keys being different).  When it
    raises, the error is the validation's, or the [KeyError] of a document
    without [_id]. *)
Theorem on_replace_stamps (LAST_UPDATED DATE_CREATED : string) (now_updated now_created : value)
    (document : dict) (original : option dict) (w : world) :
  LAST_UPDATED <> DATE_CREATED ->
  let run := on_replace LAST_UPDATED DATE_CREATED now_updated now_created document original w in
  run.2 = w /\
  match run.1 with
  | Ok document' =>
      (validate (docs w) document).1 = Ok tt /\
      dict_get LAST_UPDATED document' = now_updated /\
      dict_get DATE_CREATED document' = creation_time DATE_CREATED original now_created /\
      (forall k, k <> LAST_UPDATED -> k <> DATE_CREATED ->
                 assoc_get k document' = assoc_get k (default_unique_field document))
  | Raise e =>
      (validate (docs w) document).1 = Raise e \/
      (e = KeyError "_id" /\ dict_has "_id" document = false)
  end.
Proof.
  intros Hne run. subst run. unfold on_replace. unfold_monad. rewrite validate_doc_run.
  destruct (validate (docs w) document).1 as [[]|e]; cbn [fst snd]; [|auto].
  assert (Hc : match original with
               | Some ((_ :: _) as o) => dict_get_default DATE_CREATED now_created o
               | _ => now_created
               end = creation_time DATE_CREATED original now_created).
  { destruct original as [[|kv o]|]; reflexivity. }
  rewrite Hc. set (created := creation_time DATE_CREATED original now_created).
  set (document' := dict_set DATE_CREATED created
                      (dict_set LAST_UPDATED now_updated (default_unique_field document))).
  assert (Hother : forall k, k <> LAST_UPDATED -> k <> DATE_CREATED ->
                     assoc_get k document' = assoc_get k (default_unique_field document)).
  { intros k H1 H2. unfold document'. rewrite !assoc_get_dict_set.
    destruct (String.eqb_spec DATE_CREATED k); [congruence|].
    destruct (String.eqb_spec LAST_UPDATED k); [congruence | reflexivity]. }
  cbn [py_getitem]. destruct (assoc_get "_id" document') as [i|] eqn:Hid; cbn [fst snd].
  - split; [reflexivity|]. split; [reflexivity|]. split; [|split; [|exact Hother]].
    + unfold document', dict_get. rewrite !assoc_get_dict_set.
      destruct (String.eqb_spec DATE_CREATED LAST_UPDATED); [congruence|].
      rewrite String.eqb_refl. reflexivity.
    + unfold document'. apply dict_get_dict_set.
  - split; [reflexivity|]. right. split; [reflexivity|].
    assert (H1 : "_id" <> LAST_UPDATED).
    { intros <-. unfold document' in Hid. rewrite !assoc_get_dict_set in Hid.
      rewrite String.eqb_refl in Hid. destruct (String.eqb DATE_CREATED "_id"); discriminate. }
    assert (H2 : "_id" <> DATE_CREATED).
    { intros <-. unfold document' in Hid. rewrite assoc_get_dict_set, String.eqb_refl in Hid.
      discriminate. }
    rewrite (Hother "_id" H1 H2) in Hid. unfold dict_has.
    rewrite <- (assoc_get_default_unique_field "_id") by discriminate.
    rewrite Hid. reflexivity.
Qed.

Lemma on_replace_stamps_witness :
  (on_replace "_updated" "_created" (VInt 2) (VInt 3) fine_doc
     (Some [("_id", VStr "genre"); ("_created", VInt 1)]) (World [] [])).2 = World [] [] /\
  match (on_replace "_updated" "_created" (VInt 2) (VInt 3) fine_doc
           (Some [("_id", VStr "genre"); ("_created", VInt 1)]) (World [] [])).1 with
  | Ok document' =>
      (validate [] fine_doc).1 = Ok tt /\
      dict_get "_updated" document' = VInt 2 /\
      dict_get "_created" document' = VInt 1 /\
      (forall k, k <> "_updated" -> k <> "_created" ->
                 assoc_get k document' = assoc_get k (default_unique_field fine_doc))
  | Raise e =>
      (validate [] fine_doc).1 = Raise e \/
      (e = KeyError "_id" /\ dict_has "_id" fine_doc = false)
  end.
Proof.
  apply (on_replace_stamps "_updated" "_created" (VInt 2) (VInt 3) fine_doc
           (Some [("_id", VStr "genre"); ("_created", VInt 1)]) (World [] [])).
  discriminate.
Defined.

(** ** Related content *)

Lemma before_dashes_append (a b : string) :
  hyphen_free a = true -> before_dashes (a +:+ "--" +:+ b) = a.
Proof.
  unfold hyphen_free. induction a as [|c r IH]; intros H.
  - destruct b; reflexivity.
  - cbn [list_ascii_of_string forallb] in H. apply andb_prop in H as [Hc Hr].
    change (String c r +:+ "--" +:+ b) with (String c (r +:+ "--" +:+ b)).
    cbn [before_dashes String.prefix].
    destruct (Ascii.ascii_dec "-"%char c) as [<-|Hd]; [discriminate Hc|].
    rewrite IH by exact Hr. reflexivity.
Qed.

Lemma traverse_ids (contents : list dict) :
  Forall (fun c => dict_has "_id" c = true) contents ->
  traverse (fun content => py_getitem content "_id") (map VDict contents)
  = Ok (map (dict_get "_id") contents).
Proof.
  induction 1 as [|c r Hc _ IH]; cbn [map traverse]; [reflexivity|].
  unfold_monad. rewrite IH. cbn [py_getitem]. unfold dict_has, dict_get in *.
  destruct (assoc_get "_id" c); [reflexivity | discriminate].
Qed.

(** X17: a field name made of a vocabulary id without hyphens, two hyphens
    and any suffix is related content exactly when a vocabulary with that id
    is among the related-content vocabularies: those given or, by default,
    the stored vocabularies whose [field_type] is [related_content] (each of
    them having an [_id]). *)
Theorem is_related_content_by_prefix (id suffix : string) (given : option (list dict))
    (st : store) :
  hyphen_free id = true ->
  let related := match given with
                 | Some l => l
                 | None => find_all [("field_type", VStr "related_content")] st
                 end in
  Forall (fun c => dict_has "_id" c = true) related ->
  exists b,
    is_related_content (id +:+ "--" +:+ suffix) (option_map (map VDict) given) st = Ok b /\
    (b = true <-> exists c, In c related /\ assoc_get "_id" c = Some (VStr id)).
Proof.
  intros Hid related Hall. unfold is_related_content.
  assert (Hr : match option_map (map VDict) given with
               | Some l => l
               | None => map VDict (find_all [("field_type", VStr "related_content")] st)
               end = map VDict related).
  { unfold related. destruct given; reflexivity. }
  rewrite Hr, before_dashes_append by exact Hid. clearbody related. clear Hr.
  destruct related as [|c r].
  - exists false. split; [reflexivity|]. split; [discriminate|]. intros (c & [] & _).
  - change (map VDict (c :: r)) with (VDict c :: map VDict r) at 1.
    cbv iota. change (VDict c :: map VDict r) with (map VDict (c :: r)).
    rewrite traverse_ids by exact Hall. unfold_monad.
    exists (list_contains (VStr id) (map (dict_get "_id") (c :: r))).
    split; [reflexivity|]. unfold list_contains. rewrite existsb_exists. split.
    + intros (x & Hin & Hx). apply in_map_iff in Hin as (c' & <- & Hin).
      exists c'. split; [exact Hin|]. apply py_eq_str in Hx.
      rewrite Forall_forall in Hall. specialize (Hall c' (proj2 (list_elem_of_In _ _) Hin)).
      unfold dict_has, dict_get in *. destruct (assoc_get "_id" c'); [congruence | discriminate].
    + intros (c' & Hin & Hc'). exists (VStr id). split; [|apply py_eq_str_refl].
      apply in_map_iff. exists c'. split; [|exact Hin]. unfold dict_get. rewrite Hc'.
      reflexivity.
Qed.

Lemma is_related_content_by_prefix_witness :
  exists b,
    is_related_content "gallery--1" None related_store = Ok b /\
    (b = true <->
     exists c, In c (find_all [("field_type", VStr "related_content")] related_store) /\
               assoc_get "_id" c = Some (VStr "gallery")).
Proof.
  apply (is_related_content_by_prefix "gallery" "1" None related_store); [reflexivity|].
  vm_compute. repeat constructor.
Defined.

(** A vocabulary id that ends in a hyphen is cut short by the split. *)
Example is_related_content_id_ending_in_hyphen :
  is_related_content "a---1" (Some [VDict [("_id", VStr "a-")]]) [] = Ok false.
Proof. reflexivity. Qed.


(** ** Validation against linked vocabularies *)

Section LinkLemmas.
Variable st : store.
Variable targets : string -> list dict.
Variable link_field_of : string -> string.

Lemma traverse_link_field F (ts : list dict) :
  traverse (fun vocab => py_get_key vocab (VStr F)) (map VDict ts) = Ok (map (dict_get F) ts).
Proof.
  induction ts as [|t r IH]; cbn [map traverse]; [reflexivity|].
  unfold_monad. rewrite IH. reflexivity.
Qed.

Lemma linked_values_run V :
  stored_items st V (targets V) ->
  (let linked_items := dict_get "items" (default [] (find_one [("_id", VStr V)] st)) in
   xs ← (if truthy linked_items then py_iter linked_items else Ok []);
   traverse (fun vocab => py_get_key vocab (VStr (link_field_of V))) xs)
  = Ok (link_values targets link_field_of V).
Proof.
  unfold stored_items, link_values. cbv zeta.
  destruct (find_one [("_id", VStr V)] st) as [target|]; cbn [default from_option id];
    intros H.
  - replace (dict_get "items" target) with (VList (map VDict (targets V)))
      by (unfold dict_get; rewrite H; reflexivity).
    destruct (targets V) as [|t r]; [reflexivity|].
    change (truthy (VList (map VDict (t :: r)))) with true. cbv iota. cbn [py_iter].
    unfold_monad. apply traverse_link_field.
  - rewrite H. reflexivity.
Qed.

Lemma cache_agrees_set V (s : vstate) :
  cache_agrees targets link_field_of s ->
  cache_agrees targets link_field_of
    (VState (update s)
            (cache_set (VStr V) (link_values targets link_field_of V) (vocabs s))
            (lookups s ++ [VStr V])).
Proof.
  intros Hs V'. cbn [vocabs]. destruct (String.eqb_spec V V') as [<-|Hne].
  - right. apply cache_get_set_eq, py_eq_str_refl.
  - rewrite cache_get_set_ne; [apply Hs|]. cbn [py_eq].
    apply String.eqb_neq. congruence.
Qed.

Lemma cached_link_run V (s : vstate) :
  stored_items st V (targets V) ->
  cache_agrees targets link_field_of s ->
  exists s', cached_link st (VStr V) (VStr (link_field_of V)) s = (Ok tt, s') /\
             cache_agrees targets link_field_of s' /\
             cache_get (VStr V) (vocabs s') = Some (link_values targets link_field_of V).
Proof.
  intros Hst Hs. unfold cached_link, resolve_link. unfold_monad.
  pose proof (linked_values_run V Hst) as Hv. cbv zeta in Hv. unfold_monad.
  unfold cache_miss. destruct (Hs V) as [Hc|Hc]; rewrite Hc.
  - cbn [update vocabs lookups]. rewrite Hv. eexists. split; [reflexivity|].
    split; [apply (cache_agrees_set V s Hs)|]. cbn [vocabs].
    apply cache_get_set_eq, py_eq_str_refl.
  - destruct (link_values targets link_field_of V) as [|x r] eqn:E.
    + cbn [update vocabs lookups]. rewrite Hv. eexists. split; [reflexivity|]. split.
      * pose proof (cache_agrees_set V s Hs) as H. rewrite E in H. exact H.
      * cbn [vocabs]. apply cache_get_set_eq, py_eq_str_refl.
    + exists s. split; [reflexivity|]. split; [exact Hs|]. congruence.
Qed.

Lemma check_field_linked U index (item desc : dict) field (s : vstate) :
  well_linked st targets link_field_of desc ->
  cache_agrees targets link_field_of s ->
  exists s',
    check_field st U index (VDict item) field (VDict desc) s
    = (match violation targets link_field_of U index item (field, desc) with
       | Some e => Raise e
       | None => Ok tt
       end, s') /\
    cache_agrees targets link_field_of s'.
Proof.
  intros [Hl | (V & HV & HVne & HF & HFne & Hst)] Hs.
  - exists s. split; [|exact Hs]. rewrite check_field_no_link by exact Hl.
    unfold violation, unresolved. cbn [fst snd]. rewrite Hl.
    destruct (asks_for U field desc && negb (supplies item field)); reflexivity.
  - assert (Hnl : no_link desc = false).
    { unfold no_link. rewrite HV, HF. cbn [truthy].
      destruct (String.eqb_spec V ""); [congruence|].
      destruct (String.eqb_spec (link_field_of V) ""); [congruence | reflexivity]. }
    destruct (cached_link_run V s Hst Hs) as (s' & Hrun & Hs' & Hget).
    exists (if asks_for U field desc && negb (supplies item field) then s else s').
    unfold violation, unresolved. cbn [fst snd]. rewrite Hnl, HV, HF. cbn [negb andb].
    assert (Htv : truthy (VStr V) = true).
    { cbn [truthy]. destruct (String.eqb_spec V ""); [congruence | reflexivity]. }
    assert (Htf : truthy (VStr (link_field_of V)) = true).
    { cbn [truthy]. destruct (String.eqb_spec (link_field_of V) ""); [congruence | reflexivity]. }
    unfold check_field. unfold_monad. cbn [py_get_default py_contains py_getitem py_get].
    fold (asks_for U field desc). rewrite HV, HF, Htv, Htf.
    unfold supplies, dict_has, dict_get. cbn [andb hashable].
    destruct (asks_for U field desc); destruct (assoc_get field item) as [v|];
      cbn [andb negb truthy]; try destruct (truthy v) eqn:Tv; cbn [andb negb];
      cbv beta iota;
      try (split; [reflexivity | exact Hs]);
      rewrite Hrun; cbv beta iota; rewrite ?Hget; cbn [default from_option id];
      try destruct (list_contains v (link_values targets link_field_of V));
      (split; [reflexivity | exact Hs']).
Qed.

Lemma rules_loop U index (item : dict) (schema : list (string * dict)) (s : vstate) :
  Forall (fun fd => well_linked st targets link_field_of fd.2) schema ->
  cache_agrees targets link_field_of s ->
  exists s',
    for_each (map (fun fd => (fd.1, VDict fd.2)) schema)
             (fun '(field, desc) => check_field st U index (VDict item) field desc) s
    = (match item_violation targets link_field_of U index item schema with
       | Some e => Raise e
       | None => Ok tt
       end, s') /\
    cache_agrees targets link_field_of s'.
Proof.
  intros Hall. revert s. induction Hall as [|[field desc] rest Hd _ IH]; intros s Hs.
  - exists s. split; [reflexivity | exact Hs].
  - cbn [map for_each item_violation fst snd]. unfold_monad.
    destruct (check_field_linked U index item desc field s Hd Hs) as (s1 & -> & Hs1).
    destruct (violation targets link_field_of U index item (field, desc)).
    + exists s1. split; [reflexivity | exact Hs1].
    + apply IH. exact Hs1.
Qed.

Lemma linked_items_loop U (schema : list (string * dict)) (items : list dict) n (s : vstate) :
  Forall (fun fd => well_linked st targets link_field_of fd.2) schema ->
  cache_agrees targets link_field_of s ->
  exists s',
    for_each (combine (seq n (length (map VDict items))) (map VDict items))
             (fun '(index, item) =>
                sch ← lift (py_items (schema_value schema));
                for_each sch (fun '(field, desc) => check_field st U index item field desc)) s
    = (match first_violation targets link_field_of U schema n items with
       | Some e => Raise e
       | None => Ok tt
       end, s') /\
    cache_agrees targets link_field_of s'.
Proof.
  intros Hall. revert n s. induction items as [|item rest IH]; intros n s Hs.
  - exists s. split; [reflexivity | exact Hs].
  - cbn [map length seq combine for_each first_violation]. unfold_monad.
    cbn [schema_value py_items].
    destruct (rules_loop U n item schema s Hall Hs) as (s1 & -> & Hs1).
    destruct (item_violation targets link_field_of U n item schema).
    + exists s1. split; [reflexivity | exact Hs1].
    + apply IH. exact Hs1.
Qed.

(** X18: validation against linked vocabularies, for a candidate whose
    items are dictionaries and whose schema entries are plain rules or links,
    by one link field per vocabulary, to stored vocabularies of dictionaries
    (or to vocabularies that are not stored): the outcome is that of checking
    item by item, and in each item rule by rule, first that a required or
    unique field is supplied, then that a truthy linked value is among the
    link values the store holds for the target; the first failure is raised
    and otherwise the candidate is accepted.  The values cached during the
    call do not change the outcome. *)
Theorem validate_first_violation (doc : dict) (schema : list (string * dict))
    (items : list dict) :
  assoc_get "schema" doc = Some (schema_value schema) ->
  assoc_get "items" doc = Some (VList (map VDict items)) ->
  Forall (fun fd => well_linked st targets link_field_of fd.2) schema ->
  (validate st doc).1 =
  match first_violation targets link_field_of
          (dict_get "unique_field" (default_unique_field doc)) schema 0 items with
  | Some e => Raise e
  | None => Ok tt
  end.
Proof.
  intros Hs Hi Hl.
  assert (H0 : cache_agrees targets link_field_of (VState (default_unique_field doc) [] []))
    by (intros V; left; reflexivity).
  destruct (linked_items_loop (dict_get "unique_field" (default_unique_field doc))
              schema items 0 _ Hl H0) as (s' & Hloop & _).
  unfold validate, _validate_items. unfold_monad. rewrite default_qcode_run.
  unfold default_qcode_outcome. cbn [update vocabs lookups]. rewrite Hs.
  unfold schema_value at 1. cbn iota.
  unfold check_items. unfold_monad. cbn [update].
  unfold dict_has, dict_get_default.
  replace (dict_get "items" (default_unique_field doc)) with (VList (map VDict items))
    by (unfold dict_get; rewrite (assoc_get_default_unique_field "items") by discriminate;
        rewrite Hi; reflexivity).
  rewrite (assoc_get_default_unique_field "schema") by discriminate.
  rewrite (assoc_get_default_unique_field "items") by discriminate.
  rewrite Hs, Hi. cbn [andb]. cbn iota. cbn [py_iter]. cbv beta iota. unfold enumerate.
  rewrite Hloop. reflexivity.
Qed.

End LinkLemmas.


Lemma validate_first_violation_witness :
  (validate [countries] (places [oslo; malmo])).1
  = Raise (LinkNotFound (VStr "countries") (VStr "code") (VStr "SE") "country" 1) /\
  (validate [countries] (places [oslo])).1 = Ok tt.
Proof.
  assert (Hl : Forall (fun fd : string * dict => well_linked [countries] country_items by_code fd.2)
                      places_schema).
  { constructor; [left; reflexivity|]. constructor; [|constructor].
    right. exists "countries". repeat split; try discriminate; reflexivity. }
  split.
  - exact (validate_first_violation [countries] country_items by_code
             (places [oslo; malmo]) places_schema [oslo; malmo] eq_refl eq_refl Hl).
  - exact (validate_first_violation [countries] country_items by_code
             (places [oslo]) places_schema [oslo] eq_refl eq_refl Hl).
Defined.

(** The cache of a validation call is keyed by the linked vocabulary alone:
    of two rules that link to one vocabulary by different fields, the second
    is checked against the values of the first.  The name Norway is refused
    as a country name, the codes being what the cache holds. *)
Example validate_second_link_field_is_ignored :
  (validate [countries] norway_by_name).1
  = Raise (LinkNotFound (VStr "countries") (VStr "name") (VStr "Norway") "country_name" 0).
Proof. vm_compute. reflexivity. Qed.


(** ** Rights of an article *)

Lemma locale_fields_run language (translations : dict) :
  Forall (fun kv => exists values, kv.2 = VDict values) translations ->
  forall d : dict,
    locale_fields language translations d
    = Ok (fold_left (localize_dict language) translations d).
Proof.
  induction 1 as [|[field vs] rest [values Hv] _ IH]; intros d; cbn [locale_fields fold_left].
  - reflexivity.
  - cbn [snd] in Hv. subst vs. unfold_monad.
    assert (Hf : locale_field language d (field, VDict values)
                 = Ok (localize_dict language d (field, VDict values))).
    { unfold locale_field, localize_dict. cbn [fst snd py_contains py_getitem]. unfold_monad.
      destruct (dict_has field d); [|reflexivity]. unfold dict_has.
      destruct (assoc_get language values); reflexivity. }
    rewrite Hf. apply IH.
Qed.

Lemma locale_item_run language (d : dict) :
  wf_item d -> locale_item language (VDict d) = Ok (VDict (overlay language d)).
Proof.
  intros [Hnd Hwf]. unfold locale_item. unfold_monad. cbn [py_contains].
  unfold dict_has, dict_get_default.
  destruct (assoc_get "translations" d) as [tr|] eqn:Ht; cbn [negb].
  - destruct tr as [ |b|n|s|l|translations]; try contradiction. destruct Hwf as [Hnt Hvs].
    cbn [py_items]. rewrite locale_fields_run by exact Hvs.
    rewrite (overlay_with_translations language d translations Ht Hnt Hnd). reflexivity.
  - rewrite overlay_without_translations; [reflexivity|]. unfold dict_has. rewrite Ht.
    reflexivity.
Qed.

Lemma locale_vocabulary_value_run (ds : list dict) (language : option string) :
  Forall wf_item ds ->
  locale_vocabulary_value (VList (map VDict ds)) language
  = Ok (VList (map VDict (locale_view language ds))).
Proof.
  intros Hwf. unfold locale_vocabulary_value, locale_view.
  destruct language as [lang|]; [|reflexivity].
  destruct ds as [|d r]; [destruct (String.eqb lang ""); reflexivity|].
  change (truthy (VList (map VDict (d :: r)))) with true. cbn [negb orb].
  destruct (String.eqb lang ""); [reflexivity|]. cbn [py_iter]. unfold_monad.
  assert (Ht : traverse (locale_item lang) (map VDict (d :: r))
               = Ok (map VDict (map (overlay lang) (d :: r)))).
  { induction Hwf as [|x xs Hx _ IH]; cbn [map traverse]; [reflexivity|]. unfold_monad.
    rewrite (locale_item_run lang x Hx), IH. reflexivity. }
  rewrite Ht. reflexivity.
Qed.

Lemma first_named_run key (ds : list dict) :
  Forall (fun d => dict_has "name" d = true) ds ->
  first_named key (map VDict ds) = Ok (VDict <$> named_item key ds).
Proof.
  unfold named_item. induction 1 as [|d r Hd _ IH]; cbn [map first_named List.find];
    [reflexivity|].
  unfold_monad. cbn [py_getitem]. unfold dict_has, dict_get in *.
  destruct (assoc_get "name" d) as [n|]; [|discriminate].
  destruct (py_eq n key); [reflexivity | exact IH].
Qed.

Lemma overlay_keys language (d : dict) : map fst (overlay language d) = map fst d.
Proof. unfold overlay. rewrite map_map. reflexivity. Qed.

(** X19: for a stored rights vocabulary whose items are well-formed item
    dictionaries with a name, [get_rightsinfo] reads the items as the
    article's language shows them and returns the rights of the first item
    named like the article's source (or, without a source, its original
    source, or else "default"); when no item has that name it returns the
    rights of the first item named "default", and the empty mapping when
    there is none either. *)
Theorem get_rightsinfo_resolution (item : article) (st : store) (all_rights : dict)
    (ds : list dict) :
  find_one [("_id", VStr "rightsinfo")] st = Some all_rights ->
  assoc_get "items" all_rights = Some (VList (map VDict ds)) ->
  Forall (fun d => wf_item d /\ dict_has "name" d = true) ds ->
  let view := locale_view (article_language item) ds in
  get_rightsinfo item st =
  Ok match named_item (rights_key item) view with
     | Some info => rights_of info
     | None => match named_item (VStr "default") view with
               | Some info => rights_of info
               | None => []
               end
     end.
Proof.
  intros Hf Hi Hall view. unfold get_rightsinfo. rewrite Hf.
  destruct all_rights as [|kv rest] eqn:Hr; [discriminate Hi|]. rewrite <- Hr in *.
  replace (dict_get "items" all_rights) with (VList (map VDict ds))
    by (unfold dict_get; rewrite Hi; reflexivity).
  destruct ds as [|d0 ds0].
  - cbn [map truthy negb]. unfold view, locale_view.
    destruct (article_language item) as [lang|]; [destruct (String.eqb lang "")|]; reflexivity.
  - set (ds := d0 :: ds0) in *.
    assert (Htruthy : truthy (VList (map VDict ds)) = true) by reflexivity.
    rewrite Htruthy. cbn [negb]. unfold_monad.
    rewrite locale_vocabulary_value_run
      by (eapply Forall_impl; [exact Hall | intros x [Hx _]; exact Hx]).
    fold view. cbn [py_iter].
    assert (Hnames : Forall (fun d => dict_has "name" d = true) view).
    { unfold view, locale_view.
      assert (H0 : Forall (fun d => dict_has "name" d = true) ds)
        by (eapply Forall_impl; [exact Hall | intros x [_ Hx]; exact Hx]).
      assert (H1 : forall lang, Forall (fun d => dict_has "name" d = true)
                                       (map (overlay lang) ds)).
      { intros lang. apply Forall_forall. intros x Hx.
        apply list_elem_of_In, in_map_iff in Hx as (x0 & <- & Hx0).
        rewrite (dict_has_by_keys "name" x0 (overlay lang x0) (overlay_keys lang x0)).
        rewrite Forall_forall in H0. apply H0, list_elem_of_In, Hx0. }
      destruct (article_language item) as [lang|]; [destruct (String.eqb lang "")|];
        first [exact H0 | apply H1]. }
    rewrite !first_named_run by exact Hnames.
    assert (Hfound : forall key info, named_item key view = Some info ->
                                      truthy (VDict info) = true).
    { intros key info H. unfold named_item in H. apply List.find_some in H as [Hin _].
      rewrite Forall_forall in Hnames. specialize (Hnames info (proj2 (list_elem_of_In _ _) Hin)).
      unfold dict_has in Hnames. destruct info; [discriminate Hnames | reflexivity]. }
    destruct (named_item (rights_key item) view) as [info|] eqn:E1; cbn [fmap option_fmap option_map].
    + destruct (named_item (VStr "default") view); cbn [fmap option_fmap option_map];
        rewrite (Hfound _ _ E1); reflexivity.
    + destruct (named_item (VStr "default") view) as [info|] eqn:E2;
        cbn [fmap option_fmap option_map]; [|reflexivity].
      rewrite (Hfound _ _ E2). reflexivity.
Qed.

Lemma get_rightsinfo_resolution_witness :
  get_rightsinfo ntb_article [rightsinfo]
  = Ok [ ("copyrightholder", VStr "NTB"); ("copyrightnotice", VNone);
         ("usageterms", VStr "Subscribers only") ] /\
  get_rightsinfo other_article [rightsinfo]
  = Ok [ ("copyrightholder", VStr "The newsroom"); ("copyrightnotice", VNone);
         ("usageterms", VNone) ].
Proof.
  assert (Hall : Forall (fun d : dict => wf_item d /\ dict_has "name" d = true)
                   [ [("name", VStr "NTB"); ("copyrightHolder", VStr "NTB");
                      ("usageTerms", VStr "Subscribers only")];
                     [("name", VStr "default"); ("copyrightHolder", VStr "The newsroom")] ]).
  { repeat constructor; simpl; intros H; repeat (destruct H as [H|H]; try discriminate H);
      auto. }
  split.
  - exact (get_rightsinfo_resolution ntb_article [rightsinfo] rightsinfo _ eq_refl eq_refl Hall).
  - exact (get_rightsinfo_resolution other_article [rightsinfo] rightsinfo _ eq_refl eq_refl
             Hall).
Defined.

(** X20: whatever the article and the store, the mapping [get_rightsinfo]
    returns is empty or has exactly the keys [copyrightholder],
    [copyrightnotice] and [usageterms]; it is empty when no rights vocabulary
    is stored. *)
Theorem get_rightsinfo_shape (item : article) (st : store) :
  (find_one [("_id", VStr "rightsinfo")] st = None -> get_rightsinfo item st = Ok []) /\
  (forall rights, get_rightsinfo item st = Ok rights ->
     rights = [] \/ map fst rights = ["copyrightholder"; "copyrightnotice"; "usageterms"]).
Proof.
  unfold get_rightsinfo. split.
  - intros ->. reflexivity.
  - intros rights. destruct (find_one [("_id", VStr "rightsinfo")] st) as [[|kv rest]|];
      try (intros H; injection H as <-; left; reflexivity).
    destruct (negb (truthy (dict_get "items" (kv :: rest))));
      [intros H; injection H as <-; left; reflexivity|].
    unfold_monad.
    destruct (locale_vocabulary_value _ _) as [items|]; [|discriminate].
    destruct (py_iter items) as [infos|]; [|discriminate].
    destruct (first_named (VStr "default") infos) as [default_rights|]; [|discriminate].
    destruct (first_named (rights_key item) infos) as [found|]; [|discriminate].
    destruct (match found with Some info => Some info | None => default_rights end)
      as [r|]; [|intros H; injection H as <-; left; reflexivity].
    destruct (truthy r); [|intros H; injection H as <-; left; reflexivity].
    destruct (py_get r "copyrightHolder"); [|discriminate].
    destruct (py_get r "copyrightNotice"); [|discriminate].
    destruct (py_get r "usageTerms"); [|discriminate].
    intros H. injection H as <-. right. reflexivity.
Qed.


(** ** Custom vocabularies *)

Lemma sublist_List_filter {A} (p : A -> bool) (l : list A) : sublist (List.filter p l) l.
Proof.
  induction l as [|x r IH]; cbn [List.filter]; [constructor|].
  destruct (p x); [apply sublist_skip | apply sublist_cons]; exact IH.
Qed.

(** X21: whatever the store makes of a single condition, the forbidden
    custom vocabularies are the custom vocabularies whose [selection_type]
    is "do not show", in the same order; so each of them is a custom
    vocabulary. *)
Theorem forbidden_custom_vocabularies_are_custom
    (field_holds : string -> condition -> dict -> bool) (st : store) :
  get_forbiden_custom_vocabularies field_holds st
  = List.filter (field_holds "selection_type" (Is (VStr "do not show")))
                (get_custom_vocabularies field_holds st) /\
  sublist (get_forbiden_custom_vocabularies field_holds st)
          (get_custom_vocabularies field_holds st).
Proof.
  assert (H : get_forbiden_custom_vocabularies field_holds st
              = List.filter (field_holds "selection_type" (Is (VStr "do not show")))
                            (get_custom_vocabularies field_holds st)).
  { unfold get_forbiden_custom_vocabularies, get_custom_vocabularies, get.
    induction st as [|doc rest IH]; cbn [List.filter forallb fst snd]; [reflexivity|].
    destruct (field_holds "field_type" (Is VNone) doc); cbn [andb]; [|exact IH].
    destruct (field_holds "service" (Operators [("$exists", VBool true)]) doc).
    - rewrite !andb_true_r. cbn [List.filter].
      destruct (field_holds "selection_type" (Is (VStr "do not show")) doc);
        [f_equal|]; exact IH.
    - rewrite !andb_false_r. exact IH. }
  split; [exact H|]. rewrite H. apply sublist_List_filter.
Qed.

(** ** Field options *)

(** X22: [get_field_options] returns the [field_options] of the stored
    vocabulary when that value is truthy, and the empty mapping when the
    vocabulary is not stored or its [field_options] is missing or falsy; so it
    never returns a falsy value other than the empty mapping. *)
Theorem get_field_options_or_empty (field : value) (st : store) :
  (forall cv, find_one [("_id", field)] st = Some cv ->
              truthy (dict_get "field_options" cv) = true ->
              get_field_options field st = dict_get "field_options" cv /\
              assoc_get "field_options" cv = Some (get_field_options field st)) /\
  (forall cv, find_one [("_id", field)] st = Some cv ->
              truthy (dict_get "field_options" cv) = false ->
              get_field_options field st = VDict []) /\
  (find_one [("_id", field)] st = None -> get_field_options field st = VDict []) /\
  (truthy (get_field_options field st) = true \/ get_field_options field st = VDict []).
Proof.
  unfold get_field_options.
  destruct (find_one [("_id", field)] st) as [[|kv rest]|].
  - split; [intros cv H Ht; injection H as <-; discriminate Ht|].
    split; [reflexivity|]. split; [discriminate|]. right. reflexivity.
  - destruct (truthy (dict_get "field_options" (kv :: rest))) eqn:E.
    + split.
      * intros cv H _. injection H as <-. split; [reflexivity|].
        unfold dict_get in *. destruct (assoc_get "field_options" (kv :: rest));
          [reflexivity | discriminate E].
      * split; [intros cv H Hf; injection H as <-; congruence|].
        split; [discriminate|]. left. exact E.
    + split; [intros cv H Ht; injection H as <-; congruence|].
      split; [reflexivity|]. split; [discriminate|]. right. reflexivity.
  - split; [discriminate|]. split; [discriminate|]. split; [reflexivity|]. right. reflexivity.
Qed.

End Python.

(* ===================================================================== *)
(** * The properties on the samples                                       *)
(* ===================================================================== *)

(** The sample documents hold ASCII text, on which Python's case mappings
    and [repr] are [ascii_upper], [ascii_lower] and [ascii_repr]. *)

(** ** Updates *)

Lemma qcode_schema_sets_unique_field_witness :
  update (validate [] qcode_candidate).2 = qcode_stored /\
  dict_get "unique_field" qcode_stored = VStr "qcode" /\
  docs (post ∅ [qcode_candidate] (World [] [])).2 = [qcode_stored] /\
  on_update ascii_upper ascii_repr [("items", qcode_duplicates)] qcode_stored
    (World [qcode_stored] []) =
    (Raise (NotUnique (VStr "FEAT") (VStr "qcode")), World [qcode_stored] []).
Proof.
  destruct (qcode_schema_sets_unique_field ascii_upper ascii_repr ∅ [] qcode_candidate
              [("name", VDict []); ("qcode", VDict [])] eq_refl eq_refl eq_refl)
    as (H1 & H2 & _ & H4).
  split; [exact H1|]. split; [exact H2|]. split; [vm_compute; reflexivity|].
  exact (H4 [("items", qcode_duplicates)] qcode_duplicates (World [qcode_stored] [])
            eq_refl eq_refl).
Defined.

Lemma on_update_rechecks_updated_items_witness :
  on_update ascii_upper ascii_repr [("items", qcode_duplicates)] original_with_duplicates
    (World [] []) =
    (Raise (NotUnique (VStr "FEAT") (VStr "qcode")), World [] []) /\
  on_update ascii_upper ascii_repr rename_only original_with_duplicates (World [] [])
    = (Ok tt, World [] []).
Proof.
  destruct (on_update_rechecks_updated_items ascii_upper ascii_repr
              [("items", qcode_duplicates)] original_with_duplicates (World [] []) eq_refl)
    as [H1 _].
  destruct (on_update_rechecks_updated_items ascii_upper ascii_repr rename_only
              original_with_duplicates (World [] []) eq_refl) as [_ H2].
  split.
  - exact (H1 qcode_duplicates eq_refl eq_refl).
  - exact (proj2 (H2 eq_refl)).
Defined.

(** The claim as the spec words it fails here: the original's items hold a
    duplicate, the update leaves [items] alone, and [on_update] accepts it,
    although the uniqueness check over the original's item list raises. *)
Lemma on_update_ignores_original_items :
  truthy (dict_get "unique_field" original_with_duplicates) = true /\
  dict_has "items" rename_only = false /\
  _check_uniqueness ascii_upper ascii_repr (dict_get "items" original_with_duplicates)
    (VStr "qcode") =
    Raise (NotUnique (VStr "FEAT") (VStr "qcode")) /\
  on_update ascii_upper ascii_repr rename_only original_with_duplicates (World [] [])
    = (Ok tt, World [] []).
Proof. repeat split. Qed.

Lemma uniqueness_is_not_checked_by_validation_witness :
  validation_error (RequiredField "name" 1) = true.
Proof.
  destruct (uniqueness_is_not_checked_by_validation ascii_upper ascii_repr) as [_ H2].
  apply (H2 incomplete_candidate fine_doc (World [] [])); reflexivity.
Defined.

(** An original without [unique_field] takes an update that declares one and
    brings two active items of the same name. *)
Example on_update_accepts_new_unique_field_with_duplicates :
  on_update ascii_upper ascii_repr update_with_duplicates fine_doc (World [] [])
  = (Ok tt, World [] []).
Proof. reflexivity. Qed.

(** ** The uniqueness check *)

Lemma check_uniqueness_duplicate_iff_witness :
  _check_uniqueness ascii_upper ascii_repr (VList (map VDict paris_twice)) (VStr "name")
  = Raise (NotUnique (VStr "PARIS") (VStr "name")) /\
  _check_uniqueness ascii_upper ascii_repr (VList (map VDict empty_then_duplicates))
    (VStr "name")
  = Raise (EmptyUnique (VStr "name")) /\
  _check_uniqueness ascii_upper ascii_repr
    (VList (map VDict [named (Some true) "Paris"; named (Some false) "paris"]))
    (VStr "name") = Ok tt.
Proof.
  assert (Hclean : forall l : list dict,
             NoDup (active_keys ascii_upper ascii_repr "name" l) ->
             ~ has_duplicate ascii_upper ascii_repr "name" l).
  { intros l Hnd Hd. apply has_duplicate_iff_keys in Hd. contradiction. }
  split; [|split].
  - apply (check_uniqueness_duplicate_iff ascii_upper ascii_repr "name" paris_twice).
    + repeat constructor.
    + exists 2, (named (Some true) "PARIS").
      split; [reflexivity|]. split; [reflexivity|]. split; [reflexivity|].
      split; [reflexivity|]. split; [vm_compute; apply elem_of_cons; left; reflexivity|].
      split; [repeat constructor; discriminate|].
      apply Hclean. vm_compute. apply NoDup_singleton.
  - apply (check_uniqueness_duplicate_iff ascii_upper ascii_repr "name"
             empty_then_duplicates).
    + repeat constructor.
    + exists 0, (named (Some true) "").
      split; [reflexivity|]. split; [reflexivity|]. split; [reflexivity|].
      split; [constructor|]. apply Hclean. vm_compute. constructor.
  - apply (check_uniqueness_duplicate_iff ascii_upper ascii_repr "name"
             [named (Some true) "Paris"; named (Some false) "paris"]).
    + repeat constructor.
    + split; [repeat constructor; discriminate|].
      apply Hclean. vm_compute. apply NoDup_singleton.
Defined.

(** The claim as the spec words it fails here: two active items have the
    same case-insensitive name, and the check raises the empty-value error
    for the item before them, not the duplicate-value error. *)
Lemma check_uniqueness_empty_value_first :
  has_duplicate ascii_upper ascii_repr "name" empty_then_duplicates /\
  _check_uniqueness ascii_upper ascii_repr (VList (map VDict empty_then_duplicates))
    (VStr "name")
    = Raise (EmptyUnique (VStr "name")).
Proof.
  split; [|reflexivity].
  exists [named (Some true) ""], (named (Some true) "a"), [], (named (Some true) "A"), [].
  repeat split.
Qed.

(** For the record: the loop tests [item.get("is_active")], so an item with
    no [is_active] entry is skipped, where the other readers of the flag
    default it to [True]. *)
Example check_uniqueness_skips_items_without_flag :
  _filter_inactive_vocabularies
    [("items", VList [VDict (named None "a"); VDict (named None "A")])]
    = Ok [("items", VList [VDict (named None "a"); VDict (named None "A")])] /\
  active (named None "a") = true /\
  _check_uniqueness ascii_upper ascii_repr
    (VList [VDict (named None "a"); VDict (named None "A")]) (VStr "name")
    = Ok tt.
Proof. repeat split. Qed.

Lemma check_uniqueness_ignores_inactive_witness :
  _check_uniqueness ascii_upper ascii_repr (VList (map VDict paris_twice)) (VStr "name")
    = _check_uniqueness ascii_upper ascii_repr
        (VList (map VDict [named (Some true) "Paris"; named (Some true) "PARIS"]))
        (VStr "name") /\
  (EmptyUnique (VStr "name") = EmptyUnique (VStr "name") \/
   exists v, EmptyUnique (VStr "name") = NotUnique v (VStr "name")).
Proof.
  destruct (check_uniqueness_ignores_inactive ascii_upper ascii_repr (VStr "name")
              paris_twice) as [H1 _].
  destruct (check_uniqueness_ignores_inactive ascii_upper ascii_repr (VStr "name")
              empty_then_duplicates) as [_ H2].
  split; [exact H1 | exact (H2 "name" _ eq_refl eq_refl)].
Defined.

(** ** Keywords *)

Lemma add_missing_keywords_stores_case_variants_witness :
  add_missing_keywords ascii_upper ascii_lower ascii_repr demo_keys three_keywords
    (World [] [])
  = (Ok tt, World [keywords_cv three_keywords] [keywords_created]) /\
  dict_get "items" (keywords_cv three_keywords)
  = VList [keyword_item "Paris"; keyword_item "paris"; keyword_item "London"] /\
  (exists v, _check_uniqueness ascii_upper ascii_repr
               (dict_get "items" (keywords_cv three_keywords)) (VStr "name")
             = Raise (NotUnique v (VStr "name"))) /\
  (exists v, add_missing_keywords ascii_upper ascii_lower ascii_repr demo_keys ["Berlin"]
               (World [keywords_cv three_keywords] [keywords_created])
             = (Raise (NotUnique v (VStr "name")),
                World [keywords_cv three_keywords] [keywords_created])).
Proof.
  assert (Hk : three_keywords <> []) by discriminate.
  assert (Hne : Forall (fun k : string => k <> "") three_keywords)
    by (repeat constructor; discriminate).
  pose proof (add_missing_keywords_stores_case_variants ascii_upper ascii_lower ascii_repr
                demo_keys three_keywords (World [] []) Hk Hne eq_refl) as H.
  cbv zeta in H. destruct H as (H1 & _ & _ & H4 & _ & H6).
  assert (Hv : case_variants ascii_upper three_keywords).
  { exists [], "Paris", [], "paris", ["London"]. split; reflexivity. }
  destruct (H6 Hv) as [H7 H8].
  split; [exact H1|]. split; [exact H4|]. split; [exact H7|].
  apply (H8 ["Berlin"]).
  - repeat constructor; discriminate.
  - vm_compute. discriminate.
Defined.

(** The vocabulary so created refuses the keyword Berlin with the
    duplicate-value error for paris. *)
Example add_missing_keywords_after_case_variants :
  add_missing_keywords ascii_upper ascii_lower ascii_repr demo_keys ["Berlin"]
    (World [keywords_cv three_keywords] [keywords_created])
  = (Raise (NotUnique (VStr "paris") (VStr "name")),
     World [keywords_cv three_keywords] [keywords_created]).
Proof. vm_compute. reflexivity. Qed.

Lemma add_missing_keywords_appends_missing_witness :
  (forall k, In k ["Berlin"] <->
             In k ["paris"; "Berlin"] /\ ~ In (ascii_lower k) ["paris"; "london"]) /\
  (exists cv',
      find_one [("_id", VStr KEYWORDS_CV)]
               [keywords_cv ["Paris"; "London"; "Berlin"]] = Some cv' /\
      assoc_get "items" cv'
      = Some (VList (map keyword_item ["Paris"; "London"] ++ map keyword_item ["Berlin"]))) /\
  add_missing_keywords ascii_upper ascii_lower ascii_repr demo_keys ["paris"; "Berlin"]
    (World [keywords_cv ["Paris"; "London"; "Berlin"]]
           [keywords_updated (keywords_cv ["Paris"; "London"; "Berlin"])])
  = (Ok tt, World [keywords_cv ["Paris"; "London"; "Berlin"]]
                  [keywords_updated (keywords_cv ["Paris"; "London"; "Berlin"])]).
Proof.
  apply (add_missing_keywords_appends_missing ascii_upper ascii_lower ascii_repr demo_keys
           ["paris"; "Berlin"] (World [keywords_cv ["Paris"; "London"]] [])
           (World [keywords_cv ["Paris"; "London"; "Berlin"]]
                  [keywords_updated (keywords_cv ["Paris"; "London"; "Berlin"])])
           (keywords_cv ["Paris"; "London"]) (map keyword_item ["Paris"; "London"])
           ["paris"; "london"]); vm_compute; reflexivity.
Defined.

Lemma add_missing_keywords_all_or_nothing_witness :
  World [keywords_cv three_keywords] [keywords_created]
  = World [keywords_cv three_keywords] [keywords_created].
Proof.
  apply (add_missing_keywords_all_or_nothing ascii_upper ascii_lower ascii_repr demo_keys
           ["Berlin"] (World [keywords_cv three_keywords] [keywords_created]) _
           (NotUnique (VStr "paris") (VStr "name"))).
  vm_compute. reflexivity.
Defined.
